(** * RadiusTokenClass: a shallow embedding of
      [privacyidea/lib/tokens/radiustoken.py]

    The development follows the Python module method by method.  Python
    objects that the methods mutate (the [options] dictionaries, the
    challenge table, the log, the packets handed to the RADIUS client) live
    in an explicit [State]; an exception is an explicit [Raise] outcome.

    The decorators [log_with] and [check_token_locked] are imported from
    other modules of privacyIDEA; what is embedded here is the body of each
    method as written in this file. *)

From Stdlib Require Import ZArith Lia Ascii String DecimalString.
From stdpp Require Import base strings gmap list.

Local Open Scope string_scope.
Local Open Scope Z_scope.

(** ** Python values *)

(** The values that travel through [options] and the challenge table:
    [None], integers, strings ([str], held as their UTF-8 text) and byte
    strings ([bytes], which is what pyrad returns for an attribute of
    type octets such as State). *)
Inductive value :=
| VNone
| VInt (z : Z)
| VStr (s : string)
| VBytes (b : string).

#[global] Instance value_eq_dec : EqDecision value.
Proof. solve_decision. Defined.

(** [a == b] *)
Definition py_eq (a b : value) : bool := bool_decide (a = b).

(** [bool(v)] *)
Definition truthy (v : value) : bool :=
  match v with
  | VNone => false
  | VInt z => negb (Z.eqb z 0)
  | VStr s => negb (String.eqb s "")
  | VBytes b => negb (String.eqb b "")
  end.

(** The double quote. *)
Definition dquote : ascii := ascii_of_nat 34.

Definition hex_digit (n : nat) : ascii :=
  if Nat.ltb n 10 then ascii_of_nat (48 + n) else ascii_of_nat (87 + n).

Definition contains (c : ascii) (s : string) : bool :=
  existsb (Ascii.eqb c) (list_ascii_of_string s).

(** One byte as [repr] shows it between the quotes [quote]. *)
Definition escape_byte (quote c : ascii) : string :=
  let n := nat_of_ascii c in
  if orb (Ascii.eqb c quote) (Ascii.eqb c "\") then String "\" (String c "")
  else if Nat.eqb n 9 then "\t"
  else if Nat.eqb n 10 then "\n"
  else if Nat.eqb n 13 then "\r"
  else if orb (Nat.ltb n 32) (Nat.leb 127 n) then
    String "\" (String "x" (String (hex_digit (n / 16))
                             (String (hex_digit (n mod 16)) "")))
  else String c "".

(** [repr(b)] of a byte string, which is also its [str(b)]: the bytes
    between single quotes after the letter b, or between double quotes
    when the bytes hold a single quote and no double quote. *)
Definition bytes_repr (b : string) : string :=
  let quote := if andb (contains "'" b) (negb (contains dquote b))
               then dquote else "'"%char in
  String "b"
    (String quote
       (fold_right (fun c r => escape_byte quote c ++ r)
                   (String quote "") (list_ascii_of_string b))).

(** [str(v)] *)
Definition py_str (v : value) : string :=
  match v with
  | VNone => "None"
  | VInt z => NilZero.string_of_int (Z.to_int z)
  | VStr s => s
  | VBytes b => bytes_repr b
  end.

(** An optional string read from a string store ([None] when absent). *)
Definition of_opt (o : option string) : value :=
  match o with
  | Some s => VStr s
  | None => VNone
  end.

(** An argument that is a string, the token object itself
    (the latter arises where the code passes [self] explicitly), or [None]. *)
Inductive pyobj :=
| OStr (s : string)
| OSelf
| ONone.

#[global] Instance pyobj_eq_dec : EqDecision pyobj.
Proof. solve_decision. Defined.

(** Exceptions; all of them are subclasses of [Exception]. *)
Inductive exn :=
| RecursionError
| TypeError (what : string)
| AttributeError (what : string)
| KeyError (key : string)
| IndexError
| ValueError (what : string)
| UnicodeEncodeError
| BinasciiError
| LibraryError (what : string).

Inductive result (A : Type) :=
| Return (a : A)
| Raise (e : exn).
Arguments Return {A} a.
Arguments Raise {A} e.

(** ** String helpers used by the module *)

(** [s.split(sep)] for a one-character separator. *)
Fixpoint split_on (sep : ascii) (s : string) : list string :=
  match s with
  | EmptyString => [EmptyString]
  | String c s' =>
      if Ascii.eqb c sep then EmptyString :: split_on sep s'
      else match split_on sep s' with
           | h :: t => String c h :: t
           | [] => [String c EmptyString]
           end
  end.

Definition is_space (c : ascii) : bool :=
  let n := nat_of_ascii c in
  orb (Nat.eqb n 32) (andb (Nat.leb 9 n) (Nat.leb n 13)).

Definition digit_of (c : ascii) : option Z :=
  let n := Z.of_nat (nat_of_ascii c) in
  if andb (Z.leb 48 n) (Z.leb n 57) then Some (n - 48) else None.

Fixpoint drop_spaces (s : list ascii) : list ascii :=
  match s with
  | c :: s' => if is_space c then drop_spaces s' else s
  | [] => []
  end.

Definition strip (s : list ascii) : list ascii :=
  rev (drop_spaces (rev (drop_spaces s))).

(** Digits with single underscores between them. *)
Fixpoint parse_digits (after_digit : bool) (acc : Z) (s : list ascii)
  : option Z :=
  match s with
  | [] => if after_digit then Some acc else None
  | c :: s' =>
      match digit_of c with
      | Some d => parse_digits true (10 * acc + d) s'
      | None =>
          if andb (Ascii.eqb c "_") after_digit
          then parse_digits false acc s'
          else None
      end
  end.

(** [int(s)] in base ten for ASCII text: blanks around an optional sign
    and digits, with single underscores between digits. *)
Definition int_ascii (s : string) : result Z :=
  let body := strip (list_ascii_of_string s) in
  let r :=
    match body with
    | c :: rest =>
        if Ascii.eqb c "-" then Z.opp <$> parse_digits false 0 rest
        else if Ascii.eqb c "+" then parse_digits false 0 rest
        else parse_digits false 0 body
    | [] => None
    end in
  match r with
  | Some z => Return z
  | None => Raise (ValueError "invalid literal for int() with base 10")
  end.

Definition hex_of (c : ascii) : option nat :=
  let n := nat_of_ascii c in
  if andb (Nat.leb 48 n) (Nat.leb n 57) then Some (n - 48)%nat
  else if andb (Nat.leb 97 n) (Nat.leb n 102) then Some (n - 87)%nat
  else if andb (Nat.leb 65 n) (Nat.leb n 70) then Some (n - 55)%nat
  else None.

(** [binascii.unhexlify]: two hex digits per byte. *)
Fixpoint unhexlify (s : string) : result string :=
  match s with
  | EmptyString => Return EmptyString
  | String a (String b s') =>
      match hex_of a, hex_of b, unhexlify s' with
      | Some h, Some l, Return r =>
          Return (String (ascii_of_nat (16 * h + l)) r)
      | _, _, _ => Raise BinasciiError
      end
  | String _ EmptyString => Raise BinasciiError
  end.

(** [s.encode('ascii')] *)
Fixpoint encode_ascii (s : string) : result string :=
  match s with
  | EmptyString => Return EmptyString
  | String c s' =>
      if Nat.ltb (nat_of_ascii c) 128 then
        match encode_ascii s' with
        | Return r => Return (String c r)
        | Raise e => Raise e
        end
      else Raise UnicodeEncodeError
  end.

(** ** Collaborators and mutable state *)

(** pyrad packet codes. *)
Definition AccessRequest : Z := 1.
Definition AccessAccept : Z := 2.
Definition AccessReject : Z := 3.
Definition AccessChallenge : Z := 11.

(** The token row: serial, type, token info and the stored secret (hex). *)
Record Token := {
  serial : string;
  tokentype : string;
  tokeninfo : gmap string string;
  otpkey : string
}.

(** An entry of the registry of named RADIUS servers. *)
Record RadiusServer := {
  rs_server : string;
  rs_port : Z;
  rs_secret : string;
  rs_dictionary : option string
}.

(** What the code hands to the RADIUS client for one Access-Request.
    [rq_password] is the value given to [req.PwCrypt], which encrypts it
    with [rq_secret] into the User-Password attribute. *)
Record AuthRequest := {
  rq_server : string;
  rq_authport : Z;
  rq_secret : option string;
  rq_dict : string;
  rq_user : string;
  rq_nas : string;
  rq_password : string;
  rq_state : option string
}.

(** A decoded reply: its code and its attributes, each a list of values. *)
Record Response := {
  code : Z;
  attrs : gmap string (list value)
}.

(** Modelled from the spec: the persisted challenge record of
    [privacyidea.models.Challenge] (owning serial, transaction id, opaque
    data, message, validity predicate, receive-attempt counter).
    [ch_valid] is the answer of [is_valid()] for the duration of a call. *)
Record Challenge := {
  ch_serial : string;
  ch_transaction_id : string;
  ch_data : value;
  ch_challenge : string;
  ch_valid : bool;
  ch_received_count : nat
}.

Inductive level := DEBUG | INFO | ERROR.

Inductive log_entry :=
| Log (l : level) (msg : string)
| LogExc (l : level) (msg : string) (e : exn).

(** The parts of the system the module reads but does not own. *)
Record World := {
  (** [privacyidea.lib.utils.is_true] on a token info value *)
  is_true : option string -> bool;
  (** system configuration, [get_from_config] *)
  sysconfig : gmap string string;
  (** registry of named servers, [get_radius] *)
  get_radius : string -> result RadiusServer;
  (** [TokenClass.check_pin(pin, user)] of the base class *)
  base_check_pin : pyobj -> pyobj -> result bool;
  (** depth of the Python call stack still available *)
  recursion_limit : nat;
  (** [pyrad.dictionary.Dictionary(path)] *)
  Dictionary : string -> option exn;
  (** [srv.CreateAuthPacket(User_Name, NAS_Identifier)] *)
  CreateAuthPacket : string -> string -> option exn;
  (** [to_unicode(radius_secret)] of [privacyidea.lib.utils] *)
  to_unicode : option string -> option exn;
  (** [req["User-Password"] = req.PwCrypt(otpval)] under the client's
      secret *)
  PwCrypt : option string -> string -> option exn;
  (** [req[key] = value] for another attribute *)
  SetAttribute : string -> string -> option exn;
  (** [srv.SendPacket(req)]: the network, asked for the [n]-th time *)
  SendPacket : nat -> AuthRequest -> result Response;
  (** [int(s)] where the interpreter's tables decide: text that is not
      ASCII (the Unicode decimal digits and spaces [int] accepts) and text
      of more than 4300 characters (the limit on the number of digits) *)
  int_beyond : string -> result Z
}.

Definition is_ascii_text (s : string) : bool :=
  forallb (fun c => Nat.ltb (nat_of_ascii c) 128) (list_ascii_of_string s).

(** [int(s)] *)
Definition py_int (w : World) (s : string) : result Z :=
  if andb (is_ascii_text s) (Nat.leb (String.length s) 4300)
  then int_ascii s
  else int_beyond w s.

(** Mutable state: the dictionary objects, the challenge table, the
    packets sent so far (newest first), the number of janitor sweeps and
    the log (newest first). *)
Record State := {
  heap : list (gmap string value);
  challenges : gmap nat Challenge;
  sent : list AuthRequest;
  sweeps : nat;
  log : list log_entry
}.

Definition set_heap (h : list (gmap string value)) (st : State) : State :=
  {| heap := h; challenges := challenges st; sent := sent st;
     sweeps := sweeps st; log := log st |}.

Definition set_challenges (c : gmap nat Challenge) (st : State) : State :=
  {| heap := heap st; challenges := c; sent := sent st;
     sweeps := sweeps st; log := log st |}.

Definition add_sent (r : AuthRequest) (st : State) : State :=
  {| heap := heap st; challenges := challenges st; sent := r :: sent st;
     sweeps := sweeps st; log := log st |}.

Definition add_sweep (st : State) : State :=
  {| heap := heap st; challenges := challenges st; sent := sent st;
     sweeps := S (sweeps st); log := log st |}.

Definition add_log (e : log_entry) (st : State) : State :=
  {| heap := heap st; challenges := challenges st; sent := sent st;
     sweeps := sweeps st; log := e :: log st |}.

(** ** The monad of method bodies: state and exceptions *)

Definition M (A : Type) : Type := State -> result A * State.

#[global] Instance M_ret : MRet M := fun A a st => (Return a, st).

#[global] Instance M_bind : MBind M := fun A B f m st =>
  match m st with
  | (Return a, st') => f a st'
  | (Raise e, st') => (Raise e, st')
  end.

Definition raise {A} (e : exn) : M A := fun st => (Raise e, st).

Definition lift {A} (r : result A) : M A := fun st => (r, st).

Definition logger (l : level) (msg : string) : M unit :=
  fun st => (Return tt, add_log (Log l msg) st).

(** *** Dictionary objects *)

Definition deref (h : list (gmap string value)) (l : nat)
  : gmap string value :=
  default ∅ (h !! l).

(** [options = options or {}]: a missing or empty dictionary is replaced
    by a new object; otherwise the caller's object is used. *)
Definition options_or_empty (options : option nat) : M nat :=
  fun st =>
    let fresh := (Return (length (heap st)), set_heap (heap st ++ [∅]) st) in
    match options with
    | None => fresh
    | Some l =>
        if bool_decide (deref (heap st) l = ∅) then fresh
        else (Return l, st)
    end.

(** [options.get(key)] *)
Definition dict_get (l : nat) (key : string) : M value :=
  fun st => (Return (default VNone (deref (heap st) l !! key)), st).

(** [key in options] *)
Definition dict_has (l : nat) (key : string) : M bool :=
  fun st => (Return (bool_decide (is_Some (deref (heap st) l !! key))), st).

(** [options.update({key: v})] *)
Definition dict_update (l : nat) (key : string) (v : value) : M unit :=
  fun st =>
    (Return tt, set_heap (<[l := <[key := v]> (deref (heap st) l)]> (heap st)) st).

(** *** Token info and configuration *)

(** Modelled from the spec: the token info store of the base class,
    [self.get_tokeninfo(key)], a string-keyed lookup that yields [None]
    for a missing key. *)
Definition get_tokeninfo (tok : Token) (key : string) : option string :=
  tokeninfo tok !! key.

(** Modelled from the spec: the system configuration,
    [get_from_config(key)], a string-keyed lookup that yields [None] for a
    missing key. *)
Definition get_from_config (w : World) (key : string) : option string :=
  sysconfig w !! key.

(** Modelled from the spec: [get_from_config(key, default)]. *)
Definition get_from_config_default (w : World) (key dflt : string) : string :=
  default dflt (sysconfig w !! key).

(** *** Challenge table *)

(** Modelled from the spec: the records [get_challenges] selects, those of
    the token serial and transaction id. *)
Definition challenge_matches (ser : string) (tx : value)
    (p : nat * Challenge) : Prop :=
  ch_serial p.2 = ser /\ tx = VStr (ch_transaction_id p.2).

#[global] Instance challenge_matches_dec ser tx p :
  Decision (challenge_matches ser tx p).
Proof. unfold challenge_matches. apply _. Defined.

(** Modelled from the spec: [get_challenges(serial, transaction_id)] of
    [privacyidea.lib.challenge], the lookup of the challenge store by token
    and transaction. *)
Definition get_challenges (ser : string) (tx : value)
  : M (list (nat * Challenge)) :=
  fun st =>
    (Return (filter (challenge_matches ser tx)
                    (map_to_list (challenges st))), st).

(** Modelled from the spec: [challengeobject.delete()], which removes the
    record from the store. *)
Definition challenge_delete (id : nat) : M unit :=
  fun st => (Return tt, set_challenges (delete id (challenges st)) st).

(** Modelled from the spec: the effect of [set_otp_status()] on a record,
    one more received response. *)
Definition bump (c : Challenge) : Challenge :=
  {| ch_serial := ch_serial c; ch_transaction_id := ch_transaction_id c;
     ch_data := ch_data c; ch_challenge := ch_challenge c;
     ch_valid := ch_valid c;
     ch_received_count := S (ch_received_count c) |}.

(** Modelled from the spec: [challengeobject.set_otp_status()], which
    increments the receive count of the record. *)
Definition set_otp_status (id : nat) : M unit :=
  fun st => (Return tt, set_challenges (alter bump id (challenges st)) st).

(** Modelled from the spec: the records a janitor sweep removes, the
    expired ones of the token. *)
Definition expired_of (ser : string) (c : Challenge) : bool :=
  andb (bool_decide (ch_serial c = ser)) (negb (ch_valid c)).

(** Modelled from the spec: [self.challenge_janitor()] of the base class,
    the sweep of the expired challenges of the token. *)
Definition challenge_janitor (tok : Token) : M unit :=
  fun st =>
    (Return tt,
     add_sweep
       (set_challenges
          (filter (fun p : nat * Challenge => expired_of (serial tok) p.2 = false)
                  (challenges st)) st)).

Definition lift_exn (o : option exn) : M unit :=
  fun st =>
    match o with
    | Some e => (Raise e, st)
    | None => (Return tt, st)
    end.

(** ** [check_radius] *)

(** The local variables of [check_radius] that survive the [try] block. *)
Record locals := {
  l_result : Z;
  l_state : value;
  l_message : value
}.

(** Resolution of the server settings (lines 425-447): named server
    first, then the system settings, then the settings of the token.
    Yields [radius_server], [radius_secret] and [radius_dictionary]. *)
Definition resolve_server (w : World) (tok : Token)
  : result (option string * option string * option string) :=
  let radius_identifier := of_opt (get_tokeninfo tok "radius.identifier") in
  let system_radius_settings :=
    of_opt (get_tokeninfo tok "radius.system_settings") in
  if truthy radius_identifier then
    match get_radius w (py_str radius_identifier) with
    | Return o =>
        Return (Some (rs_server o ++ ":" ++ py_str (VInt (rs_port o))),
                Some (rs_secret o), rs_dictionary o)
    | Raise e => Raise e
    end
  else if truthy system_radius_settings then
    Return (get_from_config w "radius.server",
            get_from_config w "radius.secret", None)
  else
    match unhexlify (otpkey tok) with
    | Return k => Return (get_tokeninfo tok "radius.server", Some k, None)
    | Raise e => Raise e
    end.

(** Lines 460-491: everything the [try] block does before the packet is
    sent.  Any step may raise. *)
Definition build_request (w : World) (tok : Token) (otpval : string)
    (opts : nat) (cfg : option string * option string * option string)
    (radius_state : value) : M AuthRequest :=
  let '(radius_server, radius_secret, radius_dictionary) := cfg in
  rsrv ← match radius_server with
         | Some s => mret s
         | None => raise (AttributeError "split")
         end;
  let server := split_on ":" rsrv in
  let r_server := default "" (head server) in
  r_authport ← match server with
               | _ :: p :: _ => lift (py_int w p)
               | _ => mret 1812
               end;
  let nas_identifier :=
    get_from_config_default w "radius.nas_identifier" "privacyIDEA" in
  let dictionary :=
    match radius_dictionary with
    | Some d =>
        if truthy (VStr d) then d
        else get_from_config_default w "radius.dictfile"
                                     "/etc/privacyidea/dictionary"
    | None => get_from_config_default w "radius.dictfile"
                                      "/etc/privacyidea/dictionary"
    end in
  logger DEBUG "NAS Identifier: %r, Dictionary: %r";;
  lift_exn (to_unicode w radius_secret);;
  logger DEBUG "constructing client object with server: %r, port: %r, secret: %r";;
  lift_exn (Dictionary w dictionary);;
  user ← match get_tokeninfo tok "radius.user" with
         | Some u => mret u
         | None => raise (AttributeError "encode")
         end;
  nas ← lift (encode_ascii nas_identifier);
  lift_exn (CreateAuthPacket w user nas);;
  lift_exn (PwCrypt w radius_secret otpval);;
  has_tx ← dict_has opts "transactionid";
  state1 ← (if has_tx : bool then
              tx ← dict_get opts "transactionid";
              lift_exn (SetAttribute w "State" (py_str tx));;
              mret (Some (py_str tx))
            else mret None);
  state2 ← (if truthy radius_state then
              lift_exn (SetAttribute w "State" (py_str radius_state));;
              logger INFO "Sending saved challenge to radius server: {0} ";;
              mret (Some (py_str radius_state))
            else mret state1);
  mret {| rq_server := r_server; rq_authport := r_authport;
          rq_secret := radius_secret; rq_dict := dictionary;
          rq_user := user; rq_nas := nas;
          rq_password := otpval; rq_state := state2 |}.

(** Line 493: [response = srv.SendPacket(req)]. *)
Definition send (w : World) (req : AuthRequest) : M Response :=
  fun st => (SendPacket w (length (sent st)) req, add_sent req st).

(** Lines 495-507: the [AccessChallenge] branch.  The [log.info] call
    indexes [opt] with both keys before the guarded assignments. *)
Definition challenge_branch (opt : gmap string (list value)) (lc : locals)
  : M (option exn * locals) :=
  match opt !! "State", opt !! "Reply-Message" with
  | None, _ => mret (Some (KeyError "State"), lc)
  | Some _, None => mret (Some (KeyError "Reply-Message"), lc)
  | Some _, Some _ =>
      logger INFO "Radiusserver challenge returned %s '%s' ";;
      match opt !! "State" with
      | Some [] => mret (Some IndexError, lc)
      | st_attr =>
          let lc1 :=
            match st_attr with
            | Some (s0 :: _) =>
                {| l_result := l_result lc; l_state := s0;
                   l_message := l_message lc |}
            | _ => lc
            end in
          match opt !! "Reply-Message" with
          | Some [] => mret (Some IndexError, lc1)
          | Some (m0 :: _) =>
              mret (None, {| l_result := 1; l_state := l_state lc1;
                             l_message := m0 |})
          | None =>
              mret (None, {| l_result := 1; l_state := l_state lc1;
                             l_message := l_message lc1 |})
          end
      end
  end.

(** Lines 495-520: mapping of the reply code. *)
Definition handle_response (resp : Response) (lc : locals)
  : M (option exn * locals) :=
  if Z.eqb (code resp) AccessChallenge then
    challenge_branch (attrs resp) lc
  else if Z.eqb (code resp) AccessAccept then
    logger INFO "Radiusserver %s granted access to user %s.";;
    mret (None, {| l_result := 0; l_state := VStr "<SUCCESS>";
                   l_message := VStr "RADIUS authentication succeeded" |})
  else
    logger DEBUG "radius response code %d";;
    logger INFO "Radiusserver %s rejected access to user %s.";;
    mret (None, {| l_result := l_result lc; l_state := VStr "<REJECTED>";
                   l_message := VStr "RADIUS authentication failed" |}).

(** Lines 454-524 up to the handler: the [try] block.  It yields the
    exception caught, if any, and the locals as they stand at that point. *)
Definition radius_try (w : World) (tok : Token) (otpval : string)
    (opts : nat) (cfg : option string * option string * option string)
    (lc : locals) : M (option exn * locals) :=
  fun st =>
    match (req ← build_request w tok otpval opts cfg (l_state lc);
           send w req) st with
    | (Raise e, st1) => (Return (Some e, lc), st1)
    | (Return resp, st1) => handle_response resp lc st1
    end.

(** [len(otpval)] in the first [log.debug] call (line 451): defined for
    a string, which is what the rest of the method works with. *)
Definition py_len (o : pyobj) : result string :=
  match o with
  | OStr s => Return s
  | OSelf => Raise (TypeError "object of type 'RadiusTokenClass' has no len()")
  | ONone => Raise (TypeError "object of type 'NoneType' has no len()")
  end.

(** Lines 522-524: the handler of [except Exception as ex]; it runs only
    when the [try] block raised. *)
Definition except_handler (exc : option exn) : M unit :=
  match exc with
  | Some ex =>
      fun st =>
        (Return tt,
         add_log (Log INFO "{0!s}")
           (add_log (LogExc ERROR "Error contacting radius Server: {0!r}" ex)
                    st))
  | None => mret tt
  end.

(** Lines 398-529. *)
Definition check_radius (w : World) (tok : Token) (otpval : pyobj)
    (options : option nat) (radius_state : value) : M value :=
  opts ← options_or_empty options;
  authstate ← dict_get opts "radius_state";
  if py_eq authstate (VStr "<SUCCESS>") then
    dict_update opts "radius_state" VNone;;
    dict_update opts "radius_message" VNone;;
    mret (VInt 0)
  else if py_eq authstate (VStr "<REJECTED>") then
    dict_update opts "radius_state" VNone;;
    dict_update opts "radius_message" VNone;;
    mret (VInt (-1))
  else
    cfg ← lift (resolve_server w tok);
    otp ← lift (py_len otpval);
    logger DEBUG "checking OTP len:{0!s} on radius server: {1!s}, user: {2!r}";;
    '(exc, lc) ← radius_try w tok otp opts cfg
                   {| l_result := -1; l_state := radius_state;
                      l_message := VNone |};
    except_handler exc;;
    dict_update opts "radius_result" (VInt (l_result lc));;
    dict_update opts "radius_state" (l_state lc);;
    dict_update opts "radius_message" (l_message lc);;
    mret (VInt (l_result lc)).

(** ** The token methods *)

(** Lines 316-326: the property [check_pin_local]. *)
Definition check_pin_local (w : World) (tok : Token) : M bool :=
  let local_check := is_true w (get_tokeninfo tok "radius.local_checkpin") in
  logger DEBUG "local checking pin? {0!r}";;
  mret local_check.

(** Lines 328-340: [split_pin_pass(self, passw, user=None, options=None)].
    The call on line 338 is [self.split_pin_pass(self, passw)]: the method
    itself, with the token object as [passw] and the former [passw] as
    [user].  [depth] is the number of stack frames still available; Python
    raises [RecursionError] when none is left. *)
Fixpoint split_pin_pass_rec (depth : nat) (w : World) (tok : Token)
    (passw user : pyobj) : M (Z * pyobj * pyobj) :=
  match depth with
  | O => raise RecursionError
  | S d =>
      let res := 0 in
      let pin := OStr "" in
      let otpval := passw in
      local ← check_pin_local w tok;
      if local : bool then
        '(res, pin, otpval) ← split_pin_pass_rec d w tok OSelf passw;
        mret (res, pin, otpval)
      else mret (res, pin, otpval)
  end.

Definition split_pin_pass (w : World) (tok : Token) (passw user : pyobj)
  : M (Z * pyobj * pyobj) :=
  split_pin_pass_rec (recursion_limit w) w tok passw user.

(** [self.check_pin(self, pin)]: the method is inherited from the base
    class, and receives the token object as [pin] and the PIN as [user]. *)
Definition check_pin (w : World) (pin : pyobj) : M bool :=
  lift (base_check_pin w OSelf pin).

Definition reply_of (msg : string) : gmap string value :=
  {[ "message" := VStr msg ]}.

Section Methods.

Variable w : World.
Variable tok : Token.

(** The methods reached through [self]. *)
Variable self_split_pin_pass : pyobj -> pyobj -> M (Z * pyobj * pyobj).
Variable self_check_pin : pyobj -> M bool.

(** Lines 147-181. *)
Definition is_challenge_request_with (passw user : pyobj)
    (options : option nat) : M bool :=
  opts ← options_or_empty options;
  let otpval := passw in
  state ← dict_get opts "radius_state";
  local ← check_pin_local w tok;
  pin_ok ← (if local : bool then
              '(_, pin, otpval) ← self_split_pin_pass passw user;
              self_check_pin pin
            else mret true);
  if negb pin_ok then mret false
  else
    result ← dict_get opts "radius_result";
    res ← (if py_eq result VNone
           then check_radius w tok passw (Some opts) state
           else mret result);
    mret (py_eq res (VInt 1)).

(** Lines 342-390. *)
Definition authenticate_with (passw user : pyobj) (options : option nat)
  : M (bool * value * gmap string value) :=
  opts ← options_or_empty options;
  let otp_counter := VInt (-1) in
  local ← check_pin_local w tok;
  '(pin_ok, otpval) ← (if local : bool then
                         '(_, pin, otpval) ← self_split_pin_pass passw user;
                         ok ← self_check_pin pin;
                         mret (ok, otpval)
                       else mret (true, passw));
  if negb pin_ok then mret (false, otp_counter, reply_of "Wrong PIN")
  else
    state ← dict_get opts "radius_state";
    result ← dict_get opts "radius_result";
    otp_counter ← (if py_eq result VNone
                   then check_radius w tok otpval (Some opts) state
                   else mret result);
    if py_eq otp_counter (VInt 0) then
      mret (true, otp_counter,
            <[ "type" := VStr (tokentype tok) ]>
              (<[ "serial" := VStr (serial tok) ]>
                 (reply_of "matching 1 tokens")))
    else if py_eq otp_counter (VInt 1) then
      mret (false, otp_counter, reply_of "unexpected challenge required")
    else
      mret (false, otp_counter, reply_of "remote side denied access").

End Methods.

Definition is_challenge_request (w : World) (tok : Token)
    (passw user : pyobj) (options : option nat) : M bool :=
  is_challenge_request_with w tok (split_pin_pass w tok) (check_pin w)
                            passw user options.

Definition authenticate (w : World) (tok : Token)
    (passw user : pyobj) (options : option nat)
  : M (bool * value * gmap string value) :=
  authenticate_with w tok (split_pin_pass w tok) (check_pin w)
                    passw user options.

(** Lines 392-396. *)
Definition check_otp (w : World) (tok : Token) (otpval : pyobj)
    (options : option nat) : M bool :=
  res ← check_radius w tok otpval options VNone;
  mret (negb (py_eq res (VInt (-1)))).

(** [options.get('transaction_id')], falling back to [options.get('state')]. *)
Definition fetch_transaction_id (opts : nat) : M value :=
  transaction_id ← dict_get opts "transaction_id";
  if py_eq transaction_id VNone then dict_get opts "state"
  else mret transaction_id.

(** Lines 248-261: the loop of [is_challenge_response]. *)
Fixpoint icr_loop (w : World) (tok : Token) (otpval : pyobj) (opts : nat)
    (cs : list (nat * Challenge)) (challenge_response : bool) : M bool :=
  match cs with
  | [] => mret challenge_response
  | (id, c) :: cs' =>
      if ch_valid c then
        let state := ch_data c in
        res ← check_radius w tok otpval (Some opts) state;
        if negb (py_eq res (VInt 1)) then
          icr_loop w tok otpval opts cs' true
        else
          challenge_delete id;;
          challenge_janitor tok;;
          icr_loop w tok otpval opts cs' challenge_response
      else icr_loop w tok otpval opts cs' challenge_response
  end.

(** Lines 212-263. *)
Definition is_challenge_response (w : World) (tok : Token)
    (passw user : pyobj) (options : option nat) : M bool :=
  opts ← options_or_empty options;
  let otpval := passw in
  let challenge_response := false in
  dict_update opts "radius_result" VNone;;
  transaction_id ← fetch_transaction_id opts;
  if truthy transaction_id then
    challengeobject_list ← get_challenges (serial tok) transaction_id;
    icr_loop w tok otpval opts challengeobject_list challenge_response
  else mret challenge_response.

(** Lines 297-311: the loop of [check_challenge_response]; on the first
    accepted candidate it deletes the record and breaks. *)
Fixpoint ccr_loop (w : World) (tok : Token) (passw : pyobj) (opts : nat)
    (cs : list (nat * Challenge)) (otp_counter : value) : M value :=
  match cs with
  | [] => mret otp_counter
  | (id, c) :: cs' =>
      if ch_valid c then
        let state := ch_data c in
        otp_counter ← check_radius w tok passw (Some opts) state;
        if py_eq otp_counter (VInt 0) then
          challenge_delete id;;
          mret otp_counter
        else
          let otp_counter := VInt (-1) in
          set_otp_status id;;
          ccr_loop w tok passw opts cs' otp_counter
      else ccr_loop w tok passw opts cs' otp_counter
  end.

(** Lines 265-314. *)
Definition check_challenge_response (w : World) (tok : Token)
    (user passw : pyobj) (options : option nat) : M value :=
  opts ← options_or_empty options;
  let otp_counter := VInt (-1) in
  transaction_id ← fetch_transaction_id opts;
  otp_counter ← (if negb (py_eq transaction_id VNone) then
                   challengeobject_list ←
                     get_challenges (serial tok) transaction_id;
                   ccr_loop w tok passw opts challengeobject_list otp_counter
                 else mret otp_counter);
  challenge_janitor tok;;
  mret otp_counter.

(** ** Auxiliary definitions for the statements *)

(** The log after the handler of [check_radius] ran (lines 522-524). *)
Definition logged (exc : option exn) (st : State) : State :=
  match exc with
  | Some ex =>
      add_log (Log INFO "{0!s}")
        (add_log (LogExc ERROR "Error contacting radius Server: {0!r}" ex) st)
  | None => st
  end.

(** The dictionary after lines 526-528. *)
Definition written (lc : locals) (d : gmap string value) : gmap string value :=
  <["radius_message" := l_message lc]>
    (<["radius_state" := l_state lc]>
       (<["radius_result" := VInt (l_result lc)]> d)).

(** The state in which the [try] block of [check_radius] starts. *)
Definition at_try (st : State) : State :=
  add_log
    (Log DEBUG "checking OTP len:{0!s} on radius server: {1!s}, user: {2!r}")
    st.

(** The locals with which the [try] block of [check_radius] starts. *)
Definition initial_locals (radius_state : value) : locals :=
  {| l_result := -1; l_state := radius_state; l_message := VNone |}.

(** The context holds one of the two sentinels. *)
Definition sentinel (d : gmap string value) : bool :=
  orb (py_eq (default VNone (d !! "radius_state")) (VStr "<SUCCESS>"))
      (py_eq (default VNone (d !! "radius_state")) (VStr "<REJECTED>")).

(** The triple [authenticate] builds from a verdict (lines 380-390). *)
Definition answer_of (tok : Token) (otp_counter : value)
  : bool * value * gmap string value :=
  if py_eq otp_counter (VInt 0) then
    (true, otp_counter,
     <[ "type" := VStr (tokentype tok) ]>
       (<[ "serial" := VStr (serial tok) ]> (reply_of "matching 1 tokens")))
  else if py_eq otp_counter (VInt 1) then
    (false, otp_counter, reply_of "unexpected challenge required")
  else (false, otp_counter, reply_of "remote side denied access").

(** Local-PIN mode of a token. *)
Definition local_pin_mode (w : World) (tok : Token) : bool :=
  is_true w (get_tokeninfo tok "radius.local_checkpin").

(** The transaction id the two response methods work with:
    [options.get('transaction_id')], else [options.get('state')]. *)
Definition transaction_of (d : gmap string value) : value :=
  if py_eq (default VNone (d !! "transaction_id")) VNone
  then default VNone (d !! "state")
  else default VNone (d !! "transaction_id").

(** The challenge objects [get_challenges] returns in a state. *)
Definition candidates (tok : Token) (tx : value) (st : State)
  : list (nat * Challenge) :=
  filter (challenge_matches (serial tok) tx) (map_to_list (challenges st)).

(** The state after [challengeobject.delete()]. *)
Definition deleted (id : nat) (st : State) : State :=
  set_challenges (delete id (challenges st)) st.

(** The state after [challengeobject.set_otp_status()]. *)
Definition counted (id : nat) (st : State) : State :=
  set_challenges (alter bump id (challenges st)) st.

(** The state after [self.challenge_janitor()]. *)
Definition swept (tok : Token) (st : State) : State :=
  add_sweep
    (set_challenges
       (filter (fun p : nat * Challenge => expired_of (serial tok) p.2 = false)
               (challenges st)) st).

(** The state after line 236 of [is_challenge_response]:
    [options.update({'radius_result': None})]. *)
Definition entered (l : nat) (d : gmap string value) (st : State) : State :=
  set_heap (<[l := <["radius_result" := VNone]> d]> (heap st)) st.

(** A method body relates the state it starts in to the state it ends in
    by [P], whatever its outcome. *)
Definition preserves {A} (P : State -> State -> Prop) (m : M A) : Prop :=
  forall st r st', m st = (r, st') -> P st st'.

(** Same challenge table and same number of sweeps. *)
Definition same_store (st st' : State) : Prop :=
  challenges st' = challenges st /\ sweeps st' = sweeps st.

(** Same store and same dictionary objects. *)
Definition same_heap (st st' : State) : Prop :=
  heap st' = heap st /\ same_store st st'.

(** Nothing changed except possibly the log. *)
Definition same_but_log (st st' : State) : Prop :=
  sent st' = sent st /\ same_heap st st'.

(** ** A concrete installation, for the examples *)

Module Example.

(** A token with its own server settings; the stored key is the hex
    form of ["secret"]. *)
Definition tok : Token :=
  {| serial := "PIRA0001"; tokentype := "radius";
     tokeninfo := <["radius.server" := "10.0.0.1:1812"]>
                    (<["radius.user" := "alice"]> ∅);
     otpkey := "736563726574" |}.

(** The same token with the PIN checked locally. *)
Definition tok_local : Token :=
  {| serial := "PIRA0001"; tokentype := "radius";
     tokeninfo := <["radius.local_checkpin" := "1"]> (tokeninfo tok);
     otpkey := "736563726574" |}.

(** A system with an empty configuration and no named servers, in front
    of the network [net].  The examples hold ASCII text only, so
    [int_beyond] is never consulted. *)
Definition world (net : nat -> AuthRequest -> result Response) : World :=
  {| is_true := fun o => bool_decide (o = Some "1");
     sysconfig := ∅;
     get_radius := fun _ => Raise (LibraryError "no such RADIUS server");
     base_check_pin := fun _ _ => Return false;
     recursion_limit := 1000;
     Dictionary := fun _ => None;
     CreateAuthPacket := fun _ _ => None;
     to_unicode := fun _ => None;
     PwCrypt := fun _ _ => None;
     SetAttribute := fun _ _ => None;
     SendPacket := net;
     int_beyond := fun _ =>
       Raise (ValueError "invalid literal for int() with base 10") |}.

Definition reply_accept : Response :=
  {| code := AccessAccept; attrs := ∅ |}.

Definition reply_reject : Response :=
  {| code := AccessReject; attrs := ∅ |}.

Definition reply_challenge : Response :=
  {| code := AccessChallenge;
     attrs := <["Reply-Message" := [VStr "Enter next code"]]>
                (<["State" := [VStr "S1"]]> ∅) |}.

(** An Access-Challenge that carries a State but no Reply-Message. *)
Definition reply_challenge_bare : Response :=
  {| code := AccessChallenge; attrs := <["State" := [VStr "S1"]]> ∅ |}.

Definition net_always (r : Response) (n : nat) (req : AuthRequest)
  : result Response := Return r.

(** An unreachable server. *)
Definition net_timeout (n : nat) (req : AuthRequest) : result Response :=
  Raise (LibraryError "pyrad.client.Timeout").

(** The first request times out, the following ones are challenged. *)
Definition net_timeout_then_challenge (n : nat) (req : AuthRequest)
  : result Response :=
  match n with
  | O => Raise (LibraryError "pyrad.client.Timeout")
  | S _ => Return reply_challenge
  end.

Definition state_of (d : gmap string value) (tbl : gmap nat Challenge)
  : State :=
  {| heap := [d]; challenges := tbl; sent := []; sweeps := 0; log := [] |}.

(** A request context as the API layer passes it. *)
Definition ctx : gmap string value := {[ "clientip" := VStr "192.0.2.7" ]}.

(** The context right after a challenge reply was processed. *)
Definition ctx_challenged : gmap string value :=
  <["radius_message" := VStr "Enter next code"]>
    (<["radius_state" := VStr "S1"]>
       (<["radius_result" := VInt 1]> ctx)).

(** A context whose cached state is the success sentinel and whose
    cached verdict was reset. *)
Definition ctx_success : gmap string value :=
  <["radius_state" := VStr "<SUCCESS>"]>
    (<["radius_result" := VNone]> ctx).

(** The context of a response to transaction ["tx1"]. *)
Definition ctx_response : gmap string value :=
  <["transaction_id" := VStr "tx1"]> ctx.

Definition challenge_of (data : string) : Challenge :=
  {| ch_serial := "PIRA0001"; ch_transaction_id := "tx1";
     ch_data := VStr data; ch_challenge := "Enter your RADIUS tokencode:";
     ch_valid := true; ch_received_count := 0 |}.

Definition one_challenge : gmap nat Challenge :=
  {[ 1%nat := challenge_of "S0" ]}.

Definition two_challenges : gmap nat Challenge :=
  <[ 2%nat := challenge_of "S0b" ]> one_challenge.

(** Working stand-ins for the base-class methods the code means to call:
    the first four characters are the PIN. *)
Definition base_split (passw user : pyobj) : M (Z * pyobj * pyobj) :=
  match passw with
  | OStr s => mret (1, OStr (substring 0 4 s),
                       OStr (substring 4 (String.length s - 4) s))
  | _ => raise (TypeError "passw")
  end.

Definition pin_is (good : string) (pin : pyobj) : M bool :=
  mret (bool_decide (pin = OStr good)).

End Example.

(** ** [create_challenge] *)

(** Modelled from the spec: the constructor of
    [privacyidea.models.Challenge].  A transaction id that is missing is
    generated by the class ([generated]); a record created with a positive
    validity time is valid for the duration of the call. *)
Definition new_challenge (ser generated : string) (transactionid data message : value)
    (validity : Z) : Challenge :=
  {| ch_serial := ser;
     ch_transaction_id :=
       if truthy transactionid then py_str transactionid else generated;
     ch_data := data;
     ch_challenge := py_str message;
     ch_valid := Z.ltb 0 validity;
     ch_received_count := 0 |}.

(** Modelled from the spec: [db_challenge.save()], which adds the record
    to the store under a new row id. *)
Definition challenge_save (c : Challenge) : M unit :=
  fun st =>
    (Return tt,
     set_challenges (<[fresh (dom (challenges st)) := c]> (challenges st)) st).

(** [int(get_from_config('DefaultChallengeValidityTime', 120))] *)
Definition challenge_validity (w : World) : result Z :=
  match get_from_config w "DefaultChallengeValidityTime" with
  | Some s => py_int w s
  | None => Return 120
  end.

(** Lines 183-210. *)
Definition create_challenge (w : World) (tok : Token) (generated : string)
    (transactionid : value) (options : option nat)
  : M (bool * value * string * gmap string value) :=
  opts ← options_or_empty options;
  radius_message ← dict_get opts "radius_message";
  let message :=
    if truthy radius_message then radius_message
    else VStr "Enter your RADIUS tokencode:" in
  state ← dict_get opts "radius_state";
  let attributes : gmap string value := {[ "state" := transactionid ]} in
  validity ← lift (challenge_validity w);
  let db_challenge :=
    new_challenge (serial tok) generated transactionid state message validity in
  challenge_save db_challenge;;
  challenge_janitor tok;;
  mret (true, message, ch_transaction_id db_challenge, attributes).

(** ** [update] *)

(** The values of the enrollment parameters. *)
Inductive param_value :=
| PNone
| PBool (b : bool)
| PInt (z : Z)
| PStr (s : string).

(** [bool(v)] *)
Definition p_truthy (v : param_value) : bool :=
  match v with
  | PNone => false
  | PBool b => b
  | PInt z => negb (Z.eqb z 0)
  | PStr s => negb (String.eqb s "")
  end.

(** The calls [update] makes on the token object, in order. *)
Inductive token_op :=
| AddTokeninfo (key : string) (v : param_value)
| SetOtpkey (v : param_value)
| SetOtplen (n : Z).

Inductive enroll_exn :=
| ParameterError (msg : string) (id : Z)
| ArgumentCountError (msg : string)
| CollaboratorError (what : string).

(** What [update] uses from other modules: [getParam(param, key,
    optional, default)] of [privacyidea.api.lib.utils],
    [hexlify_and_unicode] of [privacyidea.lib.utils] and the constant
    [TOKENKIND.VIRTUAL]. *)
Record Enrollment := {
  getParam : gmap string param_value -> string -> bool -> param_value
             -> param_value + enroll_exn;
  hexlify_and_unicode : param_value -> param_value + enroll_exn;
  TOKENKIND_VIRTUAL : param_value
}.

(** Method bodies that act on the token object: the calls made so far
    (newest first) and an exception, if any. *)
Definition U (A : Type) : Type :=
  list token_op -> (A + enroll_exn) * list token_op.

#[global] Instance U_ret : MRet U := fun A a ops => (inl a, ops).

#[global] Instance U_bind : MBind U := fun A B f m ops =>
  match m ops with
  | (inl a, ops') => f a ops'
  | (inr e, ops') => (inr e, ops')
  end.

Definition u_raise {A} (e : enroll_exn) : U A := fun ops => (inr e, ops).

Definition u_lift {A} (r : A + enroll_exn) : U A := fun ops => (r, ops).

Definition token_call (op : token_op) : U unit :=
  fun ops => (inl tt, op :: ops).

(** Line 139, [self.update(self, param)]: the method takes [param] only,
    so the call with two arguments raises [TypeError] before the body is
    entered again. *)
Definition update_self_call : U unit :=
  u_raise (ArgumentCountError
             "update() takes 2 positional arguments but 3 were given").

(** Lines 117-145. *)
Definition update (api : Enrollment) (param : gmap string param_value)
  : U unit :=
  radius_identifier ← u_lift (getParam api param "radius.identifier" true PNone);
  token_call (AddTokeninfo "radius.identifier" radius_identifier);;
  (if negb (p_truthy radius_identifier) then
     radiusServer ← u_lift (getParam api param "radius.server" false PNone);
     token_call (AddTokeninfo "radius.server" radiusServer);;
     radius_secret ← u_lift (getParam api param "radius.secret" false PNone);
     key ← u_lift (hexlify_and_unicode api radius_secret);
     token_call (SetOtpkey key);;
     system_settings ←
       u_lift (getParam api param "radius.system_settings" true (PBool false));
     token_call (AddTokeninfo "radius.system_settings" system_settings);;
     if andb (negb (orb (p_truthy radiusServer) (p_truthy radius_secret)))
             (negb (p_truthy system_settings))
     then u_raise (ParameterError "Missing parameter: radius.identifier" 905)
     else mret tt
   else mret tt);;
  token_call (SetOtplen 6);;
  update_self_call;;
  val ← u_lift (getParam api param "radius.local_checkpin" true PNone);
  let val := if p_truthy val then val else PInt 0 in
  token_call (AddTokeninfo "radius.local_checkpin" val);;
  val ← u_lift (getParam api param "radius.user" false PNone);
  token_call (AddTokeninfo "radius.user" val);;
  token_call (AddTokeninfo "tokenkind" (TOKENKIND_VIRTUAL api)).

(** ** [get_class_info] *)

(** The values of the token definition: strings, lists of strings and
    dictionaries, the latter given by their items. *)
Inductive info :=
| IStr (s : string)
| IList (l : list string)
| IDict (d : items)
with items :=
| INil
| ICons (key : string) (v : info) (d : items).

(** [d.get(key, default)] *)
Fixpoint items_get (d : items) (key : string) (dflt : info) : info :=
  match d with
  | INil => dflt
  | ICons k v d' => if String.eqb k key then v else items_get d' key dflt
  end.

(** Lines 99-107; [tr] is the translation function [_]. *)
Definition class_info (tr : string -> string) : items :=
  ICons "type" (IStr "radius")
    (ICons "title" (IStr "RADIUS Token")
       (ICons "description"
          (IStr (tr "RADIUS: Forward authentication request to a RADIUS server."))
          (ICons "user" (IList ["enroll"])
             (ICons "ui_enroll" (IList ["admin"; "user"])
                (ICons "policy" (IDict INil) INil))))).

(** [ret == 'all'] *)
Definition is_all (ret : info) : bool :=
  match ret with
  | IStr s => String.eqb s "all"
  | _ => false
  end.

(** Lines 86-115; a missing [key] is [None]. *)
Definition get_class_info (tr : string -> string) (key : option string)
    (ret : info) : info :=
  let res := class_info tr in
  if truthy (of_opt key) then
    items_get res (default "" key) (IDict INil)
  else if is_all ret then IDict res
  else ret.

(** ** The server address *)

(** The string holds no colon. *)
Fixpoint colon_free (s : string) : bool :=
  match s with
  | EmptyString => true
  | String c s' => andb (negb (Ascii.eqb c ":")) (colon_free s')
  end.

(** * Properties *)

(** ** Reasoning about method bodies *)

Lemma bind_eq {A B} (m : M A) (f : A -> M B) (st : State) :
  (m ≫= f) st =
  match m st with
  | (Return a, st') => f a st'
  | (Raise e, st') => (Raise e, st')
  end.
Proof. reflexivity. Qed.

Lemma bind_return {A B} (m : M A) (f : A -> M B) st a st' :
  m st = (Return a, st') -> (m ≫= f) st = f a st'.
Proof. intros H. rewrite bind_eq, H. reflexivity. Qed.

Lemma bind_raise {A B} (m : M A) (f : A -> M B) st e st' :
  m st = (Raise e, st') -> (m ≫= f) st = (Raise e, st').
Proof. intros H. rewrite bind_eq, H. reflexivity. Qed.

Lemma deref_lookup h l d : h !! l = Some d -> deref h l = d.
Proof. unfold deref. intros ->. reflexivity. Qed.

Lemma options_or_empty_alias st l d :
  heap st !! l = Some d -> d ≠ ∅ ->
  options_or_empty (Some l) st = (Return l, st).
Proof.
  intros Hl Hd. unfold options_or_empty.
  rewrite (deref_lookup _ _ _ Hl).
  rewrite bool_decide_eq_false_2 by exact Hd. reflexivity.
Qed.

Lemma lookup_nonempty (d : gmap string value) k v : d !! k = Some v -> d ≠ ∅.
Proof. intros H ->. rewrite lookup_empty in H. discriminate. Qed.

Lemma dict_get_lookup st l d k :
  heap st !! l = Some d ->
  dict_get l k st = (Return (default VNone (d !! k)), st).
Proof. intros Hl. unfold dict_get. rewrite (deref_lookup _ _ _ Hl). reflexivity. Qed.

Lemma dict_update_lookup st l d k v :
  heap st !! l = Some d ->
  dict_update l k v st = (Return tt, set_heap (<[l := <[k := v]> d]> (heap st)) st).
Proof. intros Hl. unfold dict_update. rewrite (deref_lookup _ _ _ Hl). reflexivity. Qed.

Lemma heap_insert_lookup st l (d d' : gmap string value) :
  heap st !! l = Some d ->
  heap (set_heap (<[l := d']> (heap st)) st) !! l = Some d'.
Proof.
  intros Hl. simpl. apply list_lookup_insert_eq.
  eapply lookup_lt_Some; eauto.
Qed.

(** The two fast paths of [check_radius] (lines 414-423), as one
    equation. *)
Lemma check_radius_fast w tok otpval rs st l d (accept : bool) :
  heap st !! l = Some d ->
  d !! "radius_state"
    = Some (VStr (if accept then "<SUCCESS>" else "<REJECTED>")) ->
  check_radius w tok otpval (Some l) rs st
  = (Return (VInt (if accept then 0 else -1)),
     set_heap (<[l := <["radius_message" := VNone]>
                         (<["radius_state" := VNone]> d)]> (heap st)) st).
Proof.
  intros Hl Hs. unfold check_radius.
  rewrite (bind_return _ _ _ _ _ (options_or_empty_alias _ _ _ Hl (lookup_nonempty _ _ _ Hs))).
  rewrite (bind_return _ _ _ _ _ (dict_get_lookup _ _ _ _ Hl)).
  rewrite Hs. simpl default.
  assert (Hupd : forall v : Z,
    (dict_update l "radius_state" VNone;;
     dict_update l "radius_message" VNone;; mret (VInt v)) st
    = (Return (VInt v),
       set_heap (<[l := <["radius_message" := VNone]>
                           (<["radius_state" := VNone]> d)]> (heap st)) st)).
  { intros v.
    rewrite (bind_return _ _ _ _ _ (dict_update_lookup _ _ _ _ _ Hl)).
    rewrite (bind_return _ _ _ _ _
               (dict_update_lookup _ _ _ _ _ (heap_insert_lookup _ _ _ _ Hl))).
    simpl. rewrite list_insert_insert_eq. reflexivity. }
  destruct accept.
  - replace (py_eq (VStr "<SUCCESS>") (VStr "<SUCCESS>")) with true by reflexivity.
    apply Hupd.
  - replace (py_eq (VStr "<REJECTED>") (VStr "<SUCCESS>")) with false by reflexivity.
    replace (py_eq (VStr "<REJECTED>") (VStr "<REJECTED>")) with true by reflexivity.
    apply Hupd.
Qed.

(** C2. Given an attempt context whose [radius_state] is the sentinel
    ["<SUCCESS>"] (resp. ["<REJECTED>"]), [check_radius] returns 0
    (resp. -1), sets the context's [radius_state] and [radius_message] to
    [None] and touches nothing else: in particular no packet is sent, and
    neither the OTP value, the saved state nor the token or its server
    settings play any role. *)
Theorem check_radius_sentinel w tok otpval rs st l d (accept : bool) :
  heap st !! l = Some d ->
  d !! "radius_state"
    = Some (VStr (if accept then "<SUCCESS>" else "<REJECTED>")) ->
  exists st',
    check_radius w tok otpval (Some l) rs st
      = (Return (VInt (if accept then 0 else -1)), st')
    /\ sent st' = sent st
    /\ challenges st' = challenges st
    /\ log st' = log st
    /\ heap st' = <[l := <["radius_message" := VNone]>
                           (<["radius_state" := VNone]> d)]> (heap st)
    /\ deref (heap st') l !! "radius_state" = Some VNone
    /\ deref (heap st') l !! "radius_message" = Some VNone.
Proof.
  intros Hl Hs. eexists. split; [apply check_radius_fast; eassumption|].
  repeat split; try reflexivity.
  - rewrite (deref_lookup _ _ _ (heap_insert_lookup _ _ _ _ Hl)).
    rewrite lookup_insert_ne by discriminate. apply lookup_insert_eq.
  - rewrite (deref_lookup _ _ _ (heap_insert_lookup _ _ _ _ Hl)).
    apply lookup_insert_eq.
Qed.

Lemma check_radius_sentinel_witness :
  exists st',
    check_radius (Example.world Example.net_timeout) Example.tok
      (OStr "123456") (Some 0%nat) (VStr "S1")
      (Example.state_of Example.ctx_success ∅) = (Return (VInt 0), st')
    /\ sent st' = sent (Example.state_of Example.ctx_success ∅)
    /\ challenges st' = challenges (Example.state_of Example.ctx_success ∅)
    /\ log st' = log (Example.state_of Example.ctx_success ∅)
    /\ heap st' = <[0%nat := <["radius_message" := VNone]>
                               (<["radius_state" := VNone]> Example.ctx_success)]>
                    (heap (Example.state_of Example.ctx_success ∅))
    /\ deref (heap st') 0%nat !! "radius_state" = Some VNone
    /\ deref (heap st') 0%nat !! "radius_message" = Some VNone.
Proof.
  apply (check_radius_sentinel (Example.world Example.net_timeout) Example.tok
           (OStr "123456") (VStr "S1") (Example.state_of Example.ctx_success ∅)
           0%nat Example.ctx_success true).
  - reflexivity.
  - vm_compute. reflexivity.
Defined.

(** ** What a method body leaves untouched *)

Section Preserves.

Context (P : State -> State -> Prop) `{!PreOrder P}.

Lemma preserves_ret {A} (a : A) : preserves P (mret a).
Proof. intros st r st' [= <- <-]. reflexivity. Qed.

Lemma preserves_raise {A} (e : exn) : preserves P (@raise A e).
Proof. intros st r st' [= <- <-]. reflexivity. Qed.

Lemma preserves_lift {A} (x : result A) : preserves P (lift x).
Proof. intros st r st' [= <- <-]. reflexivity. Qed.

Lemma preserves_lift_exn (o : option exn) : preserves P (lift_exn o).
Proof. intros st r st' H. destruct o; injection H as <- <-; reflexivity. Qed.

Lemma preserves_bind {A B} (m : M A) (f : A -> M B) :
  preserves P m -> (forall a, preserves P (f a)) -> preserves P (m ≫= f).
Proof.
  intros Hm Hf st r st' H. rewrite bind_eq in H.
  destruct (m st) as [[a|e] st1] eqn:E.
  - etransitivity; [eapply Hm; eassumption | eapply Hf; eassumption].
  - injection H as <- <-. eapply Hm; eassumption.
Qed.

Lemma preserves_dict_get l k : preserves P (dict_get l k).
Proof. intros st r st' [= <- <-]. reflexivity. Qed.

Lemma preserves_dict_has l k : preserves P (dict_has l k).
Proof. intros st r st' [= <- <-]. reflexivity. Qed.

Lemma preserves_get_challenges s tx : preserves P (get_challenges s tx).
Proof. intros st r st' [= <- <-]. reflexivity. Qed.

End Preserves.

#[global] Instance same_store_preorder : PreOrder same_store.
Proof.
  split.
  - intros st. split; reflexivity.
  - intros a b c [H1 H2] [H3 H4]. split; congruence.
Qed.

#[global] Instance same_heap_preorder : PreOrder same_heap.
Proof.
  split.
  - intros st. split; reflexivity.
  - intros a b c [H1 H2] [H3 H4]. split; [congruence | etransitivity; eassumption].
Qed.

#[global] Instance same_but_log_preorder : PreOrder same_but_log.
Proof.
  split.
  - intros st. split; reflexivity.
  - intros a b c [H1 H2] [H3 H4]. split; [congruence | etransitivity; eassumption].
Qed.

Lemma preserves_logger l msg : preserves same_but_log (logger l msg).
Proof. intros st r st' [= <- <-]. repeat split. Qed.

Lemma preserves_weaken {A} (P Q : State -> State -> Prop) (m : M A) :
  (forall st st', P st st' -> Q st st') -> preserves P m -> preserves Q m.
Proof. intros HPQ Hm st r st' H. apply HPQ. eapply Hm; eassumption. Qed.

Lemma same_but_log_heap st st' : same_but_log st st' -> same_heap st st'.
Proof. intros [_ H]; exact H. Qed.

Lemma same_heap_store st st' : same_heap st st' -> same_store st st'.
Proof. intros [_ H]; exact H. Qed.

Ltac preserves_step :=
  first
    [ apply preserves_ret; solve [typeclasses eauto]
    | apply preserves_raise; solve [typeclasses eauto]
    | apply preserves_lift; solve [typeclasses eauto]
    | apply preserves_lift_exn; solve [typeclasses eauto]
    | apply preserves_dict_get; solve [typeclasses eauto]
    | apply preserves_dict_has; solve [typeclasses eauto]
    | apply preserves_logger
    | apply preserves_bind; [typeclasses eauto | | intros ?] ].

Lemma preserves_build_request w tok otp opts cfg rs :
  preserves same_but_log (build_request w tok otp opts cfg rs).
Proof.
  unfold build_request. destruct cfg as [[srv sec] dic].
  repeat first
    [ preserves_step
    | match goal with
      | |- preserves _ (match ?x with _ => _ end) => destruct x
      | |- preserves _ (if ?x then _ else _) => destruct x
      | |- preserves _ (let '(_, _) := ?x in _) => destruct x
      end ].
Qed.

Lemma preserves_send w req : preserves same_heap (send w req).
Proof. intros st r st' [= <- <-]. repeat split. Qed.

Lemma preserves_challenge_branch opt lc :
  preserves same_but_log (challenge_branch opt lc).
Proof.
  unfold challenge_branch.
  repeat first
    [ preserves_step
    | match goal with
      | |- preserves _ (match ?x with _ => _ end) => destruct x
      end ].
Qed.

Lemma preserves_handle_response resp lc :
  preserves same_but_log (handle_response resp lc).
Proof.
  unfold handle_response.
  destruct (code resp =? AccessChallenge);
    [apply preserves_challenge_branch|].
  destruct (code resp =? AccessAccept); repeat preserves_step.
Qed.

Lemma preserves_radius_try w tok otp opts cfg lc :
  preserves same_heap (radius_try w tok otp opts cfg lc).
Proof.
  intros st r st' H. unfold radius_try in H.
  match type of H with
  | match ?m st with _ => _ end = _ =>
      assert (Hm : preserves same_heap m); [| destruct (m st) as [[resp|e] st1] eqn:E]
  end.
  - apply preserves_bind; [typeclasses eauto | | intros ?; apply preserves_send].
    eapply preserves_weaken; [apply same_but_log_heap | apply preserves_build_request].
  - etransitivity; [eapply Hm; eassumption|].
    apply same_but_log_heap. eapply preserves_handle_response; eassumption.
  - injection H as <- <-. eapply Hm; eassumption.
Qed.

(** The [try] block never lets an exception escape. *)
Lemma radius_try_returns w tok otp opts cfg lc st :
  exists exc lc' st',
    radius_try w tok otp opts cfg lc st = (Return (exc, lc'), st').
Proof.
  unfold radius_try.
  match goal with
  | |- context [match ?m st with _ => _ end] => destruct (m st) as [[resp|e] st1]
  end; [| eauto].
  unfold handle_response.
  destruct (code resp =? AccessChallenge).
  - unfold challenge_branch.
    destruct (attrs resp !! "State") as [[|s0 ss]|];
      destruct (attrs resp !! "Reply-Message") as [[|m0 ms]|];
      rewrite ?bind_eq; simpl; eauto.
  - destruct (code resp =? AccessAccept); rewrite ?bind_eq; simpl; eauto.
Qed.

(** An exception caught by the handler leaves [result] as it was; without
    one, [result] is 1 for [AccessChallenge], 0 for [AccessAccept] and
    unchanged for every other code. *)
Lemma challenge_branch_result opt lc st exc lc' st' :
  challenge_branch opt lc st = (Return (exc, lc'), st') ->
  match exc with
  | Some _ => l_result lc' = l_result lc
  | None => l_result lc' = 1
  end.
Proof.
  unfold challenge_branch.
  destruct (opt !! "State") as [[|s0 ss]|];
    destruct (opt !! "Reply-Message") as [[|m0 ms]|];
    rewrite ?bind_eq; simpl; intros [= <- <- <-]; reflexivity.
Qed.

Lemma handle_response_result resp lc st exc lc' st' :
  handle_response resp lc st = (Return (exc, lc'), st') ->
  match exc with
  | Some _ => l_result lc' = l_result lc
  | None =>
      l_result lc' =
        if code resp =? AccessChallenge then 1
        else if code resp =? AccessAccept then 0
        else l_result lc
  end.
Proof.
  unfold handle_response.
  destruct (code resp =? AccessChallenge).
  - apply challenge_branch_result.
  - destruct (code resp =? AccessAccept);
      rewrite ?bind_eq; simpl; intros [= <- <- <-]; reflexivity.
Qed.

Lemma radius_try_exception w tok otp opts cfg lc st e lc' st' :
  radius_try w tok otp opts cfg lc st = (Return (Some e, lc'), st') ->
  l_result lc' = l_result lc.
Proof.
  unfold radius_try.
  match goal with
  | |- context [match ?m st with _ => _ end] => destruct (m st) as [[resp|e0] st1]
  end.
  - intros H. apply (handle_response_result _ _ _ _ _ _ H).
  - intros [= <- <- <-]. reflexivity.
Qed.

(** ** The network path of [check_radius] *)

Lemma sentinel_false d :
  sentinel d = false ->
  py_eq (default VNone (d !! "radius_state")) (VStr "<SUCCESS>") = false
  /\ py_eq (default VNone (d !! "radius_state")) (VStr "<REJECTED>") = false.
Proof. unfold sentinel. intros H. apply orb_false_elim in H. exact H. Qed.

Lemma lift_bind {A B} (a : A) (f : A -> M B) st :
  (lift (Return a) ≫= f) st = f a st.
Proof. reflexivity. Qed.

Lemma lift_raise_bind {A B} (e : exn) (f : A -> M B) st :
  (lift (Raise e) ≫= f) st = (Raise e, st).
Proof. reflexivity. Qed.

Lemma logger_bind {B} l msg (f : unit -> M B) st :
  (logger l msg ≫= f) st = f tt (add_log (Log l msg) st).
Proof. reflexivity. Qed.

(** Lines 425-529 as one equation: once the sentinels are excluded and the
    server settings resolved, the outcome is the [result] local left by the
    [try] block, written to the dictionary together with the state and the
    message. *)
Lemma check_radius_slow w tok otpval options rs st opts st0 d cfg otp exc lc st3 :
  options_or_empty options st = (Return opts, st0) ->
  heap st0 !! opts = Some d ->
  sentinel d = false ->
  resolve_server w tok = Return cfg ->
  py_len otpval = Return otp ->
  radius_try w tok otp opts cfg (initial_locals rs) (at_try st0)
    = (Return (exc, lc), st3) ->
  check_radius w tok otpval options rs st
  = (Return (VInt (l_result lc)),
     set_heap (<[opts := written lc d]> (heap st3)) (logged exc st3)).
Proof.
  intros Ho Hl Hs Hr Hp Ht. unfold check_radius.
  rewrite (bind_return _ _ _ _ _ Ho).
  rewrite (bind_return _ _ _ _ _ (dict_get_lookup _ _ _ _ Hl)).
  destruct (sentinel_false _ Hs) as [-> ->].
  rewrite Hr, Hp, !lift_bind, logger_bind.
  fold (at_try st0). fold (initial_locals rs).
  rewrite (bind_return _ _ _ _ _ Ht).
  assert (Hh : heap st3 = heap st0).
  { destruct (preserves_radius_try _ _ _ _ _ _ _ _ _ Ht) as [Hh _]. exact Hh. }
  assert (Hl3 : heap (logged exc st3) !! opts = Some d).
  { destruct exc; simpl; rewrite Hh; exact Hl. }
  assert (Hlog : except_handler exc st3 = (Return tt, logged exc st3)).
  { destruct exc; reflexivity. }
  rewrite (bind_return _ _ _ _ _ Hlog).
  rewrite (bind_return _ _ _ _ _ (dict_update_lookup _ _ _ _ _ Hl3)).
  rewrite (bind_return _ _ _ _ _
             (dict_update_lookup _ _ _ _ _ (heap_insert_lookup _ _ _ _ Hl3))).
  erewrite (bind_return _ _ _ _ _).
  2:{ apply dict_update_lookup. simpl.
      rewrite list_insert_insert_eq.
      apply (heap_insert_lookup _ _ _ _ Hl3). }
  simpl. rewrite !list_insert_insert_eq.
  unfold written, set_heap. simpl.
  assert (Hh' : heap (logged exc st3) = heap st3) by (destruct exc; reflexivity).
  rewrite Hh'. reflexivity.
Qed.

(** [options or {}] always yields a dictionary object of the heap. *)
Lemma options_or_empty_spec options st :
  exists opts st0 d,
    options_or_empty options st = (Return opts, st0)
    /\ heap st0 !! opts = Some d
    /\ same_store st st0 /\ sent st0 = sent st /\ log st0 = log st
    /\ (forall l, l ≠ opts -> heap st0 !! l = heap st !! l).
Proof.
  assert (Hfresh : exists opts st0 d,
    (Return (length (heap st)), set_heap (heap st ++ [∅]) st)
      = (Return opts, st0)
    /\ heap st0 !! opts = Some d
    /\ same_store st st0 /\ sent st0 = sent st /\ log st0 = log st
    /\ (forall l, l ≠ opts -> heap st0 !! l = heap st !! l)).
  { exists (length (heap st)), (set_heap (heap st ++ [∅]) st), ∅.
    split; [reflexivity|]. split.
    - simpl. rewrite lookup_app_r by lia. rewrite Nat.sub_diag. reflexivity.
    - repeat split. intros l Hne. simpl.
      destruct (decide (l < length (heap st))%nat).
      + rewrite lookup_app_l by assumption. reflexivity.
      + rewrite lookup_app_r by lia.
        rewrite (lookup_ge_None_2 (heap st)) by lia.
        destruct (l - length (heap st))%nat eqn:E; [lia|].
        reflexivity. }
  unfold options_or_empty. destruct options as [l|]; [|exact Hfresh].
  destruct (bool_decide (deref (heap st) l = ∅)) eqn:E; [exact Hfresh|].
  apply bool_decide_eq_false_1 in E.
  unfold deref in E. destruct (heap st !! l) as [d|] eqn:El; [|done].
  exists l, st, d. repeat split; auto.
Qed.

(** [check_radius] raises only what the resolution of the server settings
    or [len(otpval)] raise, before the [try] block is entered; otherwise it
    returns -1, 0 or 1. *)
Lemma check_radius_outcome w tok otpval options rs st :
  match check_radius w tok otpval options rs st with
  | (Return v, _) => v = VInt (-1) \/ v = VInt 0 \/ v = VInt 1
  | (Raise e, _) => resolve_server w tok = Raise e \/ py_len otpval = Raise e
  end.
Proof.
  destruct (options_or_empty_spec options st)
    as (opts & st0 & d & Ho & Hl & _).
  destruct (sentinel d) eqn:Hs.
  - unfold check_radius.
    rewrite (bind_return _ _ _ _ _ Ho).
    rewrite (bind_return _ _ _ _ _ (dict_get_lookup _ _ _ _ Hl)).
    unfold sentinel in Hs.
    destruct (py_eq (default VNone (d !! "radius_state")) (VStr "<SUCCESS>")).
    + rewrite !bind_eq. simpl. auto.
    + simpl in Hs. rewrite Hs. rewrite !bind_eq. simpl. auto.
  - destruct (resolve_server w tok) as [cfg|e] eqn:Hr.
    + destruct (py_len otpval) as [otp|e] eqn:Hp.
      * destruct (radius_try_returns w tok otp opts cfg (initial_locals rs)
                    (at_try st0)) as (exc & lc & st3 & Ht).
        rewrite (check_radius_slow _ _ _ _ _ _ _ _ _ _ _ _ _ _
                   Ho Hl Hs Hr Hp Ht).
        destruct exc as [e|].
        -- rewrite (radius_try_exception _ _ _ _ _ _ _ _ _ _ Ht). auto.
        -- revert Ht. unfold radius_try.
           match goal with
           | |- context [match ?m (at_try st0) with _ => _ end] =>
               destruct (m (at_try st0)) as [[resp|e0] st1]
           end; [|discriminate].
           intros Ht. rewrite (handle_response_result _ _ _ _ _ _ Ht).
           destruct (code resp =? AccessChallenge); auto.
           destruct (code resp =? AccessAccept); auto.
      * unfold check_radius.
        rewrite (bind_return _ _ _ _ _ Ho).
        rewrite (bind_return _ _ _ _ _ (dict_get_lookup _ _ _ _ Hl)).
        destruct (sentinel_false _ Hs) as [-> ->].
        rewrite Hr, Hp, lift_bind, lift_raise_bind. auto.
    + unfold check_radius.
      rewrite (bind_return _ _ _ _ _ Ho).
      rewrite (bind_return _ _ _ _ _ (dict_get_lookup _ _ _ _ Hl)).
      destruct (sentinel_false _ Hs) as [-> ->].
      rewrite Hr, lift_raise_bind. auto.
Qed.

(** C4. Whenever the [try] block of [check_radius] raises (whatever the
    step: unreachable server, malformed reply, an exception of the client),
    [check_radius] returns -1 to its caller instead of raising, after
    logging the exception at level ERROR and recording -1 in the
    dictionary. *)
Theorem check_radius_fail_closed
    w tok otpval options rs st opts st0 d cfg otp e lc st3 :
  options_or_empty options st = (Return opts, st0) ->
  heap st0 !! opts = Some d ->
  sentinel d = false ->
  resolve_server w tok = Return cfg ->
  py_len otpval = Return otp ->
  radius_try w tok otp opts cfg (initial_locals rs) (at_try st0)
    = (Return (Some e, lc), st3) ->
  exists st',
    check_radius w tok otpval options rs st = (Return (VInt (-1)), st')
    /\ log st' = Log INFO "{0!s}"
                 :: LogExc ERROR "Error contacting radius Server: {0!r}" e
                 :: log st3
    /\ deref (heap st') opts !! "radius_result" = Some (VInt (-1)).
Proof.
  intros Ho Hl Hs Hr Hp Ht.
  pose proof (check_radius_slow _ _ _ _ _ _ _ _ _ _ _ _ _ _
                Ho Hl Hs Hr Hp Ht) as Heq.
  pose proof (radius_try_exception _ _ _ _ _ _ _ _ _ _ Ht) as Hres.
  simpl in Hres. rewrite Hres in Heq.
  eexists. split; [exact Heq|]. split; [reflexivity|].
  destruct (preserves_radius_try _ _ _ _ _ _ _ _ _ Ht) as [Hh _].
  unfold deref. simpl.
  rewrite list_lookup_insert_eq.
  - simpl. unfold written. rewrite !lookup_insert_ne by discriminate.
    rewrite lookup_insert_eq, Hres. reflexivity.
  - rewrite Hh. eapply lookup_lt_Some; eassumption.
Qed.

Lemma check_radius_fail_closed_witness :
  exists st',
    check_radius (Example.world Example.net_timeout) Example.tok
      (OStr "123456") (Some 0%nat) VNone
      (Example.state_of Example.ctx ∅) = (Return (VInt (-1)), st')
    /\ log st' = Log INFO "{0!s}"
                 :: LogExc ERROR "Error contacting radius Server: {0!r}"
                      (LibraryError "pyrad.client.Timeout")
                 :: log (add_sent
                     {| rq_server := "10.0.0.1"; rq_authport := 1812;
                        rq_secret := Some "secret";
                        rq_dict := "/etc/privacyidea/dictionary";
                        rq_user := "alice"; rq_nas := "privacyIDEA";
                        rq_password := "123456"; rq_state := None |}
                     (add_log (Log DEBUG "constructing client object with server: %r, port: %r, secret: %r")
                        (add_log (Log DEBUG "NAS Identifier: %r, Dictionary: %r")
                           (at_try (Example.state_of Example.ctx ∅)))))
    /\ deref (heap st') 0%nat !! "radius_result" = Some (VInt (-1)).
Proof.
  apply (check_radius_fail_closed
           (Example.world Example.net_timeout) Example.tok (OStr "123456")
           (Some 0%nat) VNone (Example.state_of Example.ctx ∅)
           0%nat (Example.state_of Example.ctx ∅) Example.ctx
           (Some "10.0.0.1:1812", Some "secret", None) "123456"
           (LibraryError "pyrad.client.Timeout") (initial_locals VNone)).
  all: vm_compute; reflexivity.
Defined.

(** ** What [check_radius] writes into the context *)

Lemma written_lookups lc d :
  written lc d !! "radius_result" = Some (VInt (l_result lc))
  /\ written lc d !! "radius_state" = Some (l_state lc)
  /\ written lc d !! "radius_message" = Some (l_message lc).
Proof.
  unfold written. repeat split.
  - rewrite !lookup_insert_ne by discriminate. apply lookup_insert_eq.
  - rewrite lookup_insert_ne by discriminate. apply lookup_insert_eq.
  - apply lookup_insert_eq.
Qed.

Lemma sentinel_true d :
  sentinel d = true ->
  exists accept : bool,
    d !! "radius_state"
      = Some (VStr (if accept then "<SUCCESS>" else "<REJECTED>")).
Proof.
  unfold sentinel, py_eq. intros H. apply orb_prop in H.
  destruct H as [H|H]; apply bool_decide_eq_true_1 in H;
    [exists true | exists false];
    destruct (d !! "radius_state"); simpl in H; congruence.
Qed.



(** ** Mapping of the reply code *)

(** When the request could be built and the network delivered [resp], the
    [try] block is the mapping of lines 495-520 applied to [resp]. *)
Lemma radius_try_reply w tok otp opts cfg lc st req st1 resp :
  build_request w tok otp opts cfg (l_state lc) st = (Return req, st1) ->
  SendPacket w (length (sent st1)) req = Return resp ->
  radius_try w tok otp opts cfg lc st
  = handle_response resp lc (add_sent req st1).
Proof.
  intros Hb Hs. unfold radius_try.
  rewrite (bind_return _ _ _ _ _ Hb). unfold send. rewrite Hs. reflexivity.
Qed.

(** The mapping itself: [AccessAccept] gives 0 with the sentinel
    ["<SUCCESS>"]; [AccessChallenge] gives 1 with the first State and
    Reply-Message values, provided the reply carries both; every other code
    leaves the verdict at its initial value with the sentinel
    ["<REJECTED>"]. *)
Lemma handle_response_mapping resp lc st :
  (code resp = AccessAccept ->
   handle_response resp lc st
   = (Return (None, {| l_result := 0; l_state := VStr "<SUCCESS>";
                       l_message := VStr "RADIUS authentication succeeded" |}),
      add_log (Log INFO "Radiusserver %s granted access to user %s.") st))
  /\ (code resp ≠ AccessAccept -> code resp ≠ AccessChallenge ->
      handle_response resp lc st
      = (Return (None, {| l_result := l_result lc;
                          l_state := VStr "<REJECTED>";
                          l_message := VStr "RADIUS authentication failed" |}),
         add_log (Log INFO "Radiusserver %s rejected access to user %s.")
           (add_log (Log DEBUG "radius response code %d") st)))
  /\ (forall s0 ss m0 ms,
      code resp = AccessChallenge ->
      attrs resp !! "State" = Some (s0 :: ss) ->
      attrs resp !! "Reply-Message" = Some (m0 :: ms) ->
      handle_response resp lc st
      = (Return (None, {| l_result := 1; l_state := s0; l_message := m0 |}),
         add_log (Log INFO "Radiusserver challenge returned %s '%s' ") st))
  /\ (code resp = AccessChallenge ->
      attrs resp !! "Reply-Message" = None ->
      exists k, handle_response resp lc st = (Return (Some (KeyError k), lc), st)).
Proof.
  unfold handle_response. repeat split.
  - intros ->. reflexivity.
  - intros Ha Hc.
    apply Z.eqb_neq in Ha. apply Z.eqb_neq in Hc. rewrite Ha, Hc. reflexivity.
  - intros s0 ss m0 ms -> Hs Hm. simpl.
    unfold challenge_branch. rewrite Hs, Hm. reflexivity.
  - intros -> Hm. simpl. unfold challenge_branch. rewrite Hm.
    destruct (attrs resp !! "State"); eauto.
Qed.

(** A transport failure and a failure to build the request both end in
    the handler, with the locals untouched. *)
Lemma radius_try_send_failure w tok otp opts cfg lc st req st1 e :
  build_request w tok otp opts cfg (l_state lc) st = (Return req, st1) ->
  SendPacket w (length (sent st1)) req = Raise e ->
  radius_try w tok otp opts cfg lc st
  = (Return (Some e, lc), add_sent req st1).
Proof.
  intros Hb Hs. unfold radius_try.
  rewrite (bind_return _ _ _ _ _ Hb). unfold send. rewrite Hs. reflexivity.
Qed.

Lemma radius_try_build_failure w tok otp opts cfg lc st e st1 :
  build_request w tok otp opts cfg (l_state lc) st = (Raise e, st1) ->
  radius_try w tok otp opts cfg lc st = (Return (Some e, lc), st1).
Proof.
  intros Hb. unfold radius_try.
  rewrite (bind_raise _ _ _ _ _ Hb). reflexivity.
Qed.

(** The verdict and the cached entries for a reply that was received, on
    a context that is a non-empty dictionary without sentinel. *)
Lemma check_radius_reply w tok otpval rs st l d cfg otp req st1 resp :
  heap st !! l = Some d -> d ≠ ∅ -> sentinel d = false ->
  resolve_server w tok = Return cfg ->
  py_len otpval = Return otp ->
  build_request w tok otp l cfg rs (at_try st) = (Return req, st1) ->
  SendPacket w (length (sent st1)) req = Return resp ->
  (code resp = AccessAccept ->
   exists st',
     check_radius w tok otpval (Some l) rs st = (Return (VInt 0), st')
     /\ heap st' !! l
        = Some (written {| l_result := 0; l_state := VStr "<SUCCESS>";
                           l_message := VStr "RADIUS authentication succeeded" |}
                        d))
  /\ (code resp ≠ AccessAccept -> code resp ≠ AccessChallenge ->
      exists st',
        check_radius w tok otpval (Some l) rs st = (Return (VInt (-1)), st')
        /\ heap st' !! l
           = Some (written {| l_result := -1; l_state := VStr "<REJECTED>";
                              l_message := VStr "RADIUS authentication failed" |}
                           d))
  /\ (forall s0 ss m0 ms,
      code resp = AccessChallenge ->
      attrs resp !! "State" = Some (s0 :: ss) ->
      attrs resp !! "Reply-Message" = Some (m0 :: ms) ->
      exists st',
        check_radius w tok otpval (Some l) rs st = (Return (VInt 1), st')
        /\ heap st' !! l
           = Some (written {| l_result := 1; l_state := s0; l_message := m0 |}
                           d)).
Proof.
  intros Hl Hd Hs Hr Hp Hb Hsend.
  pose proof (options_or_empty_alias _ _ _ Hl Hd) as Ho.
  pose proof (radius_try_reply w tok otp l cfg (initial_locals rs) (at_try st)
                req st1 resp Hb Hsend) as Ht.
  destruct (handle_response_mapping resp (initial_locals rs) (add_sent req st1))
    as (Hacc & Hrej & Hchal & _).
  assert (Hfin : forall lc st3,
    radius_try w tok otp l cfg (initial_locals rs) (at_try st)
      = (Return (None, lc), st3) ->
    exists st',
      check_radius w tok otpval (Some l) rs st
        = (Return (VInt (l_result lc)), st')
      /\ heap st' !! l = Some (written lc d)).
  { intros lc st3 Ht3.
    rewrite (check_radius_slow _ _ _ _ _ _ _ _ _ _ _ _ _ _
               Ho Hl Hs Hr Hp Ht3).
    eexists. split; [reflexivity|].
    destruct (preserves_radius_try _ _ _ _ _ _ _ _ _ Ht3) as [Hh _].
    simpl. apply list_lookup_insert_eq. rewrite Hh.
    eapply lookup_lt_Some; eassumption. }
  split; [|split].
  - intros Hc. rewrite (Hacc Hc) in Ht. apply (Hfin _ _ Ht).
  - intros Hc1 Hc2. rewrite (Hrej Hc1 Hc2) in Ht. apply (Hfin _ _ Ht).
  - intros s0 ss m0 ms Hc H1 H2. rewrite (Hchal s0 ss m0 ms Hc H1 H2) in Ht.
    apply (Hfin _ _ Ht).
Qed.

(** C1, at an Access-Challenge reply that carries a State attribute and no
    Reply-Message: the request is sent, the reply has code
    [AccessChallenge], and [check_radius] returns -1 and records
    [radius_result] -1 with the state it was called with, because the
    [log.info] call on line 500 raises [KeyError] before the guarded
    assignments of lines 502-507 are reached. *)
Theorem check_radius_challenge_without_message :
  let w := Example.world (Example.net_always Example.reply_challenge_bare) in
  let st := Example.state_of Example.ctx ∅ in
  exists st' req,
    check_radius w Example.tok (OStr "123456") (Some 0%nat) VNone st
      = (Return (VInt (-1)), st')
    /\ sent st' = [req]
    /\ SendPacket w 0%nat req = Return Example.reply_challenge_bare
    /\ code Example.reply_challenge_bare = AccessChallenge
    /\ deref (heap st') 0%nat !! "radius_result" = Some (VInt (-1))
    /\ deref (heap st') 0%nat !! "radius_state" = Some VNone
    /\ In (LogExc ERROR "Error contacting radius Server: {0!r}"
                  (KeyError "Reply-Message")) (log st').
Proof.
  do 2 eexists. split; [vm_compute; reflexivity|].
  split; [reflexivity|].
  repeat split; try (vm_compute; reflexivity).
  simpl. auto.
Qed.

(** For comparison, the same exchange with a reply that carries both
    attributes yields 1 and caches the server's State and Reply-Message. *)
Example check_radius_challenge_with_message :
  let w := Example.world (Example.net_always Example.reply_challenge) in
  let st := Example.state_of Example.ctx ∅ in
  exists st',
    check_radius w Example.tok (OStr "123456") (Some 0%nat) VNone st
      = (Return (VInt 1), st')
    /\ heap st' = [Example.ctx_challenged].
Proof. eexists. split; vm_compute; reflexivity. Qed.

(** ** What [check_radius] writes into the context *)

(** A run of [check_radius] that returns on the network path went through
    the [try] block; the verdict and the dictionary are those of the
    locals the block left. *)
Lemma check_radius_slow_inv w tok otpval rs st l d v st' :
  heap st !! l = Some d -> d ≠ ∅ -> sentinel d = false ->
  check_radius w tok otpval (Some l) rs st = (Return v, st') ->
  exists cfg otp exc lc st3,
    resolve_server w tok = Return cfg
    /\ py_len otpval = Return otp
    /\ radius_try w tok otp l cfg (initial_locals rs) (at_try st)
       = (Return (exc, lc), st3)
    /\ v = VInt (l_result lc)
    /\ heap st' !! l = Some (written lc d).
Proof.
  intros Hl Hd Hs H.
  pose proof (options_or_empty_alias _ _ _ Hl Hd) as Ho.
  destruct (sentinel_false _ Hs) as [E1 E2].
  destruct (resolve_server w tok) as [cfg|e] eqn:Hr.
  - destruct (py_len otpval) as [otp|e] eqn:Hp.
    + destruct (radius_try_returns w tok otp l cfg (initial_locals rs)
                  (at_try st)) as (exc & lc & st3 & Ht).
      rewrite (check_radius_slow _ _ _ _ _ _ _ _ _ _ _ _ _ _
                 Ho Hl Hs Hr Hp Ht) in H.
      injection H as <- <-. exists cfg, otp, exc, lc, st3.
      repeat split; try assumption.
      destruct (preserves_radius_try _ _ _ _ _ _ _ _ _ Ht) as [Hh _].
      simpl. apply list_lookup_insert_eq. rewrite Hh.
      eapply lookup_lt_Some; eassumption.
    + unfold check_radius in H.
      rewrite (bind_return _ _ _ _ _ Ho) in H.
      rewrite (bind_return _ _ _ _ _ (dict_get_lookup _ _ _ _ Hl)) in H.
      rewrite E1, E2 in H.
      rewrite Hr, Hp, lift_bind, lift_raise_bind in H. discriminate.
  - unfold check_radius in H.
    rewrite (bind_return _ _ _ _ _ Ho) in H.
    rewrite (bind_return _ _ _ _ _ (dict_get_lookup _ _ _ _ Hl)) in H.
    rewrite E1, E2 in H.
    rewrite Hr, lift_raise_bind in H. discriminate.
Qed.

(** The locals the [try] block leaves, path by path. *)
Lemma radius_try_locals w tok otp opts cfg lc0 st exc lc st3 :
  radius_try w tok otp opts cfg lc0 st = (Return (exc, lc), st3) ->
  (forall e stb,
      build_request w tok otp opts cfg (l_state lc0) st = (Raise e, stb) ->
      lc = lc0)
  /\ (forall req stb,
         build_request w tok otp opts cfg (l_state lc0) st
           = (Return req, stb) ->
         match SendPacket w (length (sent st)) req with
         | Raise _ => lc = lc0
         | Return resp =>
             if code resp =? AccessAccept then
               lc = {| l_result := 0; l_state := VStr "<SUCCESS>";
                       l_message := VStr "RADIUS authentication succeeded" |}
             else if code resp =? AccessChallenge then
               match attrs resp !! "State",
                     attrs resp !! "Reply-Message" with
               | Some (s0 :: _), Some (m0 :: _) =>
                   lc = {| l_result := 1; l_state := s0; l_message := m0 |}
               | Some (s0 :: _), Some [] =>
                   lc = {| l_result := l_result lc0; l_state := s0;
                           l_message := l_message lc0 |}
               | _, _ => lc = lc0
               end
             else
               lc = {| l_result := l_result lc0;
                       l_state := VStr "<REJECTED>";
                       l_message := VStr "RADIUS authentication failed" |}
         end).
Proof.
  intros Ht. split.
  - intros e stb Hb.
    rewrite (radius_try_build_failure _ _ _ _ _ _ _ _ _ Hb) in Ht.
    injection Ht as _ <- _. reflexivity.
  - intros req stb Hb.
    destruct (preserves_build_request _ _ _ _ _ _ _ _ _ Hb) as (Hs1 & _).
    rewrite <- Hs1.
    destruct (SendPacket w (length (sent stb)) req) as [resp|e] eqn:Hsend.
    + rewrite (radius_try_reply _ _ _ _ _ _ _ _ _ _ Hb Hsend) in Ht.
      destruct (handle_response_mapping resp lc0 (add_sent req stb))
        as (Hacc & Hrej & Hchal & _).
      destruct (code resp =? AccessAccept) eqn:Ea.
      * apply Z.eqb_eq in Ea. rewrite (Hacc Ea) in Ht.
        injection Ht as _ <-. reflexivity.
      * apply Z.eqb_neq in Ea.
        destruct (code resp =? AccessChallenge) eqn:Ec.
        -- unfold handle_response in Ht. rewrite Ec in Ht.
           unfold challenge_branch in Ht.
           destruct (attrs resp !! "State") as [[|s0 ss]|];
             destruct (attrs resp !! "Reply-Message") as [[|m0 ms]|];
             cbv in Ht; injection Ht as _ <- _; reflexivity.
        -- apply Z.eqb_neq in Ec. rewrite (Hrej Ea Ec) in Ht.
           injection Ht as _ <-. reflexivity.
    + rewrite (radius_try_send_failure _ _ _ _ _ _ _ _ _ _ Hb Hsend) in Ht.
      injection Ht as _ <- _. reflexivity.
Qed.

(** C8, as the code has it.  For a context that is a non-empty
    dictionary, when [check_radius] returns:

    - on the two sentinel fast paths it sets [radius_state] and
      [radius_message] to [None] and leaves [radius_result] as it found it;
    - on the network paths the context becomes the old one with
      [radius_result], [radius_state] and [radius_message] set to the
      locals the [try] block computed, and the verdict returned is the
      [radius_result] written.  Those locals are: after Access-Accept,
      0, ["<SUCCESS>"] and ["RADIUS authentication succeeded"]; after
      Access-Challenge with a State and a Reply-Message, 1 and the first
      value of each; after any other code, -1, ["<REJECTED>"] and
      ["RADIUS authentication failed"]; after a transport failure, or when
      the request could not be built, -1, the saved state passed in and
      [None].  An Access-Challenge that lacks one of the two attributes
      ends in the handler like a failure; when its Reply-Message is an
      empty list the first State has been assigned before, and is
      written. *)
Theorem check_radius_writes_context w tok otpval rs st l d v st' :
  heap st !! l = Some d -> d ≠ ∅ ->
  check_radius w tok otpval (Some l) rs st = (Return v, st') ->
  exists d',
    heap st' !! l = Some d'
    /\ if sentinel d then
         d' !! "radius_state" = Some VNone
         /\ d' !! "radius_message" = Some VNone
         /\ d' !! "radius_result" = d !! "radius_result"
       else
         exists cfg otp exc lc st3,
           resolve_server w tok = Return cfg
           /\ py_len otpval = Return otp
           /\ radius_try w tok otp l cfg (initial_locals rs) (at_try st)
              = (Return (exc, lc), st3)
           /\ v = VInt (l_result lc)
           /\ d' = written lc d
           /\ d' !! "radius_result" = Some v
           /\ d' !! "radius_state" = Some (l_state lc)
           /\ d' !! "radius_message" = Some (l_message lc)
           /\ (forall e stb,
                  build_request w tok otp l cfg rs (at_try st)
                    = (Raise e, stb) ->
                  lc = {| l_result := -1; l_state := rs;
                          l_message := VNone |})
           /\ (forall req stb,
                  build_request w tok otp l cfg rs (at_try st)
                    = (Return req, stb) ->
                  match SendPacket w (length (sent st)) req with
                  | Raise _ =>
                      lc = {| l_result := -1; l_state := rs;
                              l_message := VNone |}
                  | Return resp =>
                      if code resp =? AccessAccept then
                        lc = {| l_result := 0; l_state := VStr "<SUCCESS>";
                                l_message :=
                                  VStr "RADIUS authentication succeeded" |}
                      else if code resp =? AccessChallenge then
                        match attrs resp !! "State",
                              attrs resp !! "Reply-Message" with
                        | Some (s0 :: _), Some (m0 :: _) =>
                            lc = {| l_result := 1; l_state := s0;
                                    l_message := m0 |}
                        | Some (s0 :: _), Some [] =>
                            lc = {| l_result := -1; l_state := s0;
                                    l_message := VNone |}
                        | _, _ =>
                            lc = {| l_result := -1; l_state := rs;
                                    l_message := VNone |}
                        end
                      else
                        lc = {| l_result := -1;
                                l_state := VStr "<REJECTED>";
                                l_message :=
                                  VStr "RADIUS authentication failed" |}
                  end).
Proof.
  intros Hl Hd H. destruct (sentinel d) eqn:Hs.
  - destruct (sentinel_true _ Hs) as [accept Ha].
    rewrite (check_radius_fast _ _ _ _ _ _ _ accept Hl Ha) in H.
    injection H as <- <-.
    eexists. split; [apply (heap_insert_lookup _ _ _ _ Hl)|].
    split; [|split].
    + rewrite lookup_insert_ne by discriminate. apply lookup_insert_eq.
    + apply lookup_insert_eq.
    + rewrite !lookup_insert_ne by discriminate. reflexivity.
  - destruct (check_radius_slow_inv _ _ _ _ _ _ _ _ _ Hl Hd Hs H)
      as (cfg & otp & exc & lc & st3 & Hr & Hp & Ht & -> & Hh).
    exists (written lc d). split; [exact Hh|].
    exists cfg, otp, exc, lc, st3.
    destruct (written_lookups lc d) as (W1 & W2 & W3).
    destruct (radius_try_locals _ _ _ _ _ _ _ _ _ _ Ht) as [Hfail Hsent].
    do 8 (split; [assumption || reflexivity|]).
    split; [exact Hfail | exact Hsent].
Qed.

Lemma check_radius_writes_context_witness :
  let w := Example.world (Example.net_always Example.reply_accept) in
  let st := Example.state_of Example.ctx ∅ in
  let st' := (check_radius w Example.tok (OStr "123456") (Some 0%nat) VNone
                st).2 in
  exists d',
    heap st' !! 0%nat = Some d'
    /\ if sentinel Example.ctx then
         d' !! "radius_state" = Some VNone
         /\ d' !! "radius_message" = Some VNone
         /\ d' !! "radius_result" = Example.ctx !! "radius_result"
       else
         exists cfg otp exc lc st3,
           resolve_server w Example.tok = Return cfg
           /\ py_len (OStr "123456") = Return otp
           /\ radius_try w Example.tok otp 0%nat cfg (initial_locals VNone)
                (at_try st)
              = (Return (exc, lc), st3)
           /\ VInt 0 = VInt (l_result lc)
           /\ d' = written lc Example.ctx
           /\ d' !! "radius_result" = Some (VInt 0)
           /\ d' !! "radius_state" = Some (l_state lc)
           /\ d' !! "radius_message" = Some (l_message lc)
           /\ (forall e stb,
                  build_request w Example.tok otp 0%nat cfg VNone (at_try st)
                    = (Raise e, stb) ->
                  lc = {| l_result := -1; l_state := VNone;
                          l_message := VNone |})
           /\ (forall req stb,
                  build_request w Example.tok otp 0%nat cfg VNone (at_try st)
                    = (Return req, stb) ->
                  match SendPacket w (length (sent st)) req with
                  | Raise _ =>
                      lc = {| l_result := -1; l_state := VNone;
                              l_message := VNone |}
                  | Return resp =>
                      if code resp =? AccessAccept then
                        lc = {| l_result := 0; l_state := VStr "<SUCCESS>";
                                l_message :=
                                  VStr "RADIUS authentication succeeded" |}
                      else if code resp =? AccessChallenge then
                        match attrs resp !! "State",
                              attrs resp !! "Reply-Message" with
                        | Some (s0 :: _), Some (m0 :: _) =>
                            lc = {| l_result := 1; l_state := s0;
                                    l_message := m0 |}
                        | Some (s0 :: _), Some [] =>
                            lc = {| l_result := -1; l_state := s0;
                                    l_message := VNone |}
                        | _, _ =>
                            lc = {| l_result := -1; l_state := VNone;
                                    l_message := VNone |}
                        end
                      else
                        lc = {| l_result := -1;
                                l_state := VStr "<REJECTED>";
                                l_message :=
                                  VStr "RADIUS authentication failed" |}
                  end).
Proof.
  intros w st st'.
  apply (check_radius_writes_context w Example.tok (OStr "123456") VNone st
           0%nat Example.ctx (VInt 0) st').
  - reflexivity.
  - apply (lookup_nonempty _ "clientip" (VStr "192.0.2.7")). reflexivity.
  - vm_compute. reflexivity.
Defined.

(** C8 as stated fails on the sentinel fast path: with a context whose
    cached state is ["<SUCCESS>"] and whose cached verdict is [None],
    [check_radius] returns 0 and the context still holds [None] as
    [radius_result]. *)
Lemma check_radius_fast_path_keeps_result :
  exists st',
    check_radius (Example.world Example.net_timeout) Example.tok
      (OStr "123456") (Some 0%nat) VNone
      (Example.state_of Example.ctx_success ∅) = (Return (VInt 0), st')
    /\ deref (heap st') 0%nat !! "radius_result" = Some VNone
    /\ Some VNone ≠ Some (VInt 0).
Proof.
  eexists. split; [vm_compute; reflexivity|].
  split; [vm_compute; reflexivity | discriminate].
Qed.

(** ** Local-PIN mode *)

Lemma check_pin_local_eq w tok st :
  check_pin_local w tok st
  = (Return (local_pin_mode w tok),
     add_log (Log DEBUG "local checking pin? {0!r}") st).
Proof. reflexivity. Qed.

(** In local-PIN mode [split_pin_pass] calls itself until the stack is
    exhausted, whatever the stack depth: it never returns a triple. *)
Lemma split_pin_pass_rec_local w tok :
  local_pin_mode w tok = true ->
  forall depth passw user st,
  exists st',
    split_pin_pass_rec depth w tok passw user st = (Raise RecursionError, st')
    /\ same_but_log st st'.
Proof.
  intros Hloc. induction depth as [|depth IH]; intros passw user st.
  - exists st. split; reflexivity.
  - simpl. rewrite (bind_return _ _ _ _ _ (check_pin_local_eq w tok st)).
    rewrite Hloc.
    destruct (IH OSelf passw (add_log (Log DEBUG "local checking pin? {0!r}") st))
      as (st' & Heq & Hsame).
    exists st'. split.
    + rewrite (bind_raise _ _ _ _ _ Heq). reflexivity.
    + destruct Hsame as (Hs & Hh & Hc & Hw). repeat split; assumption.
Qed.

(** Outside local-PIN mode the whole input is the value to forward, with
    an empty PIN. *)
Lemma split_pin_pass_rec_remote w tok depth passw user st :
  local_pin_mode w tok = false ->
  split_pin_pass_rec (S depth) w tok passw user st
  = (Return (0, OStr "", passw),
     add_log (Log DEBUG "local checking pin? {0!r}") st).
Proof.
  intros Hloc. simpl.
  rewrite (bind_return _ _ _ _ _ (check_pin_local_eq w tok st)).
  rewrite Hloc. reflexivity.
Qed.

(** C10, at a token in local-PIN mode: [split_pin_pass] does not return
    a triple; the self-call of line 338 exhausts the stack and the method
    raises [RecursionError].  The same input on the token without local-PIN
    mode returns the input unchanged with an empty PIN. *)
Theorem split_pin_pass_local_recursion :
  let w := Example.world Example.net_timeout in
  let st := Example.state_of Example.ctx ∅ in
  (exists st',
     split_pin_pass w Example.tok_local (OStr "0000654321") ONone st
       = (Raise RecursionError, st'))
  /\ (exists st',
        split_pin_pass w Example.tok (OStr "0000654321") ONone st
          = (Return (0, OStr "", OStr "0000654321"), st')).
Proof.
  intros w st. split.
  - destruct (split_pin_pass_rec_local w Example.tok_local eq_refl
                (recursion_limit w) (OStr "0000654321") ONone st)
      as (st' & H & _).
    exists st'. exact H.
  - eexists. apply (split_pin_pass_rec_remote w Example.tok). reflexivity.
Qed.

Lemma is_challenge_request_local w tok passw user options st :
  local_pin_mode w tok = true ->
  exists st',
    is_challenge_request w tok passw user options st
      = (Raise RecursionError, st')
    /\ sent st' = sent st.
Proof.
  intros Hloc.
  destruct (options_or_empty_spec options st)
    as (opts & st0 & d & Ho & Hl & _ & Hsent & _).
  unfold is_challenge_request, is_challenge_request_with.
  rewrite (bind_return _ _ _ _ _ Ho).
  rewrite (bind_return _ _ _ _ _ (dict_get_lookup _ _ _ _ Hl)).
  rewrite (bind_return _ _ _ _ _ (check_pin_local_eq w tok st0)).
  rewrite Hloc.
  destruct (split_pin_pass_rec_local w tok Hloc (recursion_limit w) passw user
              (add_log (Log DEBUG "local checking pin? {0!r}") st0))
    as (st' & Heq & Hsame).
  exists st'. split.
  - erewrite bind_raise; [reflexivity|].
    erewrite bind_raise; [reflexivity|]. exact Heq.
  - destruct Hsame as [Hs _]. rewrite Hs. exact Hsent.
Qed.

Lemma authenticate_local w tok passw user options st :
  local_pin_mode w tok = true ->
  exists st',
    authenticate w tok passw user options st = (Raise RecursionError, st')
    /\ sent st' = sent st.
Proof.
  intros Hloc.
  destruct (options_or_empty_spec options st)
    as (opts & st0 & d & Ho & Hl & _ & Hsent & _).
  unfold authenticate, authenticate_with.
  rewrite (bind_return _ _ _ _ _ Ho).
  rewrite (bind_return _ _ _ _ _ (check_pin_local_eq w tok st0)).
  rewrite Hloc.
  destruct (split_pin_pass_rec_local w tok Hloc (recursion_limit w) passw user
              (add_log (Log DEBUG "local checking pin? {0!r}") st0))
    as (st' & Heq & Hsame).
  exists st'. split.
  - erewrite bind_raise; [reflexivity|].
    erewrite bind_raise; [reflexivity|]. exact Heq.
  - destruct Hsame as [Hs _]. rewrite Hs. exact Hsent.
Qed.

(** Outside local-PIN mode, a cached verdict answers both methods. *)
Lemma is_challenge_request_cached w tok passw user st l d v :
  heap st !! l = Some d ->
  d !! "radius_result" = Some v -> v ≠ VNone ->
  local_pin_mode w tok = false ->
  is_challenge_request w tok passw user (Some l) st
  = (Return (py_eq v (VInt 1)),
     add_log (Log DEBUG "local checking pin? {0!r}") st).
Proof.
  intros Hl Hv Hne Hloc.
  unfold is_challenge_request, is_challenge_request_with.
  cbv beta iota delta [mbind M_bind mret M_ret].
  rewrite (options_or_empty_alias _ _ _ Hl (lookup_nonempty _ _ _ Hv)).
  cbv beta iota.
  rewrite (dict_get_lookup _ _ _ "radius_state" Hl),
          (check_pin_local_eq w tok st), Hloc.
  cbv beta iota. change (negb true) with false. cbv beta iota.
  rewrite !(dict_get_lookup
               (add_log (Log DEBUG "local checking pin? {0!r}") st) l d _ Hl).
  cbv beta iota. rewrite Hv. simpl default.
  unfold py_eq at 1. rewrite bool_decide_eq_false_2 by exact Hne.
  reflexivity.
Qed.

Lemma authenticate_cached w tok passw user st l d v :
  heap st !! l = Some d ->
  d !! "radius_result" = Some v -> v ≠ VNone ->
  local_pin_mode w tok = false ->
  authenticate w tok passw user (Some l) st
  = (Return (answer_of tok v),
     add_log (Log DEBUG "local checking pin? {0!r}") st).
Proof.
  intros Hl Hv Hne Hloc.
  unfold authenticate, authenticate_with.
  cbv beta iota delta [mbind M_bind mret M_ret].
  rewrite (options_or_empty_alias _ _ _ Hl (lookup_nonempty _ _ _ Hv)).
  cbv beta iota.
  rewrite (check_pin_local_eq w tok st), Hloc.
  cbv beta iota. change (negb true) with false. cbv beta iota.
  rewrite !(dict_get_lookup
               (add_log (Log DEBUG "local checking pin? {0!r}") st) l d _ Hl).
  cbv beta iota. rewrite Hv. simpl default.
  unfold py_eq at 1. rewrite bool_decide_eq_false_2 by exact Hne.
  unfold answer_of. change (default VNone (Some v)) with v.
  destruct (py_eq v (VInt 0)); [reflexivity|].
  destruct (py_eq v (VInt 1)); reflexivity.
Qed.

(** C3, as the code has it.  Once the context holds a verdict other than
    [None] as [radius_result], [is_challenge_request] and [authenticate]
    send no packet, and outside local-PIN mode they answer from that
    verdict.  [check_otp] (hence [check_radius]) does not read
    [radius_result]: both send no packet when [radius_state] holds one of
    the two sentinels. *)
Theorem cached_verdict_no_network w tok passw user st l d v :
  heap st !! l = Some d ->
  d !! "radius_result" = Some v -> v ≠ VNone ->
  (exists r st',
     is_challenge_request w tok passw user (Some l) st = (r, st')
     /\ sent st' = sent st
     /\ (local_pin_mode w tok = false -> r = Return (py_eq v (VInt 1))))
  /\ (exists r st',
        authenticate w tok passw user (Some l) st = (r, st')
        /\ sent st' = sent st
        /\ (local_pin_mode w tok = false -> r = Return (answer_of tok v)))
  /\ (forall (accept : bool) (rs : value),
        d !! "radius_state"
          = Some (VStr (if accept then "<SUCCESS>" else "<REJECTED>")) ->
        (exists st',
            check_otp w tok passw (Some l) st = (Return accept, st')
            /\ sent st' = sent st)
        /\ (exists st',
               check_radius w tok passw (Some l) rs st
                 = (Return (VInt (if accept then 0 else -1)), st')
               /\ sent st' = sent st)).
Proof.
  intros Hl Hv Hne. split; [|split].
  - destruct (local_pin_mode w tok) eqn:Hloc.
    + destruct (is_challenge_request_local w tok passw user (Some l) st Hloc)
        as (st' & Heq & Hsent).
      exists (Raise RecursionError), st'. repeat split; auto. discriminate.
    + do 2 eexists. split;
        [apply (is_challenge_request_cached _ _ _ _ _ _ _ _ Hl Hv Hne Hloc)|].
      split; [reflexivity | intros _; reflexivity].
  - destruct (local_pin_mode w tok) eqn:Hloc.
    + destruct (authenticate_local w tok passw user (Some l) st Hloc)
        as (st' & Heq & Hsent).
      exists (Raise RecursionError), st'. repeat split; auto. discriminate.
    + do 2 eexists. split;
        [apply (authenticate_cached _ _ _ _ _ _ _ _ Hl Hv Hne Hloc)|].
      split; [reflexivity | intros _; reflexivity].
  - intros accept rs Hs. split.
    + unfold check_otp. eexists. split.
      * rewrite (bind_return _ _ _ _ _
                   (check_radius_fast w tok passw VNone st l d accept Hl Hs)).
        destruct accept; reflexivity.
      * reflexivity.
    + eexists. split; [apply (check_radius_fast _ _ _ _ _ _ _ accept Hl Hs)|].
      reflexivity.
Qed.

Lemma cached_verdict_no_network_witness :
  let w := Example.world (Example.net_always Example.reply_accept) in
  let st := Example.state_of Example.ctx_challenged ∅ in
  (exists r st',
     is_challenge_request w Example.tok (OStr "123456") ONone (Some 0%nat) st
       = (r, st')
     /\ sent st' = sent st
     /\ (local_pin_mode w Example.tok = false
         -> r = Return (py_eq (VInt 1) (VInt 1))))
  /\ (exists r st',
        authenticate w Example.tok (OStr "123456") ONone (Some 0%nat) st
          = (r, st')
        /\ sent st' = sent st
        /\ (local_pin_mode w Example.tok = false
            -> r = Return (answer_of Example.tok (VInt 1))))
  /\ (forall (accept : bool) (rs : value),
        Example.ctx_challenged !! "radius_state"
          = Some (VStr (if accept then "<SUCCESS>" else "<REJECTED>")) ->
        (exists st',
            check_otp w Example.tok (OStr "123456") (Some 0%nat) st
              = (Return accept, st')
            /\ sent st' = sent st)
        /\ (exists st',
               check_radius w Example.tok (OStr "123456") (Some 0%nat) rs st
                 = (Return (VInt (if accept then 0 else -1)), st')
               /\ sent st' = sent st)).
Proof.
  intros w st.
  apply (cached_verdict_no_network w Example.tok (OStr "123456") ONone st
           0%nat Example.ctx_challenged (VInt 1)).
  - reflexivity.
  - vm_compute. reflexivity.
  - discriminate.
Defined.

(** C3 as stated fails for [check_otp]: with the context left by a
    challenge reply ([radius_result] is 1, [radius_state] is the server's
    state), [check_otp] sends a new Access-Request. *)
Lemma check_otp_ignores_cached_verdict :
  let w := Example.world (Example.net_always Example.reply_accept) in
  let st := Example.state_of Example.ctx_challenged ∅ in
  Example.ctx_challenged !! "radius_result" = Some (VInt 1)
  /\ sent st = []
  /\ exists st' req,
       check_otp w Example.tok (OStr "123456") (Some 0%nat) st
         = (Return true, st')
       /\ sent st' = [req]
       /\ rq_password req = "123456".
Proof.
  intros w st. split; [vm_compute; reflexivity|]. split; [reflexivity|].
  do 2 eexists. split; [vm_compute; reflexivity|].
  split; reflexivity.
Qed.

(** ** The local PIN check *)

(** With methods behind [self] that work, a wrong PIN ends [authenticate]
    before any packet is sent. *)
Lemma authenticate_with_wrong_pin w tok split chk passw user st l d r pin otp st1 st2 :
  heap st !! l = Some d -> d ≠ ∅ ->
  local_pin_mode w tok = true ->
  split passw user (add_log (Log DEBUG "local checking pin? {0!r}") st)
    = (Return (r, pin, otp), st1) ->
  chk pin st1 = (Return false, st2) ->
  authenticate_with w tok split chk passw user (Some l) st
  = (Return (false, VInt (-1), reply_of "Wrong PIN"), st2).
Proof.
  intros Hl Hd Hloc Hsplit Hchk. unfold authenticate_with.
  cbv beta iota delta [mbind M_bind mret M_ret].
  rewrite (options_or_empty_alias _ _ _ Hl Hd). cbv beta iota.
  rewrite (check_pin_local_eq w tok st), Hloc. cbv beta iota.
  rewrite Hsplit. cbv beta iota. rewrite Hchk. reflexivity.
Qed.

(** C5, at a token in local-PIN mode and a wrong PIN: [authenticate]
    raises [RecursionError] (from [split_pin_pass], line 338) instead of
    returning [(False, -1, {'message': 'Wrong PIN'})]; no packet is sent.
    With working methods behind [self] the same body returns that triple. *)
Theorem authenticate_local_pin_recursion :
  let w := Example.world (Example.net_always Example.reply_accept) in
  let st := Example.state_of Example.ctx ∅ in
  (exists st',
     authenticate w Example.tok_local (OStr "9999654321") ONone (Some 0%nat) st
       = (Raise RecursionError, st')
     /\ sent st' = [])
  /\ (exists st',
        authenticate_with w Example.tok_local
          Example.base_split (Example.pin_is "0000")
          (OStr "9999654321") ONone (Some 0%nat) st
        = (Return (false, VInt (-1), reply_of "Wrong PIN"), st')
        /\ sent st' = []).
Proof.
  intros w st. split.
  - apply (authenticate_local w Example.tok_local). reflexivity.
  - eexists. split; vm_compute; reflexivity.
Qed.

(** C9, at a token in local-PIN mode with PIN ["0000"] and input
    ["0000654321"]: [is_challenge_request] raises [RecursionError] and
    forwards nothing.  With working methods behind [self], its body
    forwards the whole input (line 177 passes [passw]), where the body of
    [authenticate] forwards the OTP remainder (line 376 passes [otpval]). *)
Theorem is_challenge_request_forwards_passw :
  let w := Example.world (Example.net_always Example.reply_challenge) in
  let st := Example.state_of Example.ctx ∅ in
  (exists st',
     is_challenge_request w Example.tok_local (OStr "0000654321") ONone
       (Some 0%nat) st = (Raise RecursionError, st')
     /\ sent st' = [])
  /\ (exists st' req,
        is_challenge_request_with w Example.tok_local
          Example.base_split (Example.pin_is "0000")
          (OStr "0000654321") ONone (Some 0%nat) st = (Return true, st')
        /\ sent st' = [req]
        /\ rq_password req = "0000654321")
  /\ (exists r st' req,
        authenticate_with w Example.tok_local
          Example.base_split (Example.pin_is "0000")
          (OStr "0000654321") ONone (Some 0%nat) st = (Return r, st')
        /\ sent st' = [req]
        /\ rq_password req = "654321").
Proof.
  intros w st. split; [|split].
  - apply (is_challenge_request_local w Example.tok_local). reflexivity.
  - do 2 eexists. split; [vm_compute; reflexivity|]. split; reflexivity.
  - do 3 eexists. split; [vm_compute; reflexivity|]. split; reflexivity.
Qed.

(** Outside local-PIN mode the whole input is what [is_challenge_request]
    hands to [check_radius]. *)
Lemma is_challenge_request_remote w tok passw user st l d :
  heap st !! l = Some d -> d ≠ ∅ ->
  d !! "radius_result" = None ->
  local_pin_mode w tok = false ->
  is_challenge_request w tok passw user (Some l) st
  = (res ← check_radius w tok passw (Some l)
             (default VNone (d !! "radius_state"));
     mret (py_eq res (VInt 1)))
      (add_log (Log DEBUG "local checking pin? {0!r}") st).
Proof.
  intros Hl Hd Hv Hloc.
  unfold is_challenge_request, is_challenge_request_with.
  cbv beta iota delta [mbind M_bind mret M_ret].
  rewrite (options_or_empty_alias _ _ _ Hl Hd). cbv beta iota.
  rewrite (dict_get_lookup _ _ _ "radius_state" Hl),
          (check_pin_local_eq w tok st), Hloc.
  cbv beta iota. change (negb true) with false. cbv beta iota.
  rewrite !(dict_get_lookup
              (add_log (Log DEBUG "local checking pin? {0!r}") st) l d _ Hl).
  cbv beta iota. rewrite Hv. reflexivity.
Qed.

(** Outside local-PIN mode and without a cached verdict, [authenticate]
    maps the verdict of [check_radius] on the whole input. *)
Lemma authenticate_remote w tok passw user st l d :
  heap st !! l = Some d -> d ≠ ∅ ->
  default VNone (d !! "radius_result") = VNone ->
  local_pin_mode w tok = false ->
  authenticate w tok passw user (Some l) st
  = (otp_counter ← check_radius w tok passw (Some l)
                     (default VNone (d !! "radius_state"));
     mret (answer_of tok otp_counter))
      (add_log (Log DEBUG "local checking pin? {0!r}") st).
Proof.
  intros Hl Hd Hv Hloc.
  unfold authenticate, authenticate_with.
  cbv beta iota delta [mbind M_bind mret M_ret].
  rewrite (options_or_empty_alias _ _ _ Hl Hd). cbv beta iota.
  rewrite (check_pin_local_eq w tok st), Hloc.
  cbv beta iota. change (negb true) with false. cbv beta iota.
  rewrite !(dict_get_lookup
              (add_log (Log DEBUG "local checking pin? {0!r}") st) l d _ Hl).
  cbv beta iota. rewrite Hv.
  change (py_eq VNone VNone) with true. cbv beta iota.
  destruct (check_radius w tok passw (Some l)
              (default VNone (d !! "radius_state"))
              (add_log (Log DEBUG "local checking pin? {0!r}") st))
    as [[c|e] st1]; [|reflexivity].
  unfold answer_of.
  destruct (py_eq c (VInt 0)); [reflexivity|].
  destruct (py_eq c (VInt 1)); reflexivity.
Qed.

(** ** The challenge table during a RADIUS check *)

Lemma preserves_options_or_empty o : preserves same_store (options_or_empty o).
Proof.
  intros st r st' H.
  destruct (options_or_empty_spec o st) as (opts & st0 & d & Ho & _ & Hs & _).
  rewrite Ho in H. injection H as <- <-. exact Hs.
Qed.

Lemma preserves_dict_update l k v : preserves same_store (dict_update l k v).
Proof. intros st r st' [= <- <-]. split; reflexivity. Qed.

Lemma preserves_except_handler exc : preserves same_store (except_handler exc).
Proof. intros st r st' H. destruct exc; injection H as <- <-; split; reflexivity. Qed.

Lemma preserves_check_radius w tok otpval options rs :
  preserves same_store (check_radius w tok otpval options rs).
Proof.
  unfold check_radius.
  apply preserves_bind; [typeclasses eauto | apply preserves_options_or_empty |].
  intros opts.
  apply preserves_bind; [typeclasses eauto | apply preserves_dict_get; typeclasses eauto |].
  intros authstate.
  assert (Hupd : forall v : Z,
    preserves same_store
      (dict_update opts "radius_state" VNone;;
       dict_update opts "radius_message" VNone;; mret (VInt v))).
  { intros v.
    repeat (apply preserves_bind;
            [typeclasses eauto | apply preserves_dict_update | intros _]).
    apply preserves_ret. typeclasses eauto. }
  destruct (py_eq authstate (VStr "<SUCCESS>")); [apply Hupd|].
  destruct (py_eq authstate (VStr "<REJECTED>")); [apply Hupd|].
  apply preserves_bind; [typeclasses eauto | apply preserves_lift; typeclasses eauto |].
  intros cfg.
  apply preserves_bind; [typeclasses eauto | apply preserves_lift; typeclasses eauto |].
  intros otp.
  apply preserves_bind; [typeclasses eauto | |].
  { eapply preserves_weaken; [|apply preserves_logger].
    intros s s' Hs. apply same_heap_store, same_but_log_heap, Hs. }
  intros _.
  apply preserves_bind; [typeclasses eauto | |].
  { eapply preserves_weaken; [apply same_heap_store | apply preserves_radius_try]. }
  intros [exc lc].
  apply preserves_bind; [typeclasses eauto | apply preserves_except_handler |].
  intros _.
  repeat (apply preserves_bind;
          [typeclasses eauto | apply preserves_dict_update | intros _]).
  apply preserves_ret. typeclasses eauto.
Qed.

Lemma check_radius_challenges w tok otpval options rs st r st' :
  check_radius w tok otpval options rs st = (r, st') ->
  challenges st' = challenges st /\ sweeps st' = sweeps st.
Proof. intros H. exact (preserves_check_radius _ _ _ _ _ _ _ _ H). Qed.

Lemma py_eq_true a b : py_eq a b = true -> a = b.
Proof. unfold py_eq. apply bool_decide_eq_true_1. Qed.

Lemma py_eq_false a b : py_eq a b = false -> a ≠ b.
Proof. unfold py_eq. apply bool_decide_eq_false_1. Qed.

(** ** The loop of [check_challenge_response] *)

(** One iteration on a valid candidate, by the verdict of its replay. *)
Lemma ccr_loop_step w tok passw opts id c cs cnt st v st1 :
  ch_valid c = true ->
  check_radius w tok passw (Some opts) (ch_data c) st = (Return v, st1) ->
  ccr_loop w tok passw opts ((id, c) :: cs) cnt st
  = if py_eq v (VInt 0) then (Return v, deleted id st1)
    else ccr_loop w tok passw opts cs (VInt (-1)) (counted id st1).
Proof.
  intros Hv Hc. simpl. rewrite Hv.
  rewrite (bind_return _ _ _ _ _ Hc).
  destruct (py_eq v (VInt 0)); reflexivity.
Qed.

Lemma ccr_loop_step_raise w tok passw opts id c cs cnt st e st1 :
  ch_valid c = true ->
  check_radius w tok passw (Some opts) (ch_data c) st = (Raise e, st1) ->
  ccr_loop w tok passw opts ((id, c) :: cs) cnt st = (Raise e, st1).
Proof.
  intros Hv Hc. simpl. rewrite Hv.
  rewrite (bind_raise _ _ _ _ _ Hc). reflexivity.
Qed.

Lemma ccr_loop_skip w tok passw opts id c cs cnt st :
  ch_valid c = false ->
  ccr_loop w tok passw opts ((id, c) :: cs) cnt st
  = ccr_loop w tok passw opts cs cnt st.
Proof. intros Hv. simpl. rewrite Hv. reflexivity. Qed.

(** Induction principle over the runs of the loop. *)
Lemma ccr_loop_ind w tok passw opts
    (P : list (nat * Challenge) -> value -> State -> result value -> State -> Prop) :
  (forall cnt st, P [] cnt st (Return cnt) st) ->
  (forall id c cs cnt st r st',
      ch_valid c = false ->
      ccr_loop w tok passw opts cs cnt st = (r, st') ->
      P cs cnt st r st' -> P ((id, c) :: cs) cnt st r st') ->
  (forall id c cs cnt st e st1,
      ch_valid c = true ->
      check_radius w tok passw (Some opts) (ch_data c) st = (Raise e, st1) ->
      P ((id, c) :: cs) cnt st (Raise e) st1) ->
  (forall id c cs cnt st st1,
      ch_valid c = true ->
      check_radius w tok passw (Some opts) (ch_data c) st
        = (Return (VInt 0), st1) ->
      P ((id, c) :: cs) cnt st (Return (VInt 0)) (deleted id st1)) ->
  (forall id c cs cnt st v st1 r st',
      ch_valid c = true ->
      check_radius w tok passw (Some opts) (ch_data c) st = (Return v, st1) ->
      v ≠ VInt 0 ->
      ccr_loop w tok passw opts cs (VInt (-1)) (counted id st1) = (r, st') ->
      P cs (VInt (-1)) (counted id st1) r st' ->
      P ((id, c) :: cs) cnt st r st') ->
  forall cs cnt st r st',
    ccr_loop w tok passw opts cs cnt st = (r, st') -> P cs cnt st r st'.
Proof.
  intros Hnil Hskip Hraise Hacc Hrej.
  induction cs as [|[id c] cs IH]; intros cnt st r st' H.
  - injection H as <- <-. apply Hnil.
  - destruct (ch_valid c) eqn:Hv.
    + destruct (check_radius w tok passw (Some opts) (ch_data c) st)
        as [[v|e] st1] eqn:Hc.
      * rewrite (ccr_loop_step _ _ _ _ _ _ _ _ _ _ _ Hv Hc) in H.
        destruct (py_eq v (VInt 0)) eqn:Hz.
        -- apply py_eq_true in Hz. subst v.
           injection H as <- <-. apply Hacc; assumption.
        -- apply py_eq_false in Hz. eapply Hrej; eauto.
      * rewrite (ccr_loop_step_raise _ _ _ _ _ _ _ _ _ _ _ Hv Hc) in H.
        injection H as <- <-. eapply Hraise; eauto.
    + rewrite (ccr_loop_skip _ _ _ _ _ _ _ _ _ Hv) in H.
      eapply Hskip; eauto.
Qed.

(** The loop returns its initial counter, 0 or -1, never sweeps, and
    raises only what [check_radius] raises. *)
Lemma ccr_loop_outcome w tok passw opts cs cnt st r st' :
  ccr_loop w tok passw opts cs cnt st = (r, st') ->
  sweeps st' = sweeps st
  /\ match r with
     | Return v => v = cnt \/ v = VInt 0 \/ v = VInt (-1)
     | Raise e => resolve_server w tok = Raise e \/ py_len passw = Raise e
     end.
Proof.
  revert cs cnt st r st'.
  apply (ccr_loop_ind w tok passw opts
    (fun cs cnt st r st' =>
       sweeps st' = sweeps st
       /\ match r with
          | Return v => v = cnt \/ v = VInt 0 \/ v = VInt (-1)
          | Raise e => resolve_server w tok = Raise e \/ py_len passw = Raise e
          end)).
  - intros cnt st. auto.
  - intros id c cs cnt st r st' _ _ IH. exact IH.
  - intros id c cs cnt st e st1 _ Hc. split.
    + apply (check_radius_challenges _ _ _ _ _ _ _ _ Hc).
    + pose proof (check_radius_outcome w tok passw (Some opts) (ch_data c) st) as Ho.
      rewrite Hc in Ho. exact Ho.
  - intros id c cs cnt st st1 _ Hc. split; [|auto].
    apply (check_radius_challenges _ _ _ _ _ _ _ _ Hc).
  - intros id c cs cnt st v st1 r st' _ Hc _ _ [IH1 IH2]. split.
    + rewrite IH1. apply (check_radius_challenges _ _ _ _ _ _ _ _ Hc).
    + destruct r; [|exact IH2]. destruct IH2 as [->|[->| ->]]; auto.
Qed.

(** The loop touches only the records it iterates over. *)
Lemma ccr_loop_other w tok passw opts cs cnt st r st' :
  ccr_loop w tok passw opts cs cnt st = (r, st') ->
  forall id, id ∉ cs.*1 -> challenges st' !! id = challenges st !! id.
Proof.
  revert cs cnt st r st'.
  apply (ccr_loop_ind w tok passw opts
    (fun cs cnt st r st' =>
       forall id, id ∉ cs.*1 ->
                  challenges st' !! id = challenges st !! id)).
  - reflexivity.
  - intros id c cs cnt st r st' _ _ IH j Hj. apply IH.
    intros Hin. apply Hj. simpl. right. exact Hin.
  - intros id c cs cnt st e st1 _ Hc j _.
    destruct (check_radius_challenges _ _ _ _ _ _ _ _ Hc) as [-> _]. reflexivity.
  - intros id c cs cnt st st1 _ Hc j Hj.
    destruct (check_radius_challenges _ _ _ _ _ _ _ _ Hc) as [E _].
    simpl. rewrite lookup_delete_ne, E; [reflexivity|].
    intros ->. apply Hj. simpl. left.
  - intros id c cs cnt st v st1 r st' _ Hc _ _ IH j Hj.
    destruct (check_radius_challenges _ _ _ _ _ _ _ _ Hc) as [E _].
    rewrite IH.
    + simpl. rewrite lookup_alter_ne, E; [reflexivity|].
      intros ->. apply Hj. simpl. left.
    + intros Hin. apply Hj. simpl. right. exact Hin.
Qed.

(** When the loop ends with 0 although it started with another counter,
    some valid candidate was accepted, and its record is gone. *)
Lemma ccr_loop_accepted w tok passw opts cs cnt st r st' :
  ccr_loop w tok passw opts cs cnt st = (r, st') ->
  r = Return (VInt 0) -> cnt ≠ VInt 0 ->
  exists id c,
    (id, c) ∈ cs /\ ch_valid c = true /\ challenges st' !! id = None.
Proof.
  revert cs cnt st r st'.
  apply (ccr_loop_ind w tok passw opts
    (fun cs cnt st r st' =>
       r = Return (VInt 0) -> cnt ≠ VInt 0 ->
       exists id c,
         (id, c) ∈ cs /\ ch_valid c = true /\ challenges st' !! id = None)).
  - intros cnt st [= <-] Hne. congruence.
  - intros id c cs cnt st r st' _ _ IH Hr Hne.
    destruct (IH Hr Hne) as (j & c' & Hin & Hv & Hd).
    exists j, c'. split; [right; exact Hin | auto].
  - intros id c cs cnt st e st1 _ _ Hr. discriminate.
  - intros id c cs cnt st st1 Hv _ _ _.
    exists id, c. split; [left | split; [exact Hv|]].
    simpl. apply lookup_delete_eq.
  - intros id c cs cnt st v st1 r st' _ _ _ _ IH Hr _.
    destruct (IH Hr) as (j & c' & Hin & Hv' & Hd); [discriminate|].
    exists j, c'. split; [right; exact Hin | auto].
Qed.

(** A prefix that ended without an accepted candidate is followed by the
    loop over the rest. *)
Lemma ccr_loop_app w tok passw opts pre cnt st r st1 :
  ccr_loop w tok passw opts pre cnt st = (r, st1) ->
  forall v rest,
    r = Return v -> v ≠ VInt 0 ->
    ccr_loop w tok passw opts (pre ++ rest) cnt st
    = ccr_loop w tok passw opts rest v st1.
Proof.
  revert pre cnt st r st1.
  apply (ccr_loop_ind w tok passw opts
    (fun pre cnt st r st1 =>
       forall v rest,
         r = Return v -> v ≠ VInt 0 ->
         ccr_loop w tok passw opts (pre ++ rest) cnt st
         = ccr_loop w tok passw opts rest v st1)).
  - intros cnt st v rest [= <-] _. reflexivity.
  - intros id c cs cnt st r st' Hv _ IH v rest Hr Hne.
    change (((id, c) :: cs) ++ rest)%list with ((id, c) :: (cs ++ rest)%list).
    rewrite (ccr_loop_skip _ _ _ _ _ _ _ _ _ Hv). apply IH; assumption.
  - intros id c cs cnt st e st1 _ _ v rest Hr. discriminate.
  - intros id c cs cnt st st1 _ _ v rest [= <-] Hne. congruence.
  - intros id c cs cnt st v0 st1 r st' Hv Hc Hne0 _ IH v rest Hr Hne.
    change (((id, c) :: cs) ++ rest)%list with ((id, c) :: (cs ++ rest)%list).
    rewrite (ccr_loop_step _ _ _ _ _ _ _ _ _ _ _ Hv Hc).
    destruct (py_eq v0 (VInt 0)) eqn:E;
      [apply py_eq_true in E; congruence|].
    apply IH; assumption.
Qed.

Lemma fetch_transaction_id_eq st l d :
  heap st !! l = Some d ->
  fetch_transaction_id l st = (Return (transaction_of d), st).
Proof.
  intros Hl. unfold fetch_transaction_id, transaction_of.
  rewrite (bind_return _ _ _ _ _ (dict_get_lookup _ _ _ _ Hl)).
  destruct (py_eq (default VNone (d !! "transaction_id")) VNone);
    [apply (dict_get_lookup _ _ _ _ Hl) | reflexivity].
Qed.

(** [check_challenge_response] is its loop followed by the janitor. *)
Lemma check_challenge_response_unfold w tok user passw options st opts st0 d :
  options_or_empty options st = (Return opts, st0) ->
  heap st0 !! opts = Some d ->
  check_challenge_response w tok user passw options st
  = if negb (py_eq (transaction_of d) VNone) then
      match ccr_loop w tok passw opts
              (candidates tok (transaction_of d) st0) (VInt (-1)) st0 with
      | (Return v, st1) => (Return v, swept tok st1)
      | (Raise e, st1) => (Raise e, st1)
      end
    else (Return (VInt (-1)), swept tok st0).
Proof.
  intros Ho Hl. unfold check_challenge_response.
  rewrite (bind_return _ _ _ _ _ Ho).
  rewrite (bind_return _ _ _ _ _ (fetch_transaction_id_eq _ _ _ Hl)).
  destruct (negb (py_eq (transaction_of d) VNone)).
  - rewrite bind_eq. rewrite bind_eq.
    unfold get_challenges at 1. fold (candidates tok (transaction_of d) st0).
    destruct (ccr_loop w tok passw opts (candidates tok (transaction_of d) st0)
                (VInt (-1)) st0) as [[v|e] st1]; reflexivity.
  - reflexivity.
Qed.

Lemma candidates_NoDup tok tx st : NoDup (candidates tok tx st).*1.
Proof.
  unfold candidates.
  eapply sublist_NoDup; [apply (NoDup_fst_map_to_list (challenges st))|].
  apply fmap_sublist, sublist_filter.
Qed.

Lemma candidates_lookup tok tx st id c :
  (id, c) ∈ candidates tok tx st -> challenges st !! id = Some c.
Proof.
  unfold candidates. intros [_ H]%list_elem_of_filter.
  apply elem_of_map_to_list in H. exact H.
Qed.

Lemma swept_keeps_valid tok st id c :
  challenges st !! id = Some c -> ch_valid c = true ->
  challenges (swept tok st) !! id = Some c.
Proof.
  intros Hl Hv. simpl. apply map_lookup_filter_Some_2; [exact Hl|].
  simpl. unfold expired_of. rewrite Hv. apply andb_false_r.
Qed.

Lemma swept_keeps_absent tok st id :
  challenges st !! id = None -> challenges (swept tok st) !! id = None.
Proof. intros Hl. simpl. apply map_lookup_filter_None. left. exact Hl. Qed.

Lemma split_NoDup_middle (pre post : list (nat * Challenge)) id c :
  NoDup (fst <$> (pre ++ ((id, c) :: post))%list) ->
  (id ∉ (fst <$> pre)) /\ (id ∉ (fst <$> post)).
Proof.
  rewrite fmap_app, fmap_cons. simpl.
  intros (_ & Hpre & Hpost)%NoDup_app.
  apply NoDup_cons in Hpost as [Hpost _]. split; [|exact Hpost].
  intros Hin. apply (Hpre _ Hin). left.
Qed.

Lemma transaction_nonempty (d : gmap string value) :
  transaction_of d ≠ VNone -> d ≠ ∅.
Proof.
  intros H ->. apply H. unfold transaction_of.
  rewrite !lookup_empty. reflexivity.
Qed.

(** C6.  (1) Whenever [check_challenge_response] returns, the janitor ran
    exactly once and the value is 0 or -1; it raises only what
    [check_radius] raises while the server settings are resolved.
    (2) For a valid challenge [(id, c)] of the transaction that the loop
    reaches (no earlier candidate was accepted), by the verdict [v] of
    replaying its stored state through [check_radius]: if [v] is 0 the
    record is deleted and the call returns 0; otherwise the record stays
    with its receive count incremented, and the call returns -1 unless a
    later candidate is accepted (and then deleted); with no valid candidate
    left it returns -1. *)
Theorem check_challenge_response_spec :
  (forall w tok user passw options st,
      match check_challenge_response w tok user passw options st with
      | (Return v, st') =>
          sweeps st' = S (sweeps st) /\ (v = VInt 0 \/ v = VInt (-1))
      | (Raise e, _) =>
          resolve_server w tok = Raise e \/ py_len passw = Raise e
      end)
  /\
  (forall w tok user passw st l d pre id c post st1 v st2,
      heap st !! l = Some d ->
      transaction_of d ≠ VNone ->
      candidates tok (transaction_of d) st = (pre ++ ((id, c) :: post))%list ->
      ch_valid c = true ->
      ccr_loop w tok passw l pre (VInt (-1)) st = (Return (VInt (-1)), st1) ->
      check_radius w tok passw (Some l) (ch_data c) st1 = (Return v, st2) ->
      (v = VInt 0 ->
       check_challenge_response w tok user passw (Some l) st
         = (Return (VInt 0), swept tok (deleted id st2))
       /\ challenges (swept tok (deleted id st2)) !! id = None)
      /\ (v ≠ VInt 0 ->
          challenges (counted id st2) !! id = Some (bump c)
          /\ (Forall (fun p => ch_valid p.2 = false) post ->
              check_challenge_response w tok user passw (Some l) st
                = (Return (VInt (-1)), swept tok (counted id st2)))
          /\ forall r st',
              check_challenge_response w tok user passw (Some l) st
                = (Return r, st') ->
              challenges st' !! id = Some (bump c)
              /\ (r = VInt (-1)
                  \/ (r = VInt 0
                      /\ exists id' c',
                          (id', c') ∈ post /\ ch_valid c' = true
                          /\ challenges st' !! id' = None)))).
Proof.
  split.
  - intros w tok user passw options st.
    destruct (options_or_empty_spec options st)
      as (opts & st0 & d & Ho & Hl & [_ Hsw] & _).
    rewrite (check_challenge_response_unfold _ _ _ _ _ _ _ _ _ Ho Hl).
    destruct (negb (py_eq (transaction_of d) VNone)).
    + destruct (ccr_loop w tok passw opts (candidates tok (transaction_of d) st0)
                  (VInt (-1)) st0) as [[v|e] st1] eqn:E;
        destruct (ccr_loop_outcome _ _ _ _ _ _ _ _ _ E) as [Hs Hr].
      * split; [simpl; congruence|]. destruct Hr as [->|[->| ->]]; auto.
      * exact Hr.
    + split; [simpl; congruence | auto].
  - intros w tok user passw st l d pre id c post st1 v st2
           Hl Htx Hcs Hv Hpre Hc.
    pose proof (options_or_empty_alias _ _ _ Hl (transaction_nonempty _ Htx)) as Ho.
    pose proof (check_challenge_response_unfold w tok user passw _ _ _ _ _ Ho Hl)
      as Hunf.
    assert (Hneg : negb (py_eq (transaction_of d) VNone) = true).
    { unfold py_eq. rewrite bool_decide_eq_false_2 by exact Htx. reflexivity. }
    rewrite Hneg, Hcs in Hunf.
    rewrite (ccr_loop_app _ _ _ _ _ _ _ _ _ Hpre (VInt (-1)) _ eq_refl) in Hunf
      by discriminate.
    rewrite (ccr_loop_step _ _ _ _ _ _ _ _ _ _ _ Hv Hc) in Hunf.
    pose proof (candidates_NoDup tok (transaction_of d) st) as Hnd.
    rewrite Hcs in Hnd. apply split_NoDup_middle in Hnd as [Hnpre Hnpost].
    assert (Hin : challenges st !! id = Some c).
    { apply (candidates_lookup tok (transaction_of d)). rewrite Hcs.
      apply elem_of_app. right. left. }
    assert (H2 : challenges st2 !! id = Some c).
    { destruct (check_radius_challenges _ _ _ _ _ _ _ _ Hc) as [-> _].
      rewrite (ccr_loop_other _ _ _ _ _ _ _ _ _ Hpre id Hnpre). exact Hin. }
    assert (Hcnt : challenges (counted id st2) !! id = Some (bump c)).
    { simpl. rewrite lookup_alter_eq, H2. reflexivity. }
    split; [|split; [|split]].
    + intros ->. rewrite Hunf.
      split; [reflexivity|]. apply swept_keeps_absent. simpl.
      apply lookup_delete_eq.
    + exact Hcnt.
    + intros Hinv.
      assert (Hskip : forall cs st0,
        Forall (fun p : nat * Challenge => ch_valid p.2 = false) cs ->
        ccr_loop w tok passw l cs (VInt (-1)) st0 = (Return (VInt (-1)), st0)).
      { induction cs as [|[j cj] cs IH]; intros st0 HF; [reflexivity|].
        apply Forall_cons in HF as [Hj HF]. simpl in Hj.
        rewrite (ccr_loop_skip _ _ _ _ _ _ _ _ _ Hj). apply IH, HF. }
      rewrite Hunf.
      destruct (py_eq v (VInt 0)) eqn:E; [apply py_eq_true in E; congruence|].
      rewrite (Hskip post _ Hinv). reflexivity.
    + intros r st' Hret. rewrite Hunf in Hret.
      destruct (py_eq v (VInt 0)) eqn:E; [apply py_eq_true in E; congruence|].
      destruct (ccr_loop w tok passw l post (VInt (-1)) (counted id st2))
        as [[r'|e] st3] eqn:Hpost; [|discriminate].
      injection Hret as <- <-.
      pose proof (ccr_loop_other _ _ _ _ _ _ _ _ _ Hpost id Hnpost) as Hoth.
      split.
      * apply swept_keeps_valid; [rewrite Hoth; exact Hcnt | exact Hv].
      * destruct (ccr_loop_outcome _ _ _ _ _ _ _ _ _ Hpost) as [_ [->|[->| ->]]];
          auto.
        right. split; [reflexivity|].
        destruct (ccr_loop_accepted _ _ _ _ _ _ _ _ _ Hpost eq_refl)
          as (j & cj & Hj & Hvj & Hdj); [discriminate|].
        exists j, cj. split; [exact Hj|]. split; [exact Hvj|].
        apply swept_keeps_absent, Hdj.
Qed.

Lemma check_challenge_response_spec_witness :
  let w := Example.world (Example.net_always Example.reply_accept) in
  let st := Example.state_of Example.ctx_response Example.one_challenge in
  let st2 := (check_radius w Example.tok (OStr "123456") (Some 0%nat)
                (VStr "S0") st).2 in
  check_challenge_response w Example.tok ONone (OStr "123456") (Some 0%nat) st
    = (Return (VInt 0), swept Example.tok (deleted 1%nat st2))
  /\ challenges (swept Example.tok (deleted 1%nat st2)) !! 1%nat = None
  /\ sweeps (swept Example.tok (deleted 1%nat st2)) = 1%nat.
Proof.
  intros w st st2.
  assert (H : check_challenge_response w Example.tok ONone (OStr "123456")
                (Some 0%nat) st
              = (Return (VInt 0), swept Example.tok (deleted 1%nat st2))
              /\ challenges (swept Example.tok (deleted 1%nat st2)) !! 1%nat
                 = None).
  { apply (proj2 check_challenge_response_spec
             w Example.tok ONone (OStr "123456") st 0%nat
             Example.ctx_response [] 1%nat (Example.challenge_of "S0") []
             st (VInt 0) st2).
    - reflexivity.
    - vm_compute. discriminate.
    - vm_compute. reflexivity.
    - reflexivity.
    - reflexivity.
    - vm_compute. reflexivity.
    - reflexivity. }
  destruct H as [H1 H2]. split; [exact H1|]. split; [exact H2|].
  pose proof (proj1 check_challenge_response_spec
                w Example.tok ONone (OStr "123456") (Some 0%nat) st) as Hs.
  rewrite H1 in Hs. destruct Hs as [Hs _]. exact Hs.
Defined.

(** ** The loop of [is_challenge_response] *)

Lemma icr_loop_step w tok otpval opts id c cs flag st v st1 :
  ch_valid c = true ->
  check_radius w tok otpval (Some opts) (ch_data c) st = (Return v, st1) ->
  icr_loop w tok otpval opts ((id, c) :: cs) flag st
  = if py_eq v (VInt 1)
    then icr_loop w tok otpval opts cs flag (swept tok (deleted id st1))
    else icr_loop w tok otpval opts cs true st1.
Proof.
  intros Hv Hc. simpl. rewrite Hv.
  rewrite (bind_return _ _ _ _ _ Hc).
  destruct (py_eq v (VInt 1)); reflexivity.
Qed.

Lemma icr_loop_step_raise w tok otpval opts id c cs flag st e st1 :
  ch_valid c = true ->
  check_radius w tok otpval (Some opts) (ch_data c) st = (Raise e, st1) ->
  icr_loop w tok otpval opts ((id, c) :: cs) flag st = (Raise e, st1).
Proof.
  intros Hv Hc. simpl. rewrite Hv.
  rewrite (bind_raise _ _ _ _ _ Hc). reflexivity.
Qed.

Lemma icr_loop_skip w tok otpval opts id c cs flag st :
  ch_valid c = false ->
  icr_loop w tok otpval opts ((id, c) :: cs) flag st
  = icr_loop w tok otpval opts cs flag st.
Proof. intros Hv. simpl. rewrite Hv. reflexivity. Qed.

Lemma icr_loop_ind w tok otpval opts
    (P : list (nat * Challenge) -> bool -> State -> result bool -> State -> Prop) :
  (forall flag st, P [] flag st (Return flag) st) ->
  (forall id c cs flag st r st',
      ch_valid c = false ->
      icr_loop w tok otpval opts cs flag st = (r, st') ->
      P cs flag st r st' -> P ((id, c) :: cs) flag st r st') ->
  (forall id c cs flag st e st1,
      ch_valid c = true ->
      check_radius w tok otpval (Some opts) (ch_data c) st = (Raise e, st1) ->
      P ((id, c) :: cs) flag st (Raise e) st1) ->
  (forall id c cs flag st st1 r st',
      ch_valid c = true ->
      check_radius w tok otpval (Some opts) (ch_data c) st
        = (Return (VInt 1), st1) ->
      icr_loop w tok otpval opts cs flag (swept tok (deleted id st1)) = (r, st') ->
      P cs flag (swept tok (deleted id st1)) r st' ->
      P ((id, c) :: cs) flag st r st') ->
  (forall id c cs flag st v st1 r st',
      ch_valid c = true ->
      check_radius w tok otpval (Some opts) (ch_data c) st = (Return v, st1) ->
      v ≠ VInt 1 ->
      icr_loop w tok otpval opts cs true st1 = (r, st') ->
      P cs true st1 r st' ->
      P ((id, c) :: cs) flag st r st') ->
  forall cs flag st r st',
    icr_loop w tok otpval opts cs flag st = (r, st') -> P cs flag st r st'.
Proof.
  intros Hnil Hskip Hraise Hchal Hres.
  induction cs as [|[id c] cs IH]; intros flag st r st' H.
  - injection H as <- <-. apply Hnil.
  - destruct (ch_valid c) eqn:Hv.
    + destruct (check_radius w tok otpval (Some opts) (ch_data c) st)
        as [[v|e] st1] eqn:Hc.
      * rewrite (icr_loop_step _ _ _ _ _ _ _ _ _ _ _ Hv Hc) in H.
        destruct (py_eq v (VInt 1)) eqn:Hz.
        -- apply py_eq_true in Hz. subst v. eapply Hchal; eauto.
        -- apply py_eq_false in Hz. eapply Hres; eauto.
      * rewrite (icr_loop_step_raise _ _ _ _ _ _ _ _ _ _ _ Hv Hc) in H.
        injection H as <- <-. eapply Hraise; eauto.
    + rewrite (icr_loop_skip _ _ _ _ _ _ _ _ _ Hv) in H.
      eapply Hskip; eauto.
Qed.

(** Once set, the flag stays set. *)
Lemma icr_loop_true w tok otpval opts cs flag st r st' :
  icr_loop w tok otpval opts cs flag st = (r, st') ->
  forall f, flag = true -> r = Return f -> f = true.
Proof.
  revert cs flag st r st'.
  apply (icr_loop_ind w tok otpval opts
    (fun cs flag st r st' => forall f, flag = true -> r = Return f -> f = true)).
  - intros flag st f -> [= <-]. reflexivity.
  - intros id c cs flag st r st' _ _ IH. exact IH.
  - intros id c cs flag st e st1 _ _ f _ Hr. discriminate.
  - intros id c cs flag st st1 r st' _ _ _ IH. exact IH.
  - intros id c cs flag st v st1 r st' _ _ _ _ IH f _ Hr. apply IH; auto.
Qed.

(** The loop only removes records and never undoes a sweep. *)
Lemma icr_loop_absent w tok otpval opts cs flag st r st' :
  icr_loop w tok otpval opts cs flag st = (r, st') ->
  (forall id, challenges st !! id = None -> challenges st' !! id = None)
  /\ (sweeps st <= sweeps st')%nat.
Proof.
  revert cs flag st r st'.
  apply (icr_loop_ind w tok otpval opts
    (fun cs flag st r st' =>
       (forall id, challenges st !! id = None -> challenges st' !! id = None)
       /\ (sweeps st <= sweeps st')%nat)).
  - intros flag st. split; [auto | lia].
  - intros id c cs flag st r st' _ _ IH. exact IH.
  - intros id c cs flag st e st1 _ Hc.
    destruct (check_radius_challenges _ _ _ _ _ _ _ _ Hc) as [-> ->].
    split; [auto | lia].
  - intros id c cs flag st st1 r st' _ Hc _ [IH1 IH2].
    destruct (check_radius_challenges _ _ _ _ _ _ _ _ Hc) as [E1 E2].
    split.
    + intros j Hj. apply IH1, swept_keeps_absent. simpl.
      rewrite E1. destruct (decide (id = j)) as [->|Hne].
      * apply lookup_delete_eq.
      * rewrite lookup_delete_ne by exact Hne. exact Hj.
    + simpl in IH2. lia.
  - intros id c cs flag st v st1 r st' _ Hc _ _ [IH1 IH2].
    destruct (check_radius_challenges _ _ _ _ _ _ _ _ Hc) as [E1 E2].
    split.
    + intros j Hj. apply IH1. rewrite E1. exact Hj.
    + lia.
Qed.

(** A prefix that ran to its end is followed by the loop over the rest. *)
Lemma icr_loop_app w tok otpval opts pre flag st r st1 :
  icr_loop w tok otpval opts pre flag st = (r, st1) ->
  forall f rest,
    r = Return f ->
    icr_loop w tok otpval opts (pre ++ rest) flag st
    = icr_loop w tok otpval opts rest f st1.
Proof.
  revert pre flag st r st1.
  apply (icr_loop_ind w tok otpval opts
    (fun pre flag st r st1 =>
       forall f rest,
         r = Return f ->
         icr_loop w tok otpval opts (pre ++ rest) flag st
         = icr_loop w tok otpval opts rest f st1)).
  - intros flag st f rest [= <-]. reflexivity.
  - intros id c cs flag st r st' Hv _ IH f rest Hr.
    change (((id, c) :: cs) ++ rest)%list with ((id, c) :: (cs ++ rest)%list).
    rewrite (icr_loop_skip _ _ _ _ _ _ _ _ _ Hv). apply IH; assumption.
  - intros id c cs flag st e st1 _ _ f rest Hr. discriminate.
  - intros id c cs flag st st1 r st' Hv Hc _ IH f rest Hr.
    change (((id, c) :: cs) ++ rest)%list with ((id, c) :: (cs ++ rest)%list).
    rewrite (icr_loop_step _ _ _ _ _ _ _ _ _ _ _ Hv Hc).
    change (py_eq (VInt 1) (VInt 1)) with true. cbv iota. apply IH; assumption.
  - intros id c cs flag st v st1 r st' Hv Hc Hne _ IH f rest Hr.
    change (((id, c) :: cs) ++ rest)%list with ((id, c) :: (cs ++ rest)%list).
    rewrite (icr_loop_step _ _ _ _ _ _ _ _ _ _ _ Hv Hc).
    destruct (py_eq v (VInt 1)) eqn:E;
      [apply py_eq_true in E; congruence|].
    apply IH; assumption.
Qed.

Lemma icr_loop_invalid w tok otpval opts cs flag st :
  Forall (fun p : nat * Challenge => ch_valid p.2 = false) cs ->
  icr_loop w tok otpval opts cs flag st = (Return flag, st).
Proof.
  revert st. induction cs as [|[j cj] cs IH]; intros st HF; [reflexivity|].
  apply Forall_cons in HF as [Hj HF]. simpl in Hj.
  rewrite (icr_loop_skip _ _ _ _ _ _ _ _ _ Hj). apply IH, HF.
Qed.

Lemma transaction_of_reset d v :
  transaction_of (<["radius_result" := v]> d) = transaction_of d.
Proof.
  unfold transaction_of. rewrite !lookup_insert_ne by discriminate.
  reflexivity.
Qed.

(** [is_challenge_response] is its loop, started with the cached verdict
    reset. *)
Lemma is_challenge_response_unfold w tok passw user options st opts st0 d :
  options_or_empty options st = (Return opts, st0) ->
  heap st0 !! opts = Some d ->
  is_challenge_response w tok passw user options st
  = if truthy (transaction_of d) then
      icr_loop w tok passw opts (candidates tok (transaction_of d) st0)
               false (entered opts d st0)
    else (Return false, entered opts d st0).
Proof.
  intros Ho Hl. unfold is_challenge_response.
  rewrite (bind_return _ _ _ _ _ Ho).
  rewrite (bind_return _ _ _ _ _ (dict_update_lookup _ _ _ _ _ Hl)).
  rewrite (bind_return _ _ _ _ _
             (fetch_transaction_id_eq _ _ _ (heap_insert_lookup _ _ _ _ Hl))).
  rewrite transaction_of_reset.
  destruct (truthy (transaction_of d)); reflexivity.
Qed.

Lemma truthy_not_none v : truthy v = true -> v ≠ VNone.
Proof. intros H ->. discriminate. Qed.

(** C7, as the code has it.  (1) The call does not depend on the cached
    verdict the context comes with: line 236 overwrites it with [None]
    before the loop.  (2) For a valid challenge [(id, c)] of the
    transaction, by the verdict [v] of replaying its stored state through
    [check_radius]: if [v] is 1 the record is deleted and the janitor runs,
    and the call returns false when no earlier candidate was resolved and
    no valid candidate is left; if [v] is not 1 the call, when it returns,
    returns true. *)
Theorem is_challenge_response_spec :
  (forall w tok passw user st l d,
      heap st !! l = Some d -> d ≠ ∅ ->
      is_challenge_response w tok passw user (Some l) st
      = is_challenge_response w tok passw user (Some l) (entered l d st)
      /\ deref (heap (entered l d st)) l !! "radius_result" = Some VNone)
  /\
  (forall w tok passw user st l d pre id c post f st1 v st2,
      heap st !! l = Some d ->
      truthy (transaction_of d) = true ->
      candidates tok (transaction_of d) st = (pre ++ ((id, c) :: post))%list ->
      ch_valid c = true ->
      icr_loop w tok passw l pre false (entered l d st) = (Return f, st1) ->
      check_radius w tok passw (Some l) (ch_data c) st1 = (Return v, st2) ->
      (v = VInt 1 ->
       is_challenge_response w tok passw user (Some l) st
         = icr_loop w tok passw l post f (swept tok (deleted id st2))
       /\ challenges (swept tok (deleted id st2)) !! id = None
       /\ sweeps (swept tok (deleted id st2)) = S (sweeps st2)
       /\ (forall r st',
              is_challenge_response w tok passw user (Some l) st = (r, st') ->
              challenges st' !! id = None /\ (sweeps st < sweeps st')%nat)
       /\ (f = false ->
           Forall (fun p => ch_valid p.2 = false) post ->
           is_challenge_response w tok passw user (Some l) st
             = (Return false, swept tok (deleted id st2))))
      /\ (v ≠ VInt 1 ->
          (forall r st',
              is_challenge_response w tok passw user (Some l) st
                = (Return r, st') -> r = true)
          /\ (Forall (fun p => ch_valid p.2 = false) post ->
              is_challenge_response w tok passw user (Some l) st
                = (Return true, st2)))).
Proof.
  split.
  - intros w tok passw user st l d Hl Hd. split.
    + rewrite (is_challenge_response_unfold _ _ _ _ _ _ _ _ _
                 (options_or_empty_alias _ _ _ Hl Hd) Hl).
      assert (Hl' : heap (entered l d st) !! l
                    = Some (<["radius_result" := VNone]> d))
        by apply (heap_insert_lookup _ _ _ _ Hl).
      rewrite (is_challenge_response_unfold _ _ _ _ _ _ _ _ _
                 (options_or_empty_alias _ _ _ Hl'
                    (lookup_nonempty _ "radius_result" VNone
                       (lookup_insert_eq _ _ _))) Hl').
      rewrite transaction_of_reset.
      assert (He : entered l (<["radius_result" := VNone]> d) (entered l d st)
                   = entered l d st).
      { unfold entered, set_heap. simpl.
        rewrite list_insert_insert_eq, insert_insert_eq. reflexivity. }
      rewrite He. reflexivity.
    + unfold deref, entered. rewrite (heap_insert_lookup _ _ _ _ Hl).
      apply lookup_insert_eq.
  - intros w tok passw user st l d pre id c post f st1 v st2
           Hl Htx Hcs Hv Hpre Hc.
    pose proof (options_or_empty_alias _ _ _ Hl
                  (transaction_nonempty _ (truthy_not_none _ Htx))) as Ho.
    pose proof (is_challenge_response_unfold w tok passw user _ _ _ _ _ Ho Hl)
      as Hunf.
    rewrite Htx, Hcs in Hunf.
    rewrite (icr_loop_app _ _ _ _ _ _ _ _ _ Hpre f _ eq_refl) in Hunf.
    rewrite (icr_loop_step _ _ _ _ _ _ _ _ _ _ _ Hv Hc) in Hunf.
    assert (Hsw : (sweeps st <= sweeps st2)%nat).
    { destruct (icr_loop_absent _ _ _ _ _ _ _ _ _ Hpre) as [_ H1].
      destruct (check_radius_challenges _ _ _ _ _ _ _ _ Hc) as [_ H2].
      simpl in H1. lia. }
    split.
    + intros ->. change (py_eq (VInt 1) (VInt 1)) with true in Hunf.
      cbv iota in Hunf.
      assert (Hgone : challenges (swept tok (deleted id st2)) !! id = None).
      { apply swept_keeps_absent. simpl. apply lookup_delete_eq. }
      split; [exact Hunf|]. split; [exact Hgone|]. split; [reflexivity|].
      split.
      * intros r st' Hret. rewrite Hunf in Hret.
        destruct (icr_loop_absent _ _ _ _ _ _ _ _ _ Hret) as [Ha Hs].
        split; [apply Ha, Hgone|]. simpl in Hs. lia.
      * intros -> Hinv. rewrite Hunf. apply icr_loop_invalid, Hinv.
    + intros Hne.
      destruct (py_eq v (VInt 1)) eqn:E; [apply py_eq_true in E; congruence|].
      split.
      * intros r st' Hret. rewrite Hunf in Hret.
        apply (icr_loop_true _ _ _ _ _ _ _ _ _ Hret r eq_refl eq_refl).
      * intros Hinv. rewrite Hunf. apply icr_loop_invalid, Hinv.
Qed.

Lemma is_challenge_response_spec_witness :
  let w := Example.world (Example.net_always Example.reply_challenge) in
  let st := Example.state_of Example.ctx_response Example.one_challenge in
  let st2 := (check_radius w Example.tok (OStr "123456") (Some 0%nat)
                (VStr "S0") (entered 0%nat Example.ctx_response st)).2 in
  is_challenge_response w Example.tok (OStr "123456") ONone (Some 0%nat) st
    = (Return false, swept Example.tok (deleted 1%nat st2))
  /\ challenges (swept Example.tok (deleted 1%nat st2)) !! 1%nat = None
  /\ is_challenge_response w Example.tok (OStr "123456") ONone (Some 0%nat) st
     = is_challenge_response w Example.tok (OStr "123456") ONone (Some 0%nat)
         (entered 0%nat Example.ctx_response st).
Proof.
  intros w st st2.
  destruct (proj2 is_challenge_response_spec
              w Example.tok (OStr "123456") ONone st 0%nat
              Example.ctx_response [] 1%nat (Example.challenge_of "S0") []
              false (entered 0%nat Example.ctx_response st) (VInt 1) st2)
    as [H _].
  - reflexivity.
  - vm_compute. reflexivity.
  - vm_compute. reflexivity.
  - reflexivity.
  - reflexivity.
  - vm_compute. reflexivity.
  - destruct (H eq_refl) as (_ & Hgone & _ & _ & Hret).
    split; [apply Hret; [reflexivity | constructor]|].
    split; [exact Hgone|].
    apply (proj1 is_challenge_response_spec
             w Example.tok (OStr "123456") ONone st 0%nat Example.ctx_response).
    + reflexivity.
    + apply (lookup_nonempty _ "clientip" (VStr "192.0.2.7")).
      vm_compute. reflexivity.
Defined.

(** C7 as stated fails when another candidate of the transaction was
    resolved: with two valid challenges, a first replay that times out
    (verdict -1) and a second replay that the server challenges again
    (verdict 1), the record replayed second is deleted and the call returns
    true. *)
Lemma is_challenge_response_rechallenged_true :
  let w := Example.world Example.net_timeout_then_challenge in
  let st := Example.state_of Example.ctx_response Example.two_challenges in
  let c1 := Example.challenge_of "S0" in
  let c2 := Example.challenge_of "S0b" in
  candidates Example.tok (VStr "tx1") st = [(2%nat, c2); (1%nat, c1)]
  /\ ch_valid c1 = true
  /\ exists st1 st2 st',
       icr_loop w Example.tok (OStr "123456") 0%nat [(2%nat, c2)] false
         (entered 0%nat Example.ctx_response st) = (Return true, st1)
       /\ check_radius w Example.tok (OStr "123456") (Some 0%nat)
            (ch_data c1) st1 = (Return (VInt 1), st2)
       /\ is_challenge_response w Example.tok (OStr "123456") ONone
            (Some 0%nat) st = (Return true, st')
       /\ challenges st' !! 1%nat = None.
Proof.
  intros w st c1 c2. split; [vm_compute; reflexivity|].
  split; [reflexivity|].
  do 3 eexists. split; [vm_compute; reflexivity|].
  split; [vm_compute; reflexivity|].
  split; vm_compute; reflexivity.
Qed.

(** * Further properties *)

(** ** The outcomes of [check_radius] *)

Lemma check_radius_fast_at w tok otpval options rs st opts st0 d (accept : bool) :
  options_or_empty options st = (Return opts, st0) ->
  heap st0 !! opts = Some d ->
  d !! "radius_state"
    = Some (VStr (if accept then "<SUCCESS>" else "<REJECTED>")) ->
  check_radius w tok otpval options rs st
  = (Return (VInt (if accept then 0 else -1)),
     set_heap (<[opts := <["radius_message" := VNone]>
                            (<["radius_state" := VNone]> d)]> (heap st0)) st0).
Proof.
  intros Ho Hl Hs. unfold check_radius.
  rewrite (bind_return _ _ _ _ _ Ho).
  rewrite (bind_return _ _ _ _ _ (dict_get_lookup _ _ _ _ Hl)).
  rewrite Hs. simpl default.
  assert (Hupd : forall v : Z,
    (dict_update opts "radius_state" VNone;;
     dict_update opts "radius_message" VNone;; mret (VInt v)) st0
    = (Return (VInt v),
       set_heap (<[opts := <["radius_message" := VNone]>
                              (<["radius_state" := VNone]> d)]> (heap st0)) st0)).
  { intros v.
    rewrite (bind_return _ _ _ _ _ (dict_update_lookup _ _ _ _ _ Hl)).
    rewrite (bind_return _ _ _ _ _
               (dict_update_lookup _ _ _ _ _ (heap_insert_lookup _ _ _ _ Hl))).
    simpl. rewrite list_insert_insert_eq. reflexivity. }
  destruct accept.
  - replace (py_eq (VStr "<SUCCESS>") (VStr "<SUCCESS>")) with true by reflexivity.
    apply Hupd.
  - replace (py_eq (VStr "<REJECTED>") (VStr "<SUCCESS>")) with false by reflexivity.
    replace (py_eq (VStr "<REJECTED>") (VStr "<REJECTED>")) with true by reflexivity.
    apply Hupd.
Qed.

(** Every run of [check_radius] is one of four: a sentinel fast path, an
    exception while the server settings are resolved, an exception of
    [len(otpval)], or the [try] block followed by the three writes. *)
Lemma check_radius_cases w tok otpval options rs st opts st0 d :
  options_or_empty options st = (Return opts, st0) ->
  heap st0 !! opts = Some d ->
  (exists accept : bool,
      d !! "radius_state"
        = Some (VStr (if accept then "<SUCCESS>" else "<REJECTED>"))
      /\ check_radius w tok otpval options rs st
         = (Return (VInt (if accept then 0 else -1)),
            set_heap (<[opts := <["radius_message" := VNone]>
                                   (<["radius_state" := VNone]> d)]> (heap st0))
                     st0))
  \/ (sentinel d = false
      /\ ((exists e,
              resolve_server w tok = Raise e
              /\ check_radius w tok otpval options rs st = (Raise e, st0))
          \/ (exists cfg e,
                 resolve_server w tok = Return cfg
                 /\ py_len otpval = Raise e
                 /\ check_radius w tok otpval options rs st = (Raise e, st0))
          \/ (exists cfg otp exc lc st3,
                 resolve_server w tok = Return cfg
                 /\ py_len otpval = Return otp
                 /\ radius_try w tok otp opts cfg (initial_locals rs) (at_try st0)
                    = (Return (exc, lc), st3)
                 /\ check_radius w tok otpval options rs st
                    = (Return (VInt (l_result lc)),
                       set_heap (<[opts := written lc d]> (heap st3))
                                (logged exc st3))))).
Proof.
  intros Ho Hl. destruct (sentinel d) eqn:Hs.
  - left. destruct (sentinel_true _ Hs) as [accept Ha].
    exists accept. split; [exact Ha|].
    apply (check_radius_fast_at _ _ _ _ _ _ _ _ _ _ Ho Hl Ha).
  - right. split; [reflexivity|].
    destruct (resolve_server w tok) as [cfg|e] eqn:Hr.
    + destruct (py_len otpval) as [otp|e] eqn:Hp.
      * right. right.
        destruct (radius_try_returns w tok otp opts cfg (initial_locals rs)
                    (at_try st0)) as (exc & lc & st3 & Ht).
        exists cfg, otp, exc, lc, st3. repeat split; try assumption.
        apply (check_radius_slow _ _ _ _ _ _ _ _ _ _ _ _ _ _ Ho Hl Hs Hr Hp Ht).
      * right. left. exists cfg, e. repeat split.
        unfold check_radius.
        rewrite (bind_return _ _ _ _ _ Ho).
        rewrite (bind_return _ _ _ _ _ (dict_get_lookup _ _ _ _ Hl)).
        destruct (sentinel_false _ Hs) as [-> ->].
        rewrite Hr, Hp, lift_bind, lift_raise_bind. reflexivity.
    + left. exists e. split; [reflexivity|].
      unfold check_radius.
      rewrite (bind_return _ _ _ _ _ Ho).
      rewrite (bind_return _ _ _ _ _ (dict_get_lookup _ _ _ _ Hl)).
      destruct (sentinel_false _ Hs) as [-> ->].
      rewrite Hr, lift_raise_bind. reflexivity.
Qed.

(** Every run of the [try] block either fails to build the request and
    sends nothing, or sends exactly the request it built. *)
Lemma radius_try_cases w tok otp opts cfg lc st r st' :
  radius_try w tok otp opts cfg lc st = (r, st') ->
  (exists e,
      build_request w tok otp opts cfg (l_state lc) st = (Raise e, st')
      /\ r = Return (Some e, lc) /\ sent st' = sent st)
  \/ (exists req st1,
         build_request w tok otp opts cfg (l_state lc) st = (Return req, st1)
         /\ sent st' = req :: sent st
         /\ heap st1 = heap st
         /\ ((exists e,
                 SendPacket w (length (sent st)) req = Raise e
                 /\ r = Return (Some e, lc))
             \/ (exists resp,
                    SendPacket w (length (sent st)) req = Return resp
                    /\ handle_response resp lc (add_sent req st1) = (r, st')))).
Proof.
  intros H.
  destruct (build_request w tok otp opts cfg (l_state lc) st) as [[req|e] st1] eqn:Hb.
  - right. exists req, st1.
    destruct (preserves_build_request _ _ _ _ _ _ _ _ _ Hb) as (Hs1 & Hh1 & _).
    split; [reflexivity|].
    destruct (SendPacket w (length (sent st1)) req) as [resp|e] eqn:Hsend.
    + rewrite (radius_try_reply _ _ _ _ _ _ _ _ _ _ Hb Hsend) in H.
      destruct (preserves_handle_response _ _ _ _ _ H) as (Hs2 & _).
      split; [rewrite Hs2; simpl; rewrite Hs1; reflexivity|].
      split; [exact Hh1|].
      right. exists resp. rewrite <- Hs1. split; [exact Hsend | exact H].
    + rewrite (radius_try_send_failure _ _ _ _ _ _ _ _ _ _ Hb Hsend) in H.
      injection H as <- <-.
      split; [simpl; rewrite Hs1; reflexivity|].
      split; [exact Hh1|].
      left. exists e. rewrite <- Hs1. split; [exact Hsend | reflexivity].
  - left. exists e.
    rewrite (radius_try_build_failure _ _ _ _ _ _ _ _ _ Hb) in H.
    injection H as <- <-.
    destruct (preserves_build_request _ _ _ _ _ _ _ _ _ Hb) as (Hs1 & _).
    repeat split. exact Hs1.
Qed.

Lemma build_request_fields w tok otp opts cfg rs st req st1 :
  build_request w tok otp opts cfg rs st = (Return req, st1) ->
  exists host,
    cfg.1.1 = Some host
    /\ rq_server req = default "" (head (split_on ":" host))
    /\ match split_on ":" host with
       | _ :: p :: _ => py_int w p = Return (rq_authport req)
       | _ => rq_authport req = 1812
       end
    /\ rq_secret req = cfg.1.2
    /\ rq_password req = otp
    /\ get_tokeninfo tok "radius.user" = Some (rq_user req)
    /\ encode_ascii (get_from_config_default w "radius.nas_identifier" "privacyIDEA")
       = Return (rq_nas req)
    /\ rq_state req
       = if truthy rs then Some (py_str rs)
         else match deref (heap st) opts !! "transactionid" with
              | Some tx => Some (py_str tx)
              | None => None
              end.
Proof.
  destruct cfg as [[srv sec] dic]. unfold build_request.
  cbv beta iota delta [mbind M_bind mret M_ret raise lift lift_exn logger
                       dict_has dict_get].
  intros H.
  repeat match type of H with
         | context [match ?x with _ => _ end] =>
             lazymatch x with
             | context [match _ with _ => _ end] => fail
             | _ => destruct x eqn:?; try discriminate
             end
         end.
  all: injection H as <- <-.
  all: eexists; split; [reflexivity|].
  all: change (heap (add_log _ (add_log _ st))) with (heap st) in *.
  all: repeat match goal with
              | E : split_on _ _ = _ |- _ => rewrite E; clear E
              | E : truthy _ = _ |- _ => rewrite ?E; clear E
              end.
  all: cbn [rq_server rq_authport rq_secret rq_password rq_user rq_nas
            rq_state fst snd].
  all: repeat split; try assumption; try reflexivity.
  all: repeat match goal with
              | E : bool_decide _ = true |- _ =>
                  apply bool_decide_eq_true_1 in E; destruct E as [? E];
                  rewrite ?E in *
              | E : bool_decide _ = false |- _ =>
                  apply bool_decide_eq_false_1 in E
              end.
  all: try reflexivity.
  all: destruct (deref (heap st) opts !! "transactionid") eqn:Etx;
    [exfalso; eauto | reflexivity].
Qed.

Lemma cons_neq {A} (x : A) (l : list A) : x :: l ≠ l.
Proof.
  intros H. apply (f_equal length) in H. simpl in H. lia.
Qed.

(** [options or {}]: either the caller's non-empty dictionary, or a new
    object at the end of the heap. *)
Lemma options_or_empty_cases options st :
  (exists l d,
      options = Some l /\ heap st !! l = Some d /\ d ≠ ∅
      /\ options_or_empty options st = (Return l, st))
  \/ (options_or_empty options st
      = (Return (length (heap st)), set_heap (heap st ++ [∅]) st)
      /\ forall l d, options = Some l -> heap st !! l = Some d -> d = ∅).
Proof.
  unfold options_or_empty. destruct options as [l|].
  - destruct (bool_decide (deref (heap st) l = ∅)) eqn:E.
    + right. split; [reflexivity|]. intros l' d [= <-] Hl.
      apply bool_decide_eq_true_1 in E.
      rewrite (deref_lookup _ _ _ Hl) in E. exact E.
    + left. apply bool_decide_eq_false_1 in E. unfold deref in E.
      destruct (heap st !! l) as [d|] eqn:El; [|done].
      exists l, d. auto.
  - right. split; [reflexivity|]. discriminate.
Qed.

(** The packets after a run of [check_radius]: those before, and at most
    one new request, which is then the one the [try] block built. *)
Lemma check_radius_sent w tok otpval options rs st opts st0 d r st' :
  options_or_empty options st = (Return opts, st0) ->
  heap st0 !! opts = Some d ->
  sent st0 = sent st ->
  check_radius w tok otpval options rs st = (r, st') ->
  sent st' = sent st
  \/ exists req cfg otp st1,
       sent st' = req :: sent st
       /\ sentinel d = false
       /\ resolve_server w tok = Return cfg
       /\ py_len otpval = Return otp
       /\ build_request w tok otp opts cfg rs (at_try st0) = (Return req, st1).
Proof.
  intros Ho Hl Hsent H.
  destruct (check_radius_cases w tok otpval options rs st opts st0 d Ho Hl)
    as [(accept & _ & Heq) | (Hs & [(e & _ & Heq) | [(cfg & e & _ & _ & Heq)
        | (cfg & otp & exc & lc & st3 & Hr & Hp & Ht & Heq)]])];
    rewrite Heq in H; injection H as <- <-.
  - left. exact Hsent.
  - left. exact Hsent.
  - left. exact Hsent.
  - destruct (radius_try_cases _ _ _ _ _ _ _ _ _ Ht)
      as [(e & _ & _ & Hs3) | (req & st1 & Hb & Hs3 & _)].
    + left. destruct exc; simpl; rewrite Hs3; exact Hsent.
    + right. exists req, cfg, otp, st1.
      split; [destruct exc; simpl; rewrite Hs3; simpl; rewrite Hsent; reflexivity|].
      auto.
Qed.

(** X1.  A call of [check_radius] keeps the packets sent so far and adds
    at most one. *)
Theorem check_radius_at_most_one_packet w tok otpval options rs st :
  sent (check_radius w tok otpval options rs st).2 = sent st
  \/ exists req,
       sent (check_radius w tok otpval options rs st).2 = req :: sent st.
Proof.
  destruct (options_or_empty_spec options st)
    as (opts & st0 & d & Ho & Hl & _ & Hsent & _).
  destruct (check_radius w tok otpval options rs st) as [r st'] eqn:H.
  destruct (check_radius_sent _ _ _ _ _ _ _ _ _ _ _ Ho Hl Hsent H)
    as [Hs | (req & _ & _ & _ & Hs & _)]; simpl; eauto.
Qed.

(** X2.  Whenever [check_radius], called on a non-empty context, sends a
    request, that request carries the OTP value it was given as password,
    the token's [radius.user], the NAS identifier of the system
    configuration (["privacyIDEA"] when unset) and the secret of the
    resolved server settings; its State is [str] of the saved state when
    that is non-empty (for a byte string, as pyrad returns for State, the
    text b'...'), else [str] of the context's [transactionid] when the
    context has one, else absent. *)
Theorem check_radius_request w tok otp l rs st d r st' req :
  heap st !! l = Some d -> d ≠ ∅ ->
  check_radius w tok (OStr otp) (Some l) rs st = (r, st') ->
  sent st' = req :: sent st ->
  rq_password req = otp
  /\ get_tokeninfo tok "radius.user" = Some (rq_user req)
  /\ encode_ascii (get_from_config_default w "radius.nas_identifier" "privacyIDEA")
     = Return (rq_nas req)
  /\ rq_state req
     = (if truthy rs then Some (py_str rs)
        else match d !! "transactionid" with
             | Some tx => Some (py_str tx)
             | None => None
             end)
  /\ exists host sec dic,
       resolve_server w tok = Return (Some host, sec, dic)
       /\ rq_secret req = sec
       /\ rq_server req = default "" (head (split_on ":" host))
       /\ match split_on ":" host with
          | _ :: p :: _ => py_int w p = Return (rq_authport req)
          | _ => rq_authport req = 1812
          end.
Proof.
  intros Hl Hd H Hsent.
  pose proof (options_or_empty_alias _ _ _ Hl Hd) as Ho.
  destruct (check_radius_sent _ _ _ _ _ _ _ _ _ _ _ Ho Hl eq_refl H)
    as [Hs | (req' & cfg & otp' & st1 & Hs & _ & Hr & Hp & Hb)].
  - rewrite Hs in Hsent. symmetry in Hsent. destruct (cons_neq _ _ Hsent).
  - rewrite Hs in Hsent. injection Hsent as ->. injection Hp as <-.
    destruct (build_request_fields _ _ _ _ _ _ _ _ _ Hb)
      as (host & Hh & Hsrv & Hport & Hsec & Hpw & Hu & Hn & Hst).
    change (heap (at_try st)) with (heap st) in Hst.
    rewrite (deref_lookup _ _ _ Hl) in Hst.
    split; [exact Hpw|]. split; [exact Hu|]. split; [exact Hn|].
    split; [exact Hst|].
    destruct cfg as [[srv sec] dic]. simpl in Hh, Hsec. subst srv.
    exists host, sec, dic. auto.
Qed.

Lemma check_radius_request_witness :
  let w := Example.world (Example.net_always Example.reply_accept) in
  let st := Example.state_of Example.ctx ∅ in
  let req := {| rq_server := "10.0.0.1"; rq_authport := 1812;
                rq_secret := Some "secret";
                rq_dict := "/etc/privacyidea/dictionary";
                rq_user := "alice"; rq_nas := "privacyIDEA";
                rq_password := "123456"; rq_state := Some "b'S0'" |} in
  rq_password req = "123456"
  /\ get_tokeninfo Example.tok "radius.user" = Some (rq_user req)
  /\ encode_ascii (get_from_config_default w "radius.nas_identifier" "privacyIDEA")
     = Return (rq_nas req)
  /\ rq_state req
     = (if truthy (VBytes "S0") then Some (py_str (VBytes "S0"))
        else match Example.ctx !! "transactionid" with
             | Some tx => Some (py_str tx)
             | None => None
             end)
  /\ exists host sec dic,
       resolve_server w Example.tok = Return (Some host, sec, dic)
       /\ rq_secret req = sec
       /\ rq_server req = default "" (head (split_on ":" host))
       /\ match split_on ":" host with
          | _ :: p :: _ => py_int w p = Return (rq_authport req)
          | _ => rq_authport req = 1812
          end.
Proof.
  intros w st req.
  apply (check_radius_request w Example.tok "123456" 0%nat (VBytes "S0") st
           Example.ctx
           (check_radius w Example.tok (OStr "123456") (Some 0%nat)
              (VBytes "S0") st).1
           (check_radius w Example.tok (OStr "123456") (Some 0%nat)
              (VBytes "S0") st).2 req).
  - reflexivity.
  - apply (lookup_nonempty _ "clientip" (VStr "192.0.2.7")). reflexivity.
  - apply surjective_pairing.
  - vm_compute. reflexivity.
Defined.

Lemma written_other lc (d : gmap string value) k :
  k ≠ "radius_result" -> k ≠ "radius_state" -> k ≠ "radius_message" ->
  written lc d !! k = d !! k.
Proof.
  intros H1 H2 H3. unfold written.
  rewrite !lookup_insert_ne by congruence. reflexivity.
Qed.

Lemma heap_after_write st0 st3 opts (d x : gmap string value) exc :
  heap st3 = heap st0 -> heap st0 !! opts = Some d ->
  heap (set_heap (<[opts := x]> (heap st3)) (logged exc st3)) !! opts = Some x
  /\ forall l, l ≠ opts ->
       heap (set_heap (<[opts := x]> (heap st3)) (logged exc st3)) !! l
       = heap st0 !! l.
Proof.
  intros Hh Hl. simpl. rewrite Hh. split.
  - apply list_lookup_insert_eq. eapply lookup_lt_Some; eassumption.
  - intros l Hne. apply list_lookup_insert_ne. congruence.
Qed.

(** X3.  [check_radius] changes nothing but the log, the packets sent and
    one dictionary.  The challenge table and the sweep count stay; every
    dictionary other than the context stays; a context that is empty stays
    empty (the entries go to a new object); and in a non-empty context only
    the keys [radius_result], [radius_state] and [radius_message] can
    change. *)
Theorem check_radius_frame w tok otpval options rs st r st' :
  check_radius w tok otpval options rs st = (r, st') ->
  challenges st' = challenges st
  /\ sweeps st' = sweeps st
  /\ (forall l d,
         heap st !! l = Some d -> options ≠ Some l \/ d = ∅ ->
         heap st' !! l = Some d)
  /\ (forall l d,
         options = Some l -> heap st !! l = Some d -> d ≠ ∅ ->
         exists d',
           heap st' !! l = Some d'
           /\ forall k,
               k ≠ "radius_result" -> k ≠ "radius_state" ->
               k ≠ "radius_message" -> d' !! k = d !! k).
Proof.
  intros H.
  destruct (check_radius_challenges _ _ _ _ _ _ _ _ H) as [Hc Hw].
  split; [exact Hc|]. split; [exact Hw|].
  assert (Hshape : forall opts st0 d0,
    options_or_empty options st = (Return opts, st0) ->
    heap st0 !! opts = Some d0 ->
    (heap st' = heap st0)
    \/ exists x, heap st' !! opts = Some x
         /\ (forall l, l ≠ opts -> heap st' !! l = heap st0 !! l)
         /\ forall k, k ≠ "radius_result" -> k ≠ "radius_state" ->
                      k ≠ "radius_message" -> x !! k = d0 !! k).
  { intros opts st0 d0 Ho Hl.
    destruct (check_radius_cases w tok otpval options rs st opts st0 d0 Ho Hl)
      as [(accept & _ & Heq) | (Hs & [(e & _ & Heq) | [(cfg & e & _ & _ & Heq)
          | (cfg & otp & exc & lc & st3 & Hr & Hp & Ht & Heq)]])];
      rewrite Heq in H; injection H as <- <-.
    - right. eexists. split; [apply (heap_insert_lookup _ _ _ _ Hl)|]. split.
      + intros l Hne. simpl. apply list_lookup_insert_ne. congruence.
      + intros k H1 H2 H3. rewrite !lookup_insert_ne by congruence. reflexivity.
    - left. reflexivity.
    - left. reflexivity.
    - right. destruct (preserves_radius_try _ _ _ _ _ _ _ _ _ Ht) as [Hh _].
      change (heap (at_try st0)) with (heap st0) in Hh.
      destruct (heap_after_write st0 st3 opts d0 (written lc d0) exc Hh Hl)
        as [H1 H2].
      exists (written lc d0). split; [exact H1|]. split; [exact H2|].
      intros k; apply written_other. }
  destruct (options_or_empty_cases options st)
    as [(l0 & d0 & -> & Hl0 & Hd0 & Ho) | (Ho & Hempty)].
  - destruct (Hshape _ _ _ Ho Hl0) as [Hh | (x & Hx & Hoth & Hkeys)].
    + split.
      * intros l d Hl _. rewrite Hh. exact Hl.
      * intros l d [= <-] Hl _. exists d. rewrite Hh. auto.
    + split.
      * intros l d Hl [Hne | ->].
        -- rewrite Hoth by congruence. exact Hl.
        -- destruct (decide (l = l0)) as [-> | Hne].
           ++ rewrite Hl0 in Hl. injection Hl as ->. done.
           ++ rewrite Hoth by exact Hne. exact Hl.
      * intros l d [= <-] Hl _. rewrite Hl0 in Hl. injection Hl as <-.
        exists x. auto.
  - assert (Hnew : heap (set_heap (heap st ++ [∅]) st) !! length (heap st)
                   = Some (∅ : gmap string value)).
    { simpl. rewrite lookup_app_r by lia. rewrite Nat.sub_diag. reflexivity. }
    assert (Hold : forall l d, heap st !! l = Some d ->
                               (heap st ++ [∅])%list !! l = Some d
                               /\ l ≠ length (heap st)).
    { intros l d Hl. pose proof (lookup_lt_Some _ _ _ Hl) as Hlt.
      split; [rewrite lookup_app_l by exact Hlt; exact Hl | lia]. }
    destruct (Hshape _ _ _ Ho Hnew) as [Hh | (x & Hx & Hoth & Hkeys)].
    + split.
      * intros l d Hl _. rewrite Hh. simpl. apply (Hold _ _ Hl).
      * intros l d Hopt Hl Hd. destruct (Hd (Hempty _ _ Hopt Hl)).
    + split.
      * intros l d Hl _. destruct (Hold _ _ Hl) as [H1 H2].
        rewrite Hoth by exact H2. exact H1.
      * intros l d Hopt Hl Hd. destruct (Hd (Hempty _ _ Hopt Hl)).
Qed.

Lemma check_radius_frame_witness :
  let w := Example.world (Example.net_always Example.reply_accept) in
  let st := Example.state_of Example.ctx Example.one_challenge in
  let st' := (check_radius w Example.tok (OStr "123456") (Some 0%nat) VNone st).2 in
  challenges st' = challenges st
  /\ sweeps st' = sweeps st
  /\ (forall l d,
         heap st !! l = Some d -> Some 0%nat ≠ Some l \/ d = ∅ ->
         heap st' !! l = Some d)
  /\ (forall l d,
         Some 0%nat = Some l -> heap st !! l = Some d -> d ≠ ∅ ->
         exists d',
           heap st' !! l = Some d'
           /\ forall k,
               k ≠ "radius_result" -> k ≠ "radius_state" ->
               k ≠ "radius_message" -> d' !! k = d !! k).
Proof.
  intros w st st'.
  apply (check_radius_frame w Example.tok (OStr "123456") (Some 0%nat) VNone st
           (check_radius w Example.tok (OStr "123456") (Some 0%nat) VNone st).1).
  apply surjective_pairing.
Defined.

(** X4.  When the request cannot be built (the token has no
    [radius.user], the resolved settings have no server, or [int] raises on
    the text after the first colon of the server) [check_radius] sends
    nothing, returns -1 and records -1 as [radius_result]. *)
Theorem check_radius_unbuildable w tok otp l rs st d cfg :
  heap st !! l = Some d -> d ≠ ∅ -> sentinel d = false ->
  resolve_server w tok = Return cfg ->
  (get_tokeninfo tok "radius.user" = None
   \/ cfg.1.1 = None
   \/ exists host h p rest e,
        cfg.1.1 = Some host /\ split_on ":" host = h :: p :: rest
        /\ py_int w p = Raise e) ->
  exists st',
    check_radius w tok (OStr otp) (Some l) rs st = (Return (VInt (-1)), st')
    /\ sent st' = sent st
    /\ deref (heap st') l !! "radius_result" = Some (VInt (-1)).
Proof.
  intros Hl Hd Hs Hr Hbad.
  pose proof (options_or_empty_alias _ _ _ Hl Hd) as Ho.
  destruct (check_radius_cases w tok (OStr otp) (Some l) rs st l st d Ho Hl)
    as [(accept & Ha & _) | (_ & [(e & Hr' & _) | [(cfg' & e & _ & Hp & _)
        | (cfg' & otp' & exc & lc & st3 & Hr' & Hp & Ht & Heq)]])].
  - exfalso. unfold sentinel in Hs. rewrite Ha in Hs.
    destruct accept; discriminate.
  - congruence.
  - discriminate.
  - rewrite Hr in Hr'. injection Hr' as <-. injection Hp as <-.
    destruct (radius_try_cases _ _ _ _ _ _ _ _ _ Ht)
      as [(e & _ & Hres & Hs3) | (req & st1 & Hb & _)].
    + injection Hres as -> ->.
      destruct (preserves_radius_try _ _ _ _ _ _ _ _ _ Ht) as [Hh _].
      change (heap (at_try st)) with (heap st) in Hh.
      eexists. split; [exact Heq|]. split; [exact Hs3|].
      destruct (heap_after_write st st3 l d (written (initial_locals rs) d)
                  (Some e) Hh Hl) as [H1 _].
      rewrite (deref_lookup _ _ _ H1). apply written_lookups.
    + exfalso.
      destruct (build_request_fields _ _ _ _ _ _ _ _ _ Hb)
        as (host & Hh & _ & Hport & _ & _ & Hu & _).
      destruct Hbad as [Hnu | [Hns | (host' & h & p & rest & e & Hh' & Hsp & Hp)]].
      * congruence.
      * congruence.
      * rewrite Hh in Hh'. injection Hh' as <-. rewrite Hsp in Hport.
        congruence.
Qed.

Lemma check_radius_unbuildable_witness :
  let w := Example.world (Example.net_always Example.reply_accept) in
  let tok := {| serial := "PIRA0002"; tokentype := "radius";
                tokeninfo := {[ "radius.server" := "10.0.0.1:radius" ]};
                otpkey := "736563726574" |} in
  exists st',
    check_radius w tok (OStr "123456") (Some 0%nat) VNone
      (Example.state_of Example.ctx ∅) = (Return (VInt (-1)), st')
    /\ sent st' = sent (Example.state_of Example.ctx ∅)
    /\ deref (heap st') 0%nat !! "radius_result" = Some (VInt (-1)).
Proof.
  intros w tok.
  apply (check_radius_unbuildable w tok "123456" 0%nat VNone
           (Example.state_of Example.ctx ∅) Example.ctx
           (Some "10.0.0.1:radius", Some "secret", None)).
  - reflexivity.
  - apply (lookup_nonempty _ "clientip" (VStr "192.0.2.7")). reflexivity.
  - reflexivity.
  - vm_compute. reflexivity.
  - left. vm_compute. reflexivity.
Defined.



(** ** How calls compose *)

(** A reply whose code is not [AccessChallenge]: the verdict, and the
    state in which [check_radius] ends. *)
Lemma check_radius_answered w tok otpval rs st l d cfg otp req st1 resp :
  heap st !! l = Some d -> d ≠ ∅ -> sentinel d = false ->
  resolve_server w tok = Return cfg ->
  py_len otpval = Return otp ->
  build_request w tok otp l cfg rs (at_try st) = (Return req, st1) ->
  SendPacket w (length (sent st)) req = Return resp ->
  code resp ≠ AccessChallenge ->
  exists st' (accept : bool),
    accept = (code resp =? AccessAccept)
    /\ check_radius w tok otpval (Some l) rs st
       = (Return (VInt (if accept then 0 else -1)), st')
    /\ sent st' = req :: sent st
    /\ challenges st' = challenges st
    /\ sweeps st' = sweeps st
    /\ exists d',
         heap st' !! l = Some d'
         /\ d' !! "radius_state"
            = Some (VStr (if accept then "<SUCCESS>" else "<REJECTED>"))
         /\ d' !! "radius_result" = Some (VInt (if accept then 0 else -1))
         /\ forall k, k ≠ "radius_result" -> k ≠ "radius_state" ->
                      k ≠ "radius_message" -> d' !! k = d !! k.
Proof.
  intros Hl Hd Hs Hr Hp Hb Hsend Hc.
  pose proof (options_or_empty_alias _ _ _ Hl Hd) as Ho.
  destruct (preserves_build_request _ _ _ _ _ _ _ _ _ Hb) as (Hs1 & Hh1 & _).
  change (sent (at_try st)) with (sent st) in Hs1.
  change (heap (at_try st)) with (heap st) in Hh1.
  rewrite <- Hs1 in Hsend.
  pose proof (radius_try_reply w tok otp l cfg (initial_locals rs) (at_try st)
                req st1 resp Hb Hsend) as Ht.
  destruct (handle_response_mapping resp (initial_locals rs) (add_sent req st1))
    as (Hacc & Hrej & _ & _).
  destruct (code resp =? AccessAccept) eqn:E.
  - apply Z.eqb_eq in E. rewrite (Hacc E) in Ht.
    pose proof (check_radius_slow _ _ _ _ _ _ _ _ _ _ _ _ _ _
                  Ho Hl Hs Hr Hp Ht) as Heq.
    eexists _, true. split; [reflexivity|]. split; [exact Heq|].
    split; [simpl; rewrite Hs1; reflexivity|].
    destruct (check_radius_challenges _ _ _ _ _ _ _ _ Heq) as [Hch Hsw].
    split; [exact Hch|]. split; [exact Hsw|].
    eexists. split.
    + simpl. apply list_lookup_insert_eq. rewrite Hh1.
      eapply lookup_lt_Some; eassumption.
    + split; [apply written_lookups|]. split; [apply written_lookups|].
      intros k; apply written_other.
  - apply Z.eqb_neq in E. rewrite (Hrej E Hc) in Ht.
    pose proof (check_radius_slow _ _ _ _ _ _ _ _ _ _ _ _ _ _
                  Ho Hl Hs Hr Hp Ht) as Heq.
    eexists _, false. split; [reflexivity|]. split; [exact Heq|].
    split; [simpl; rewrite Hs1; reflexivity|].
    destruct (check_radius_challenges _ _ _ _ _ _ _ _ Heq) as [Hch Hsw].
    split; [exact Hch|]. split; [exact Hsw|].
    eexists. split.
    + simpl. apply list_lookup_insert_eq. rewrite Hh1.
      eapply lookup_lt_Some; eassumption.
    + split; [apply written_lookups|]. split; [apply written_lookups|].
      intros k; apply written_other.
Qed.








Lemma transaction_of_eq (d d' : gmap string value) :
  d' !! "transaction_id" = d !! "transaction_id" ->
  d' !! "state" = d !! "state" ->
  transaction_of d' = transaction_of d.
Proof. intros H1 H2. unfold transaction_of. rewrite H1, H2. reflexivity. Qed.

Lemma candidates_same_table tok tx st st' :
  challenges st' = challenges st -> candidates tok tx st' = candidates tok tx st.
Proof. intros H. unfold candidates. rewrite H. reflexivity. Qed.

(** X9.  The response to a challenge costs one round trip.  On a context
    that names the transaction and holds no sentinel as [radius_state],
    with one valid challenge for the transaction, a request that can be
    built and a server that answers the replay with a code other than
    Access-Challenge, [is_challenge_response] sends the request and returns
    true, and the [check_challenge_response] that follows on the same
    context sends nothing: it returns 0 and deletes the challenge when the
    answer was Access-Accept, and returns -1 and increments the receive
    count otherwise. *)
Theorem challenge_response_one_round_trip
    w tok passw user passw' user' st l d id c cfg otp req stb resp :
  heap st !! l = Some d ->
  truthy (transaction_of d) = true ->
  sentinel d = false ->
  candidates tok (transaction_of d) st = [(id, c)] ->
  ch_valid c = true ->
  resolve_server w tok = Return cfg ->
  py_len passw = Return otp ->
  build_request w tok otp l cfg (ch_data c) (at_try (entered l d st))
    = (Return req, stb) ->
  SendPacket w (length (sent st)) req = Return resp ->
  code resp ≠ AccessChallenge ->
  exists st1 st2,
    is_challenge_response w tok passw user (Some l) st = (Return true, st1)
    /\ sent st1 = req :: sent st
    /\ check_challenge_response w tok user' passw' (Some l) st1
       = (Return (VInt (if code resp =? AccessAccept then 0 else -1)), st2)
    /\ sent st2 = sent st1
    /\ challenges st2 !! id
       = (if code resp =? AccessAccept then None else Some (bump c)).
Proof.
  intros Hl Htx Hs Hcs Hv Hr Hp Hb Hsend Hc.
  pose proof (transaction_nonempty _ (truthy_not_none _ Htx)) as Hd.
  pose proof (options_or_empty_alias _ _ _ Hl Hd) as Ho.
  set (de := <["radius_result" := VNone]> d).
  assert (Hle : heap (entered l d st) !! l = Some de)
    by apply (heap_insert_lookup _ _ _ _ Hl).
  assert (Hde : de ≠ ∅)
    by apply (lookup_nonempty _ "radius_result" VNone), lookup_insert_eq.
  assert (Hse : sentinel de = false).
  { unfold sentinel, de. rewrite lookup_insert_ne by discriminate. exact Hs. }
  destruct (check_radius_answered w tok passw (ch_data c) (entered l d st) l de
              cfg otp req stb resp Hle Hde Hse Hr Hp Hb Hsend Hc)
    as (st1 & accept & Ha & Heq & Hsent & Hch & _ & d1 & Hl1 & Hst1 & _ & Hkeys).
  rewrite <- Ha.
  (* is_challenge_response *)
  assert (Hicr : is_challenge_response w tok passw user (Some l) st
                 = (Return true, st1)).
  { rewrite (is_challenge_response_unfold _ _ _ _ _ _ _ _ _ Ho Hl).
    rewrite Htx, Hcs.
    rewrite (icr_loop_step _ _ _ _ _ _ _ _ _ _ _ Hv Heq).
    destruct accept; reflexivity. }
  (* check_challenge_response *)
  assert (Hd1 : d1 ≠ ∅) by apply (lookup_nonempty _ _ _ Hst1).
  pose proof (options_or_empty_alias _ _ _ Hl1 Hd1) as Ho1.
  assert (Htx1 : transaction_of d1 = transaction_of d).
  { apply transaction_of_eq.
    - rewrite Hkeys by discriminate. apply lookup_insert_ne. discriminate.
    - rewrite Hkeys by discriminate. apply lookup_insert_ne. discriminate. }
  assert (Hcs1 : candidates tok (transaction_of d) st1 = [(id, c)]).
  { rewrite <- Hcs. apply candidates_same_table. exact Hch. }
  pose proof (check_radius_fast w tok passw' (ch_data c) st1 l d1 accept Hl1 Hst1)
    as Hfast.
  set (st1f := set_heap (<[l := <["radius_message" := VNone]>
                                 (<["radius_state" := VNone]> d1)]> (heap st1))
                        st1) in *.
  assert (Hin : challenges st1f !! id = Some c).
  { change (challenges st1f) with (challenges st1). rewrite Hch.
    change (challenges (entered l d st)) with (challenges st).
    apply (candidates_lookup tok (transaction_of d)). rewrite Hcs. left. }
  pose proof (check_challenge_response_unfold w tok user' passw' _ _ _ _ _ Ho1 Hl1)
    as Hunf.
  rewrite Htx1 in Hunf.
  assert (Hneg : negb (py_eq (transaction_of d) VNone) = true).
  { unfold py_eq.
    rewrite bool_decide_eq_false_2 by exact (truthy_not_none _ Htx).
    reflexivity. }
  rewrite Hneg, Hcs1 in Hunf.
  rewrite (ccr_loop_step _ _ _ _ _ _ _ _ _ _ _ Hv Hfast) in Hunf.
  destruct accept.
  - change (py_eq (VInt 0) (VInt 0)) with true in Hunf. cbv iota in Hunf.
    exists st1. eexists. split; [exact Hicr|]. split; [exact Hsent|].
    split; [exact Hunf|]. split; [reflexivity|].
    apply swept_keeps_absent. simpl. apply lookup_delete_eq.
  - change (py_eq (VInt (-1)) (VInt 0)) with false in Hunf. cbv iota in Hunf.
    simpl ccr_loop in Hunf.
    exists st1. eexists. split; [exact Hicr|]. split; [exact Hsent|].
    split; [exact Hunf|]. split; [reflexivity|].
    apply swept_keeps_valid; [|exact Hv].
    simpl. rewrite lookup_alter_eq.
    change (challenges st1) with (challenges st1f). rewrite Hin. reflexivity.
Qed.

Lemma challenge_response_one_round_trip_witness :
  let w := Example.world (Example.net_always Example.reply_accept) in
  let st := Example.state_of Example.ctx_response Example.one_challenge in
  let req := {| rq_server := "10.0.0.1"; rq_authport := 1812;
                rq_secret := Some "secret";
                rq_dict := "/etc/privacyidea/dictionary";
                rq_user := "alice"; rq_nas := "privacyIDEA";
                rq_password := "123456"; rq_state := Some "S0" |} in
  exists st1 st2,
    is_challenge_response w Example.tok (OStr "123456") ONone (Some 0%nat) st
      = (Return true, st1)
    /\ sent st1 = req :: sent st
    /\ check_challenge_response w Example.tok ONone (OStr "123456")
         (Some 0%nat) st1
       = (Return (VInt (if code Example.reply_accept =? AccessAccept
                        then 0 else -1)), st2)
    /\ sent st2 = sent st1
    /\ challenges st2 !! 1%nat
       = (if code Example.reply_accept =? AccessAccept then None
          else Some (bump (Example.challenge_of "S0"))).
Proof.
  intros w st req.
  apply (challenge_response_one_round_trip w Example.tok (OStr "123456") ONone
           (OStr "123456") ONone st 0%nat Example.ctx_response 1%nat
           (Example.challenge_of "S0")
           (Some "10.0.0.1:1812", Some "secret", None) "123456" req
           (build_request w Example.tok "123456" 0%nat
              (Some "10.0.0.1:1812", Some "secret", None) (VStr "S0")
              (at_try (entered 0%nat Example.ctx_response st))).2
           Example.reply_accept).
  - reflexivity.
  - vm_compute. reflexivity.
  - reflexivity.
  - vm_compute. reflexivity.
  - reflexivity.
  - vm_compute. reflexivity.
  - reflexivity.
  - vm_compute. reflexivity.
  - reflexivity.
  - discriminate.
Defined.

(** ** Local-PIN mode and the answer of [authenticate] *)

Lemma split_pin_pass_local_frame w tok passw user st :
  local_pin_mode w tok = true ->
  exists st',
    split_pin_pass w tok passw user st = (Raise RecursionError, st')
    /\ same_but_log st st'.
Proof.
  intros Hloc.
  apply (split_pin_pass_rec_local w tok Hloc (recursion_limit w)).
Qed.

(** X10.  For every token in local-PIN mode, every input and every depth
    of the call stack, [split_pin_pass] raises [RecursionError], and so do
    [authenticate] and [is_challenge_request]; none of them sends a packet
    or changes the challenge table. *)
Theorem local_pin_mode_always_raises w tok passw user options st :
  local_pin_mode w tok = true ->
  (exists st',
      split_pin_pass w tok passw user st = (Raise RecursionError, st')
      /\ sent st' = sent st /\ heap st' = heap st
      /\ challenges st' = challenges st)
  /\ (exists st',
         authenticate w tok passw user options st = (Raise RecursionError, st')
         /\ sent st' = sent st)
  /\ (exists st',
         is_challenge_request w tok passw user options st
           = (Raise RecursionError, st')
         /\ sent st' = sent st).
Proof.
  intros Hloc. split; [|split].
  - destruct (split_pin_pass_local_frame w tok passw user st Hloc)
      as (st' & H & Hs & Hh & Hc & _).
    exists st'. auto.
  - apply authenticate_local, Hloc.
  - apply is_challenge_request_local, Hloc.
Qed.

Lemma local_pin_mode_always_raises_witness :
  let w := Example.world (Example.net_always Example.reply_accept) in
  let st := Example.state_of Example.ctx ∅ in
  (exists st',
      split_pin_pass w Example.tok_local (OStr "0000654321") ONone st
        = (Raise RecursionError, st')
      /\ sent st' = sent st /\ heap st' = heap st
      /\ challenges st' = challenges st)
  /\ (exists st',
         authenticate w Example.tok_local (OStr "0000654321") ONone None st
           = (Raise RecursionError, st')
         /\ sent st' = sent st)
  /\ (exists st',
         is_challenge_request w Example.tok_local (OStr "0000654321") ONone
           None st = (Raise RecursionError, st')
         /\ sent st' = sent st).
Proof.
  intros w st.
  apply (local_pin_mode_always_raises w Example.tok_local (OStr "0000654321")
           ONone None st).
  reflexivity.
Defined.

(** X11.  Whatever the methods behind [self] do, when [authenticate]
    returns, it reports success exactly when the counter it returns is 0;
    a successful reply names the token's serial and type, an unsuccessful
    one carries a message only. *)
Theorem authenticate_success_iff_zero
    w tok split chk passw user options st b v reply st' :
  authenticate_with w tok split chk passw user options st
    = (Return (b, v, reply), st') ->
  (b = true <-> v = VInt 0)
  /\ (b = true ->
      reply = <[ "type" := VStr (tokentype tok) ]>
                (<[ "serial" := VStr (serial tok) ]>
                   (reply_of "matching 1 tokens")))
  /\ (b = false ->
      exists msg, reply = reply_of msg
                  /\ (msg = "Wrong PIN" -> v = VInt (-1))).
Proof.
  unfold authenticate_with.
  cbv beta iota delta [mbind M_bind mret M_ret].
  intros H.
  repeat match type of H with
         | (let (_, _) := ?x in _) = _ =>
             destruct x as [[?|?] ?] eqn:?; try discriminate
         | (let (_, _) := (if ?c then _ else _) _ in _) = _ =>
             destruct c eqn:?
         | (let '(_, _) := ?x in _) = _ => destruct x as [] eqn:?
         | context [match ?x with _ => _ end] =>
             lazymatch x with
             | context [match _ with _ => _ end] => fail
             | _ => destruct x eqn:?; try discriminate
             end
         end.
  all: injection H as <- <- <- _.
  all: repeat match goal with
              | E : py_eq _ _ = true |- _ => apply py_eq_true in E
              | E : py_eq _ _ = false |- _ => apply py_eq_false in E
              end.
  all: split;
    [split; intros; try discriminate; try congruence
    |split;
       [intros; try discriminate; try reflexivity
       |intros;
        first [discriminate
              |eexists;
               split; [reflexivity
                      |intros; try discriminate; try reflexivity]]]].
Qed.

Lemma authenticate_success_iff_zero_witness :
  let reply := <[ "type" := VStr (tokentype Example.tok) ]>
                 (<[ "serial" := VStr (serial Example.tok) ]>
                    (reply_of "matching 1 tokens")) in
  (true = true <-> VInt 0 = VInt 0)
  /\ (true = true -> reply = reply)
  /\ (true = false ->
      exists msg, reply = reply_of msg
                  /\ (msg = "Wrong PIN" -> VInt 0 = VInt (-1))).
Proof.
  intros reply.
  set (w := Example.world (Example.net_always Example.reply_accept)).
  set (st := Example.state_of Example.ctx ∅).
  apply (authenticate_success_iff_zero w Example.tok
           (split_pin_pass w Example.tok) (check_pin w)
           (OStr "123456") ONone (Some 0%nat) st true (VInt 0) reply
           (authenticate w Example.tok (OStr "123456") ONone (Some 0%nat) st).2).
  vm_compute. reflexivity.
Defined.

(** ** Challenges that are kept, skipped or swept *)

Lemma iter_bump_expired ser k c :
  expired_of ser (Nat.iter k bump c) = expired_of ser c.
Proof. induction k as [|k IH]; [reflexivity | exact IH]. Qed.

Lemma swept_keeps_valid_or_foreign tok st id c :
  challenges st !! id = Some c -> expired_of (serial tok) c = false ->
  challenges (swept tok st) !! id = Some c.
Proof.
  intros Hl Hexp. simpl. apply map_lookup_filter_Some_2; assumption.
Qed.

(** Every record of the table either is still there after the loop, with
    its receive count raised, or was deleted by an accepted response. *)
Lemma ccr_loop_keeps w tok passw opts cs cnt st r st' :
  ccr_loop w tok passw opts cs cnt st = (r, st') ->
  forall j cj,
    challenges st !! j = Some cj ->
    (exists k, challenges st' !! j = Some (Nat.iter k bump cj))
    \/ (r = Return (VInt 0) /\ challenges st' !! j = None).
Proof.
  revert cs cnt st r st'.
  apply (ccr_loop_ind w tok passw opts
    (fun cs cnt st r st' =>
       forall j cj,
         challenges st !! j = Some cj ->
         (exists k, challenges st' !! j = Some (Nat.iter k bump cj))
         \/ (r = Return (VInt 0) /\ challenges st' !! j = None))).
  - intros cnt st j cj Hj. left. exists 0%nat. exact Hj.
  - intros id c cs cnt st r st' _ _ IH. exact IH.
  - intros id c cs cnt st e st1 _ Hc j cj Hj. left. exists 0%nat.
    destruct (check_radius_challenges _ _ _ _ _ _ _ _ Hc) as [-> _]. exact Hj.
  - intros id c cs cnt st st1 _ Hc j cj Hj.
    destruct (check_radius_challenges _ _ _ _ _ _ _ _ Hc) as [E _].
    destruct (decide (j = id)) as [-> | Hne].
    + right. split; [reflexivity|]. simpl. apply lookup_delete_eq.
    + left. exists 0%nat. simpl. rewrite lookup_delete_ne by congruence.
      rewrite E. exact Hj.
  - intros id c cs cnt st v st1 r st' _ Hc _ _ IH j cj Hj.
    destruct (check_radius_challenges _ _ _ _ _ _ _ _ Hc) as [E _].
    destruct (decide (j = id)) as [-> | Hne].
    + destruct (IH id (bump cj)) as [[k Hk] | Hdel].
      * simpl. rewrite lookup_alter_eq, E, Hj. reflexivity.
      * left. exists (S k). rewrite Nat.iter_succ_r. exact Hk.
      * right. exact Hdel.
    + destruct (IH j cj) as [[k Hk] | Hdel].
      * simpl. rewrite lookup_alter_ne by congruence. rewrite E. exact Hj.
      * left. exists k. exact Hk.
      * right. exact Hdel.
Qed.

(** X12.  When [check_challenge_response] returns, no expired challenge of
    the token is left in the table; and when it returns -1 it has consumed
    nothing: every record that was not expired is still there, changed at
    most in its receive count. *)
Theorem check_challenge_response_keeps w tok user passw options st v st' :
  check_challenge_response w tok user passw options st = (Return v, st') ->
  (forall j cj,
      challenges st' !! j = Some cj -> expired_of (serial tok) cj = false)
  /\ (v = VInt (-1) ->
      forall j cj,
        challenges st !! j = Some cj ->
        expired_of (serial tok) cj = false ->
        exists k, challenges st' !! j = Some (Nat.iter k bump cj)).
Proof.
  intros H.
  destruct (options_or_empty_spec options st)
    as (opts & st0 & d & Ho & Hl & [Hch _] & _).
  rewrite (check_challenge_response_unfold _ _ _ _ _ _ _ _ _ Ho Hl) in H.
  assert (Hswept : forall s j cj,
    challenges (swept tok s) !! j = Some cj ->
    expired_of (serial tok) cj = false).
  { intros s j cj Hj. simpl in Hj.
    apply map_lookup_filter_Some in Hj as [_ Hj]. exact Hj. }
  destruct (negb (py_eq (transaction_of d) VNone)).
  - destruct (ccr_loop w tok passw opts (candidates tok (transaction_of d) st0)
                (VInt (-1)) st0) as [[v1|e] st1] eqn:E; [|discriminate].
    injection H as <- <-. split; [apply Hswept|].
    intros -> j cj Hj Hexp. rewrite <- Hch in Hj.
    destruct (ccr_loop_keeps _ _ _ _ _ _ _ _ _ E j cj Hj) as [[k Hk] | [Hr _]];
      [|discriminate].
    exists k. apply swept_keeps_valid_or_foreign.
    + exact Hk.
    + rewrite iter_bump_expired. exact Hexp.
  - injection H as <- <-. split; [apply Hswept|].
    intros _ j cj Hj Hexp. exists 0%nat. rewrite <- Hch in Hj.
    apply swept_keeps_valid_or_foreign; assumption.
Qed.

Lemma check_challenge_response_keeps_witness :
  let w := Example.world (Example.net_always Example.reply_reject) in
  let st := Example.state_of Example.ctx_response Example.two_challenges in
  let st' := (check_challenge_response w Example.tok ONone (OStr "123456")
                (Some 0%nat) st).2 in
  (forall j cj,
      challenges st' !! j = Some cj ->
      expired_of (serial Example.tok) cj = false)
  /\ (VInt (-1) = VInt (-1) ->
      forall j cj,
        challenges st !! j = Some cj ->
        expired_of (serial Example.tok) cj = false ->
        exists k, challenges st' !! j = Some (Nat.iter k bump cj)).
Proof.
  intros w st st'.
  apply (check_challenge_response_keeps w Example.tok ONone (OStr "123456")
           (Some 0%nat) st (VInt (-1)) st').
  vm_compute. reflexivity.
Defined.

(** X13.  A response for which there is nothing to replay: when the
    context has neither [transaction_id] nor [state], or every challenge of
    the transaction has expired, [is_challenge_response] returns false and
    [check_challenge_response] returns -1, and neither sends a packet.
    [is_challenge_response] only resets [radius_result] and leaves the
    challenge table as it is; [check_challenge_response] only runs the
    janitor. *)
Theorem response_without_challenge w tok passw user st l d :
  heap st !! l = Some d -> d ≠ ∅ ->
  transaction_of d = VNone
  \/ Forall (fun p => ch_valid p.2 = false)
            (candidates tok (transaction_of d) st) ->
  is_challenge_response w tok passw user (Some l) st
    = (Return false, entered l d st)
  /\ check_challenge_response w tok user passw (Some l) st
     = (Return (VInt (-1)), swept tok st).
Proof.
  intros Hl Hd Hcase.
  pose proof (options_or_empty_alias _ _ _ Hl Hd) as Ho.
  rewrite (is_challenge_response_unfold _ _ _ _ _ _ _ _ _ Ho Hl).
  rewrite (check_challenge_response_unfold _ _ _ _ _ _ _ _ _ Ho Hl).
  destruct Hcase as [Hnone | Hinv].
  - rewrite Hnone. split; reflexivity.
  - split.
    + destruct (truthy (transaction_of d)); [|reflexivity].
      apply icr_loop_invalid, Hinv.
    + destruct (negb (py_eq (transaction_of d) VNone)); [|reflexivity].
      assert (Hskip : forall cs s,
        Forall (fun p : nat * Challenge => ch_valid p.2 = false) cs ->
        ccr_loop w tok passw l cs (VInt (-1)) s = (Return (VInt (-1)), s)).
      { induction cs as [|[j cj] cs IH]; intros s HF; [reflexivity|].
        apply Forall_cons in HF as [Hj HF]. simpl in Hj.
        rewrite (ccr_loop_skip _ _ _ _ _ _ _ _ _ Hj). apply IH, HF. }
      rewrite (Hskip _ _ Hinv). reflexivity.
Qed.

Lemma response_without_challenge_witness :
  let w := Example.world (Example.net_always Example.reply_accept) in
  let st := Example.state_of Example.ctx Example.one_challenge in
  is_challenge_response w Example.tok (OStr "123456") ONone (Some 0%nat) st
    = (Return false, entered 0%nat Example.ctx st)
  /\ check_challenge_response w Example.tok ONone (OStr "123456") (Some 0%nat) st
     = (Return (VInt (-1)), swept Example.tok st).
Proof.
  intros w st.
  apply (response_without_challenge w Example.tok (OStr "123456") ONone st
           0%nat Example.ctx).
  - reflexivity.
  - apply (lookup_nonempty _ "clientip" (VStr "192.0.2.7")). reflexivity.
  - left. reflexivity.
Defined.

(** ** [create_challenge] *)

(** The message [create_challenge] submits for a context. *)
Lemma create_challenge_unfold w tok generated transactionid st l d :
  heap st !! l = Some d -> d ≠ ∅ ->
  create_challenge w tok generated transactionid (Some l) st
  = match challenge_validity w with
    | Return n =>
        let message :=
          if truthy (default VNone (d !! "radius_message"))
          then default VNone (d !! "radius_message")
          else VStr "Enter your RADIUS tokencode:" in
        let c := new_challenge (serial tok) generated transactionid
                   (default VNone (d !! "radius_state")) message n in
        (Return (true, message, ch_transaction_id c,
                 {[ "state" := transactionid ]}),
         swept tok
           (set_challenges
              (<[fresh (dom (challenges st)) := c]> (challenges st)) st))
    | Raise e => (Raise e, st)
    end.
Proof.
  intros Hl Hd. unfold create_challenge.
  rewrite (bind_return _ _ _ _ _ (options_or_empty_alias _ _ _ Hl Hd)).
  rewrite (bind_return _ _ _ _ _ (dict_get_lookup _ _ _ _ Hl)).
  rewrite (bind_return _ _ _ _ _ (dict_get_lookup _ _ _ _ Hl)).
  destruct (challenge_validity w) as [n|e].
  - rewrite lift_bind. reflexivity.
  - rewrite lift_raise_bind. reflexivity.
Qed.

Lemma fresh_row_absent (m : gmap nat Challenge) : m !! fresh (dom m) = None.
Proof. apply not_elem_of_dom. apply is_fresh. Qed.

(** X14.  [create_challenge] followed by the lookup: with a transaction id
    and a positive validity time, the call returns [True], the message (the
    context's [radius_message], or "Enter your RADIUS tokencode:" when that
    is missing or empty), the transaction id and [{'state': id}]; it adds
    one record under a row id that was free, holding the context's
    [radius_state] as data, and [get_challenges] for the token and the
    transaction finds that record; no packet is sent, no dictionary is
    changed, and the janitor runs once. *)
Theorem create_challenge_then_lookup w tok generated t st l d n :
  heap st !! l = Some d -> d ≠ ∅ ->
  t ≠ "" ->
  challenge_validity w = Return n -> 0 < n ->
  exists st' id c message,
    create_challenge w tok generated (VStr t) (Some l) st
      = (Return (true, message, t, {[ "state" := VStr t ]}), st')
    /\ message = (if truthy (default VNone (d !! "radius_message"))
                  then default VNone (d !! "radius_message")
                  else VStr "Enter your RADIUS tokencode:")
    /\ challenges st !! id = None
    /\ challenges st' !! id = Some c
    /\ (id, c) ∈ candidates tok (VStr t) st'
    /\ ch_data c = default VNone (d !! "radius_state")
    /\ ch_challenge c = py_str message
    /\ ch_valid c = true /\ ch_received_count c = 0%nat
    /\ sent st' = sent st /\ heap st' = heap st
    /\ sweeps st' = S (sweeps st).
Proof.
  intros Hl Hd Ht Hn Hpos.
  rewrite (create_challenge_unfold _ _ _ _ _ _ _ Hl Hd), Hn.
  cbv zeta.
  set (message := if truthy (default VNone (d !! "radius_message"))
                  then default VNone (d !! "radius_message")
                  else VStr "Enter your RADIUS tokencode:").
  set (c := new_challenge (serial tok) generated (VStr t)
              (default VNone (d !! "radius_state")) message n).
  assert (Htr : truthy (VStr t) = true).
  { simpl. destruct (String.eqb t "") eqn:E;
      [apply String.eqb_eq in E; congruence | reflexivity]. }
  assert (Htx : ch_transaction_id c = t).
  { unfold c, new_challenge. cbn [ch_transaction_id]. rewrite Htr. reflexivity. }
  assert (Hval : ch_valid c = true).
  { unfold c, new_challenge. simpl. apply Z.ltb_lt. exact Hpos. }
  assert (Hrow : challenges
                   (swept tok
                      (set_challenges
                         (<[fresh (dom (challenges st)) := c]> (challenges st))
                         st)) !! fresh (dom (challenges st)) = Some c).
  { apply swept_keeps_valid; [|exact Hval]. simpl. apply lookup_insert_eq. }
  rewrite Htx.
  eexists _, (fresh (dom (challenges st))), c, message.
  split; [reflexivity|]. split; [reflexivity|].
  split; [apply fresh_row_absent|]. split; [exact Hrow|]. split.
  - unfold candidates. apply list_elem_of_filter. split.
    + unfold challenge_matches. cbn [snd].
      split; [reflexivity | rewrite Htx; reflexivity].
    + apply elem_of_map_to_list. exact Hrow.
  - repeat split. exact Hval.
Qed.

Lemma create_challenge_then_lookup_witness :
  let w := Example.world (Example.net_always Example.reply_accept) in
  let st := Example.state_of Example.ctx_challenged Example.one_challenge in
  exists st' id c message,
    create_challenge w Example.tok "generated" (VStr "tx2") (Some 0%nat) st
      = (Return (true, message, "tx2", {[ "state" := VStr "tx2" ]}), st')
    /\ message = (if truthy (default VNone
                               (Example.ctx_challenged !! "radius_message"))
                  then default VNone (Example.ctx_challenged !! "radius_message")
                  else VStr "Enter your RADIUS tokencode:")
    /\ challenges st !! id = None
    /\ challenges st' !! id = Some c
    /\ (id, c) ∈ candidates Example.tok (VStr "tx2") st'
    /\ ch_data c = default VNone (Example.ctx_challenged !! "radius_state")
    /\ ch_challenge c = py_str message
    /\ ch_valid c = true /\ ch_received_count c = 0%nat
    /\ sent st' = sent st /\ heap st' = heap st
    /\ sweeps st' = S (sweeps st).
Proof.
  intros w st.
  apply (create_challenge_then_lookup w Example.tok "generated" "tx2" st 0%nat
           Example.ctx_challenged 120).
  - reflexivity.
  - apply (lookup_nonempty _ "clientip" (VStr "192.0.2.7")).
    vm_compute. reflexivity.
  - discriminate.
  - reflexivity.
  - reflexivity.
Defined.

(** X15.  When [int] raises on the validity time of the system
    configuration, [create_challenge] raises that exception before anything
    is stored: the state is unchanged. *)
Theorem create_challenge_bad_validity w tok generated transactionid st l d s e :
  heap st !! l = Some d -> d ≠ ∅ ->
  get_from_config w "DefaultChallengeValidityTime" = Some s ->
  py_int w s = Raise e ->
  create_challenge w tok generated transactionid (Some l) st = (Raise e, st).
Proof.
  intros Hl Hd Hcfg Hint.
  rewrite (create_challenge_unfold _ _ _ _ _ _ _ Hl Hd).
  unfold challenge_validity. rewrite Hcfg, Hint. reflexivity.
Qed.

Lemma create_challenge_bad_validity_witness :
  let w := {| is_true := fun o => bool_decide (o = Some "1");
              sysconfig := {[ "DefaultChallengeValidityTime" := "two minutes" ]};
              get_radius := fun _ => Raise (LibraryError "no such RADIUS server");
              base_check_pin := fun _ _ => Return false;
              recursion_limit := 1000;
              Dictionary := fun _ => None;
              CreateAuthPacket := fun _ _ => None;
              to_unicode := fun _ => None;
              PwCrypt := fun _ _ => None;
              SetAttribute := fun _ _ => None;
              SendPacket := Example.net_timeout;
              int_beyond := fun _ =>
                Raise (ValueError "invalid literal for int() with base 10") |} in
  let st := Example.state_of Example.ctx ∅ in
  create_challenge w Example.tok "generated" (VStr "tx2") (Some 0%nat) st
  = (Raise (ValueError "invalid literal for int() with base 10"), st).
Proof.
  intros w st.
  apply (create_challenge_bad_validity w Example.tok "generated" (VStr "tx2")
           st 0%nat Example.ctx "two minutes").
  - reflexivity.
  - apply (lookup_nonempty _ "clientip" (VStr "192.0.2.7")). reflexivity.
  - reflexivity.
  - reflexivity.
Defined.

(** ** From [create_challenge] to the response *)

Lemma nodup_all_equal {A} (l : list A) (x : A) :
  NoDup l -> x ∈ l -> (forall y, y ∈ l -> y = x) -> l = [x].
Proof.
  intros Hnd Hin Hall. destruct l as [|a l]; [inversion Hin|].
  assert (a = x) as -> by (apply Hall; left).
  f_equal. destruct l as [|b l]; [reflexivity|].
  assert (b = x) as -> by (apply Hall; right; left).
  apply NoDup_cons in Hnd as [Hnot _]. exfalso. apply Hnot. left.
Qed.

(** A record saved under a free row id for a transaction that had no
    challenge is, after the janitor ran, the only candidate. *)
Lemma candidates_after_save tok tx st id c :
  candidates tok tx st = [] ->
  challenge_matches (serial tok) tx (id, c) ->
  ch_valid c = true ->
  candidates tok tx
    (swept tok (set_challenges (<[id := c]> (challenges st)) st))
  = [(id, c)].
Proof.
  intros Hnone Hm Hv.
  set (st1 := swept tok (set_challenges (<[id := c]> (challenges st)) st)).
  assert (Hrow : challenges st1 !! id = Some c).
  { apply swept_keeps_valid; [|exact Hv]. simpl. apply lookup_insert_eq. }
  apply nodup_all_equal.
  - eapply NoDup_fmap_1. apply candidates_NoDup.
  - unfold candidates. apply list_elem_of_filter. split; [exact Hm|].
    apply elem_of_map_to_list. exact Hrow.
  - intros [j cj] Hin.
    pose proof Hin as [Hmj Hj]%list_elem_of_filter.
    apply elem_of_map_to_list in Hj.
    change (challenges st1)
      with (filter (fun p : nat * Challenge =>
                      expired_of (serial tok) p.2 = false)
                   (<[id := c]> (challenges st))) in Hj.
    apply map_lookup_filter_Some in Hj as [Hj _].
    apply lookup_insert_Some in Hj as [[<- <-] | [Hne Hj]]; [reflexivity|].
    exfalso.
    assert (Hold : (j, cj) ∈ candidates tok tx st).
    { unfold candidates. apply list_elem_of_filter. split; [exact Hmj|].
      apply elem_of_map_to_list. exact Hj. }
    rewrite Hnone in Hold. inversion Hold.
Qed.

(** Once the request is built it is sent, whatever the server then does,
    and [check_radius] returns. *)
Lemma check_radius_sends w tok otpval rs st l d cfg otp req stb :
  heap st !! l = Some d -> d ≠ ∅ -> sentinel d = false ->
  resolve_server w tok = Return cfg ->
  py_len otpval = Return otp ->
  build_request w tok otp l cfg rs (at_try st) = (Return req, stb) ->
  exists v st',
    check_radius w tok otpval (Some l) rs st = (Return v, st')
    /\ sent st' = req :: sent st.
Proof.
  intros Hl Hd Hs Hr Hp Hb.
  pose proof (options_or_empty_alias _ _ _ Hl Hd) as Ho.
  destruct (check_radius_cases w tok otpval (Some l) rs st l st d Ho Hl)
    as [(accept & Ha & _) | (_ & [(e & Hr' & _) | [(cfg' & e & _ & Hp' & _)
        | (cfg' & otp' & exc & lc & st3 & Hr' & Hp' & Ht & Heq)]])].
  - exfalso. unfold sentinel in Hs. rewrite Ha in Hs.
    destruct accept; discriminate.
  - congruence.
  - congruence.
  - rewrite Hr in Hr'. injection Hr' as <-.
    rewrite Hp in Hp'. injection Hp' as <-.
    destruct (radius_try_cases _ _ _ _ _ _ _ _ _ Ht)
      as [(e & Hb' & _) | (req' & st1 & Hb' & Hs3 & _)].
    + simpl in Hb'. congruence.
    + simpl in Hb'. rewrite Hb in Hb'. injection Hb' as <- <-.
      eexists _, _. split; [exact Heq|].
      destruct exc; simpl; rewrite Hs3; reflexivity.
Qed.

Lemma length_append (a b : string) :
  String.length (a ++ b) = (String.length a + String.length b)%nat.
Proof. induction a as [|c a IH]; simpl; [reflexivity | rewrite IH; reflexivity]. Qed.

Lemma escape_byte_length quote c : (1 <= String.length (escape_byte quote c))%nat.
Proof.
  unfold escape_byte.
  repeat match goal with
         | |- context [if ?b then _ else _] => destruct b
         end; simpl; lia.
Qed.

(** [str] of a byte string is never the byte string itself: it is longer
    by the letter b and the two quotes at least. *)
Lemma bytes_repr_differs b : bytes_repr b ≠ b.
Proof.
  intros H. apply (f_equal String.length) in H. revert H.
  unfold bytes_repr.
  generalize (if contains "'" b && negb (contains dquote b)
              then dquote else "'"%char).
  intros quote. cbn [String.length].
  assert (Hlen : forall l,
    (length l + 1
     <= String.length
          (fold_right (fun c r => escape_byte quote c ++ r)
                      (String quote "") l))%nat).
  { induction l as [|c l IH]; simpl; [lia|].
    rewrite length_append. pose proof (escape_byte_length quote c). lia. }
  specialize (Hlen (list_ascii_of_string b)).
  assert (Hb : length (list_ascii_of_string b) = String.length b).
  { clear. induction b as [|c b IH]; simpl; [reflexivity | rewrite IH; reflexivity]. }
  rewrite Hb in Hlen. lia.
Qed.

(** X16.  The state stored with a challenge goes back to the RADIUS server
    through [str].  After [create_challenge] stored a challenge for a
    transaction that had none, from a context whose [radius_state] is
    non-empty, an [is_challenge_response] for that transaction, on a
    context without sentinel and with a request that can be built, returns
    and sends exactly that one request; its password is the user's
    response and its State is [str] of the stored state.  For a state that
    is a byte string (what pyrad returns for State) this is the text
    b'...' and not the bytes the server issued. *)
Theorem issued_state_is_replayed
    w tok generated t sv n otp user st l d l2 d2 cfg req stb :
  heap st !! l = Some d ->
  d !! "radius_state" = Some sv -> truthy sv = true ->
  t ≠ "" ->
  challenge_validity w = Return n -> 0 < n ->
  candidates tok (VStr t) st = [] ->
  heap st !! l2 = Some d2 ->
  transaction_of d2 = VStr t ->
  sentinel d2 = false ->
  resolve_server w tok = Return cfg ->
  build_request w tok otp l2 cfg sv
    (at_try (entered l2 d2
               (create_challenge w tok generated (VStr t) (Some l) st).2))
    = (Return req, stb) ->
  exists r st3,
    is_challenge_response w tok (OStr otp) user (Some l2)
      (create_challenge w tok generated (VStr t) (Some l) st).2
      = (Return r, st3)
    /\ sent st3 = req :: sent st
    /\ rq_password req = otp
    /\ rq_state req = Some (py_str sv)
    /\ forall b, sv = VBytes b ->
                 rq_state req = Some (bytes_repr b) /\ rq_state req ≠ Some b.
Proof.
  intros Hl Hst Hs Ht Hn Hpos Hnone Hl2 Htx2 Hsen Hr Hb.
  pose proof (lookup_nonempty _ _ _ Hst) as Hd.
  revert Hb.
  rewrite (create_challenge_unfold _ _ _ _ _ _ _ Hl Hd), Hn.
  cbv zeta. cbn [snd].
  set (message := if truthy (default VNone (d !! "radius_message"))
                  then default VNone (d !! "radius_message")
                  else VStr "Enter your RADIUS tokencode:").
  set (c := new_challenge (serial tok) generated (VStr t)
              (default VNone (d !! "radius_state")) message n).
  set (id := fresh (dom (challenges st))).
  set (st1 := swept tok (set_challenges (<[id := c]> (challenges st)) st)).
  intros Hb.
  assert (Htr : truthy (VStr t) = true).
  { simpl. destruct (String.eqb t "") eqn:E;
      [apply String.eqb_eq in E; congruence | reflexivity]. }
  assert (Hid : ch_transaction_id c = t).
  { unfold c, new_challenge. cbn [ch_transaction_id]. rewrite Htr. reflexivity. }
  assert (Hval : ch_valid c = true).
  { unfold c, new_challenge. simpl. apply Z.ltb_lt. exact Hpos. }
  assert (Hdata : ch_data c = sv).
  { unfold c, new_challenge. cbn [ch_data]. rewrite Hst. reflexivity. }
  assert (Hc1 : candidates tok (VStr t) st1 = [(id, c)]).
  { apply candidates_after_save; [exact Hnone| |exact Hval].
    unfold challenge_matches. cbn [snd].
    split; [reflexivity | rewrite Hid; reflexivity]. }
  assert (Hl2' : heap st1 !! l2 = Some d2) by exact Hl2.
  assert (Hd2 : d2 ≠ ∅).
  { apply transaction_nonempty. rewrite Htx2. discriminate. }
  pose proof (options_or_empty_alias _ _ _ Hl2' Hd2) as Ho.
  rewrite (is_challenge_response_unfold _ _ _ _ _ _ _ _ _ Ho Hl2').
  rewrite Htx2, Htr, Hc1.
  set (de := <["radius_result" := VNone]> d2).
  assert (Hle : heap (entered l2 d2 st1) !! l2 = Some de)
    by apply (heap_insert_lookup _ _ _ _ Hl2').
  assert (Hde : de ≠ ∅)
    by apply (lookup_nonempty _ "radius_result" VNone), lookup_insert_eq.
  assert (Hse : sentinel de = false).
  { unfold sentinel, de. rewrite lookup_insert_ne by discriminate. exact Hsen. }
  destruct (check_radius_sends w tok (OStr otp) sv (entered l2 d2 st1) l2 de
              cfg otp req stb Hle Hde Hse Hr eq_refl Hb)
    as (v & st4 & Hcr & Hsent).
  rewrite <- Hdata in Hcr.
  rewrite (icr_loop_step _ _ _ _ _ _ _ _ _ _ _ Hval Hcr).
  destruct (build_request_fields _ _ _ _ _ _ _ _ _ Hb)
    as (_ & _ & _ & _ & _ & Hpw & _ & _ & Hstate).
  rewrite Hs in Hstate.
  assert (Hrest : rq_password req = otp
                  /\ rq_state req = Some (py_str sv)
                  /\ forall b, sv = VBytes b ->
                               rq_state req = Some (bytes_repr b)
                               /\ rq_state req ≠ Some b).
  { split; [exact Hpw|]. split; [exact Hstate|].
    intros b ->. split; [exact Hstate|].
    rewrite Hstate. simpl. intros [= Hbad].
    exact (bytes_repr_differs b Hbad). }
  destruct (py_eq v (VInt 1)).
  - eexists _, _. split; [reflexivity|]. split; [exact Hsent | exact Hrest].
  - eexists _, _. split; [reflexivity|]. split; [exact Hsent | exact Hrest].
Qed.

Lemma issued_state_is_replayed_witness :
  let w := Example.world (Example.net_always Example.reply_accept) in
  let st := {| heap := [<["radius_state" := VBytes "S1"]> Example.ctx;
                        Example.ctx_response];
               challenges := ∅; sent := []; sweeps := 0; log := [] |} in
  let req := {| rq_server := "10.0.0.1"; rq_authport := 1812;
                rq_secret := Some "secret";
                rq_dict := "/etc/privacyidea/dictionary";
                rq_user := "alice"; rq_nas := "privacyIDEA";
                rq_password := "123456"; rq_state := Some "b'S1'" |} in
  exists r st3,
    is_challenge_response w Example.tok (OStr "123456") ONone (Some 1%nat)
      (create_challenge w Example.tok "generated" (VStr "tx1") (Some 0%nat)
         st).2
      = (Return r, st3)
    /\ sent st3 = req :: sent st
    /\ rq_password req = "123456"
    /\ rq_state req = Some (py_str (VBytes "S1"))
    /\ forall b, VBytes "S1" = VBytes b ->
                 rq_state req = Some (bytes_repr b) /\ rq_state req ≠ Some b.
Proof.
  intros w st req.
  apply (issued_state_is_replayed w Example.tok "generated" "tx1"
           (VBytes "S1") 120 "123456" ONone st 0%nat
           (<["radius_state" := VBytes "S1"]> Example.ctx) 1%nat
           Example.ctx_response
           (Some "10.0.0.1:1812", Some "secret", None) req
           (build_request w Example.tok "123456" 1%nat
              (Some "10.0.0.1:1812", Some "secret", None) (VBytes "S1")
              (at_try (entered 1%nat Example.ctx_response
                         (create_challenge w Example.tok "generated"
                            (VStr "tx1") (Some 0%nat) st).2))).2).
  - reflexivity.
  - vm_compute. reflexivity.
  - reflexivity.
  - discriminate.
  - reflexivity.
  - reflexivity.
  - vm_compute. reflexivity.
  - reflexivity.
  - vm_compute. reflexivity.
  - reflexivity.
  - vm_compute. reflexivity.
  - vm_compute. reflexivity.
Defined.

(** ** [update] *)

Ltac ops_prefix l ops :=
  lazymatch l with
  | ops => constr:(@nil token_op)
  | ?x :: ?l' => let r := ops_prefix l' ops in constr:(x :: r)
  end.

(** X17.  [update] never completes.  For every parameter set it ends in an
    exception: the [ParameterError] for a missing
    [radius.identifier], an exception of [getParam] or
    [hexlify_and_unicode], or else the [TypeError] of the call
    [self.update(self, param)] on line 139.  The statements after that call
    are never reached: no call of [update] stores [radius.local_checkpin],
    [radius.user] or [tokenkind]. *)
Theorem update_never_completes api param ops :
  exists e new,
    update api param ops = (inr e, (new ++ ops)%list)
    /\ (e = ArgumentCountError
              "update() takes 2 positional arguments but 3 were given"
        \/ e = ParameterError "Missing parameter: radius.identifier" 905
        \/ (exists key opt dflt, getParam api param key opt dflt = inr e)
        \/ (exists v, hexlify_and_unicode api v = inr e))
    /\ (forall v, AddTokeninfo "radius.local_checkpin" v ∉ new)
    /\ (forall v, AddTokeninfo "radius.user" v ∉ new)
    /\ (forall v, AddTokeninfo "tokenkind" v ∉ new).
Proof.
  unfold update.
  cbv beta iota delta [mbind U_bind mret U_ret u_lift u_raise token_call
                       update_self_call].
  repeat match goal with
         | |- context [match ?x with _ => _ end] =>
             lazymatch x with
             | context [match _ with _ => _ end] => fail
             | _ => destruct x eqn:?
             end
         end.
  all: match goal with
       | |- exists e new, (inr ?e0, ?l) = _ /\ _ =>
           let p := ops_prefix l ops in exists e0, p
       end.
  all: split; [reflexivity|].
  all: split; [eauto 10|].
  all: repeat split; intros v Hin.
  all: repeat (apply elem_of_cons in Hin as [Hin|Hin]; [discriminate|]).
  all: inversion Hin.
Qed.

(** ** [get_class_info] *)

(** X18.  With a non-empty [key], [get_class_info] does not use [ret]: a
    key the definition does not have yields the empty dictionary, not the
    caller's default. *)
Theorem get_class_info_unknown_key tr key ret :
  key ≠ "" ->
  key ∉ ["type"; "title"; "description"; "user"; "ui_enroll"; "policy"] ->
  get_class_info tr (Some key) ret = IDict INil.
Proof.
  intros Hne Hnot. unfold get_class_info. cbn [of_opt truthy from_option].
  unfold id.
  destruct (String.eqb key "") eqn:E;
    [apply String.eqb_eq in E; congruence|].
  cbn [negb]. cbv iota. unfold class_info. cbn [items_get].
  repeat match goal with
         | |- context [String.eqb ?k key] =>
             destruct (String.eqb k key) eqn:?;
             [exfalso; apply Hnot;
              match goal with
              | H : String.eqb _ key = true |- _ =>
                  apply String.eqb_eq in H; rewrite <- H
              end;
              repeat first [left | right]
             |]
         end.
  reflexivity.
Qed.

Lemma get_class_info_unknown_key_witness :
  get_class_info (fun s => s) (Some "init") (IStr "fallback") = IDict INil.
Proof.
  apply (get_class_info_unknown_key (fun s => s) "init" (IStr "fallback")).
  - discriminate.
  - intros Hin.
    repeat (apply elem_of_cons in Hin as [Hin|Hin]; [discriminate|]).
    inversion Hin.
Defined.

(** ** The server address (lines 460-464) *)

Lemma split_on_colon_free h : colon_free h = true -> split_on ":" h = [h].
Proof.
  induction h as [|c h IH]; [reflexivity|].
  cbn [colon_free split_on]. intros [Hc Hh]%andb_true_iff.
  apply negb_true_iff in Hc. rewrite Hc, (IH Hh). reflexivity.
Qed.

Lemma split_on_colon h t :
  colon_free h = true ->
  split_on ":" (h ++ String ":" t) = h :: split_on ":" t.
Proof.
  induction h as [|c h IH]; [reflexivity|].
  cbn [colon_free]. intros [Hc Hh]%andb_true_iff.
  apply negb_true_iff in Hc.
  change (String c h ++ String ":" t) with (String c (h ++ String ":" t)).
  cbn [split_on]. rewrite Hc, (IH Hh). reflexivity.
Qed.

(** X19.  Where a request goes.  The configured server string is cut at
    its colons: without a colon the request goes to that host and port
    1812; otherwise to the text before the first colon, and the port is
    what [int] reads from the text between the first and the second colon;
    what follows a second colon is ignored. *)
Theorem check_radius_endpoint w tok otpval l rs st d r st' req srv sec dic :
  heap st !! l = Some d -> d ≠ ∅ ->
  resolve_server w tok = Return (Some srv, sec, dic) ->
  check_radius w tok otpval (Some l) rs st = (r, st') ->
  sent st' = req :: sent st ->
  (colon_free srv = true -> rq_server req = srv /\ rq_authport req = 1812)
  /\ (forall h p,
         colon_free h = true -> colon_free p = true ->
         srv = h ++ ":" ++ p ->
         rq_server req = h /\ py_int w p = Return (rq_authport req))
  /\ (forall h p rest,
         colon_free h = true -> colon_free p = true ->
         srv = h ++ ":" ++ p ++ ":" ++ rest ->
         rq_server req = h /\ py_int w p = Return (rq_authport req)).
Proof.
  intros Hl Hd Hr H Hsent.
  pose proof (options_or_empty_alias _ _ _ Hl Hd) as Ho.
  destruct (check_radius_sent _ _ _ _ _ _ _ _ _ _ _ Ho Hl eq_refl H)
    as [Hsame | (req' & cfg & otp & st1 & Hsent' & _ & Hr' & _ & Hb)].
  { rewrite Hsame in Hsent. symmetry in Hsent.
    exfalso. exact (cons_neq _ _ Hsent). }
  rewrite Hsent in Hsent'. injection Hsent' as <-.
  rewrite Hr in Hr'. injection Hr' as <-.
  destruct (build_request_fields _ _ _ _ _ _ _ _ _ Hb)
    as (host & Hhost & Hsrv & Hport & _).
  cbn [fst] in Hhost. injection Hhost as <-.
  split; [|split].
  - intros Hfree. rewrite (split_on_colon_free _ Hfree) in Hsrv, Hport.
    split; [exact Hsrv | exact Hport].
  - intros h p Hh Hp ->.
    change (h ++ ":" ++ p) with (h ++ String ":" p) in Hsrv, Hport.
    rewrite (split_on_colon _ _ Hh), (split_on_colon_free _ Hp) in Hsrv, Hport.
    split; [exact Hsrv | exact Hport].
  - intros h p rest Hh Hp ->.
    change (h ++ ":" ++ p ++ ":" ++ rest)
      with (h ++ String ":" (p ++ String ":" rest)) in Hsrv, Hport.
    rewrite (split_on_colon _ _ Hh), (split_on_colon _ _ Hp) in Hsrv, Hport.
    split; [exact Hsrv | exact Hport].
Qed.

Lemma check_radius_endpoint_witness :
  let w := Example.world (Example.net_always Example.reply_accept) in
  let st := Example.state_of Example.ctx ∅ in
  let req := {| rq_server := "10.0.0.1"; rq_authport := 1812;
                rq_secret := Some "secret";
                rq_dict := "/etc/privacyidea/dictionary";
                rq_user := "alice"; rq_nas := "privacyIDEA";
                rq_password := "123456"; rq_state := None |} in
  let srv := "10.0.0.1:1812" in
  (colon_free srv = true -> rq_server req = srv /\ rq_authport req = 1812)
  /\ (forall h p,
         colon_free h = true -> colon_free p = true ->
         srv = h ++ ":" ++ p ->
         rq_server req = h /\ py_int w p = Return (rq_authport req))
  /\ (forall h p rest,
         colon_free h = true -> colon_free p = true ->
         srv = h ++ ":" ++ p ++ ":" ++ rest ->
         rq_server req = h /\ py_int w p = Return (rq_authport req)).
Proof.
  intros w st req srv.
  apply (check_radius_endpoint w Example.tok (OStr "123456") 0%nat VNone st
           Example.ctx
           (check_radius w Example.tok (OStr "123456") (Some 0%nat) VNone st).1
           (check_radius w Example.tok (OStr "123456") (Some 0%nat) VNone st).2
           req srv (Some "secret") None).
  - reflexivity.
  - apply (lookup_nonempty _ "clientip" (VStr "192.0.2.7")). reflexivity.
  - vm_compute. reflexivity.
  - apply surjective_pairing.
  - vm_compute. reflexivity.
Defined.

(** ** Issuing a challenge *)



